(** * The training orchestrator of [old/solver.py]

    A shallow embedding of [run_solver] (the epoch/batch loop, the two
    cadence policies, the validation sub-loop and the final checkpoint
    write) and of the job loop of the command line entry point, together
    with the properties the specification states about them.

    Layout: Python helpers (strings, exceptions, a state-and-exception
    monad), the collaborators the solver calls, the solver itself, the
    job loop, scripted collaborators for concrete runs, then the theorems. *)

From Stdlib Require Import ZArith String Ascii List Bool DecimalString Lia.
From Stdlib Require Import DecimalPos DecimalZ.
Import ListNotations.

Local Open Scope string_scope.
Local Open Scope Z_scope.

(* ===================================================================== *)
(** ** Python strings *)
(* ===================================================================== *)

Module PyStr.

(** [s.replace(old, new)] for one-character [old] and [new]: every
    occurrence is replaced, left to right. *)
Fixpoint replace (old new : ascii) (s : string) : string :=
  match s with
  | EmptyString => EmptyString
  | String c rest =>
      String (if Ascii.eqb c old then new else c) (replace old new rest)
  end.

(** [str(n)] for a Python int. *)
Definition str (n : Z) : string := NilZero.string_of_int (Z.to_int n).

Definition starts_with_slash (s : string) : bool :=
  match s with
  | String c _ => Ascii.eqb c "/"
  | EmptyString => false
  end.

Fixpoint ends_with_slash (s : string) : bool :=
  match s with
  | EmptyString => false
  | String c EmptyString => Ascii.eqb c "/"
  | String _ rest => ends_with_slash rest
  end.

(** [os.path.join(a, b)] on a POSIX system, for two components. *)
Definition path_join (a b : string) : string :=
  if starts_with_slash b then b
  else match a with
       | EmptyString => b
       | _ => if ends_with_slash a then a ++ b else a ++ "/" ++ b
       end.

End PyStr.

(** Line 66: [regularize_name = lambda s :
    s.replace("+","p").replace("-","m").replace(".","o")]. *)
Definition regularize_name (s : string) : string :=
  PyStr.replace "." "o" (PyStr.replace "-" "m" (PyStr.replace "+" "p" s)).

(** Line 67, the argument handed to [tools.require_dir]:
    ["{}_{}_{}".format(str(dir_prefix), regularize_name(str(dataset)),
    str(timestamp))].  Timestamps are modelled as integers throughout. *)
Definition savedir_name (dir_prefix dataset : string) (timestamp : Z) : string :=
  dir_prefix ++ "_" ++ regularize_name dataset ++ "_" ++ PyStr.str timestamp.

(** The sanitisation as the specification words it: each character is
    mapped on its own, [+] to [p], [-] to [m], [.] to [o]. *)
Definition sanitize_char (c : ascii) : ascii :=
  if Ascii.eqb c "+" then "p"
  else if Ascii.eqb c "-" then "m"
  else if Ascii.eqb c "." then "o"
  else c.

Fixpoint sanitize_spec (s : string) : string :=
  match s with
  | EmptyString => EmptyString
  | String c rest => String (sanitize_char c) (sanitize_spec rest)
  end.

(* ===================================================================== *)
(** ** Python exceptions and a state-and-exception monad *)
(* ===================================================================== *)

(** The three classes the handlers of [run_solver] tell apart:
    [KeyboardInterrupt], any subclass of [Exception], and the remaining
    [BaseException]s ([SystemExit], [GeneratorExit]), which only a bare
    [except:] catches. *)
Inductive exn : Type :=
| KeyboardInterrupt
| Exception
| SystemExit.

Inductive outcome (A : Type) : Type :=
| Ret (a : A)
| Raise (e : exn).
Arguments Ret {A} a.
Arguments Raise {A} e.

(** A computation over a mutable state [S]: the state survives a raise,
    as Python locals and the outside world do. *)
Definition M (S A : Type) : Type := S -> outcome A * S.

Definition ret {S A} (a : A) : M S A := fun s => (Ret a, s).

Definition raise {S A} (e : exn) : M S A := fun s => (Raise e, s).

Definition bind {S A B} (m : M S A) (k : A -> M S B) : M S B :=
  fun s =>
    match m s with
    | (Ret a, s') => k a s'
    | (Raise e, s') => (Raise e, s')
    end.

Definition gets {S A} (f : S -> A) : M S A := fun s => (Ret (f s), s).

Definition modify {S} (f : S -> S) : M S unit := fun s => (Ret tt, f s).

(** [try: body  except <classes in catches>: handler]. *)
Definition try_except {S A} (body : M S A) (catches : exn -> bool)
           (handler : exn -> M S A) : M S A :=
  fun s =>
    match body s with
    | (Ret a, s') => (Ret a, s')
    | (Raise e, s') => if catches e then handler e s' else (Raise e, s')
    end.

Declare Scope py_scope.
Delimit Scope py_scope with py.
Notation "x <- m ;; k" := (bind m (fun x => k))
  (at level 61, m at next level, right associativity) : py_scope.
Notation "' p <- m ;; k" := (bind m (fun x => match x with p => k end))
  (at level 61, p pattern, m at next level, right associativity) : py_scope.
Notation "m ;; k" := (bind m (fun _ => k))
  (at level 61, right associativity) : py_scope.
Local Open Scope py_scope.

(** Python's [a % b] on ints: floor modulo, [ZeroDivisionError] on [b = 0]. *)
Definition py_mod {S} (a b : Z) : M S Z :=
  if b =? 0 then raise Exception else ret (a mod b).

(* ===================================================================== *)
(** ** Collaborators *)
(* ===================================================================== *)

(** The training and the validation collection of [get_dataset]. *)
Inductive split : Type :=
| TrainSet
| ValSet.

(** The two list objects [run_solver] appends to. *)
Inductive list_object : Type :=
| LossesList
| RegsList.

Section Values.

Variables S P : Type.

(** A value stored in a Python list of the solver: a float, or a
    reference to one of the solver's own list objects. *)
Inductive pyval : Type :=
| PyFloat (x : S)
| PyRef (l : list_object).

(** The dictionary pickled at line 140 to 142; the two lists as the
    store holds them when the dump happens. *)
Record checkpoint : Type := {
  ck_params : P;
  ck_losses : list pyval;
  ck_regularization : list pyval;
  ck_model_id : Z
}.

End Values.

Arguments PyFloat {S} x.
Arguments PyRef {S} l.
Arguments ck_params {S P} c.
Arguments ck_losses {S P} c.
Arguments ck_regularization {S P} c.
Arguments ck_model_id {S P} c.

(** Everything [run_solver] calls and does not define: the clock, the
    dataset provider, the sample iterator, the training and prediction
    functions, the image writer and the network library.  [run_solver]
    reaches [train_fn], [pred_fn], [network], [layers], [nn] and
    [model_id] as names of the enclosing module, not through its own
    parameters; they are collected here.

    A call acts on the outside world and either returns or raises.  Array
    arithmetic ([tools.crop], [tools.panelize], [np.clip],
    [np.concatenate], [pred.min()]) is pure and total: [composite] is the
    clipped, panelized and concatenated image of three arrays, and
    [X_prefix] is [X[0:len(pred)]].  One pass of [datagen.iterate] over a
    fixed in-memory collection is a number of batches, fixed when the
    pass starts, followed by one fetch per batch.  [layers_dump] stands
    for the reads of [netdump] (output shapes and parameter values of
    every layer).  [get_all_param_values] is the read-out of line 138,
    and [pickle_dump] stands for lines 141 and 142: opening the file
    of the given path for writing and pickling the dictionary into it.
    [time.time()] reads the world's clock, in whole ticks.  Logging does
    not raise. *)
Record Collaborators : Type := {
  World : Type;
  Array : Type;
  Scalar : Type;
  Params : Type;
  time_time : World -> Z;
  get_dataset : string -> World -> outcome unit * World;
  require_dir : string -> World -> outcome string * World;
  PCAIterator : World -> outcome unit * World;
  get_output_shape : World -> outcome unit * World;
  iterate : split -> World -> outcome nat * World;
  next_batch : split -> nat -> World -> outcome (Array * Array) * World;
  crop : Array -> Array;
  train_fn : Array -> Array -> World
             -> outcome (Scalar * Scalar * Scalar * Array) * World;
  pred_fn : Array -> Array -> World -> outcome (Scalar * Array) * World;
  composite : Array -> Array -> Array -> Array;
  X_prefix : World -> Array -> Array;
  imsave : string -> Array -> World -> outcome unit * World;
  layers_dump : World -> outcome unit * World;
  get_all_param_values : World -> outcome Params * World;
  pickle_dump : string -> checkpoint Scalar Params -> World
                -> outcome unit * World
}.

(* ===================================================================== *)
(** ** The solver *)
(* ===================================================================== *)

(** The parameters of [run_solver] (defaults: line 45 to 47) and the
    module-level [model_id] it writes into the checkpoint. *)
Record config : Type := {
  experiment_id : Z;
  timestamp : option Z;
  save_batch_freq : Z;
  save_time_freq : Z;
  dataset : string;
  dir_prefix : string;
  model_id : Z
}.

Definition default_config (experiment_id model_id : Z) : config :=
  {| experiment_id := experiment_id;
     timestamp := None;
     save_batch_freq := 100;
     save_time_freq := 240;
     dataset := "H.E.T.";
     dir_prefix := "run";
     model_id := model_id |}.

(** The log records of [run_solver], one constructor per logging call,
    in the order of the source (lines 69, 74, 97, 104, 111, 118, 126, 128,
    133, 135, 137 and 143). *)
Inductive logmsg : Type :=
| LogLoadedDataset
| LogOutputSize
| LogSavingOutputImage
| LogBatch (batch : Z)
| LogStartValidation
| LogValLoss
| LogFinishedValidation
| LogValidationError
| LogUserInterrupt
| LogUnhandledException
| LogSavingNetwork
| LogSavedWeights.

(** The values [run_solver] keeps, over the types of the floats, of the
    parameter list and of the outside world. *)
Section Store.

Variables W S P : Type.

(** What a run does to the outside, in order: collaborator calls that
    returned, log records, and the checkpoint write. *)
Inductive event : Type :=
| EvTrain (loss reg : S)
| EvPred
| EvImsave (path : string)
| EvNetdump
| EvLog (m : logmsg)
| EvCheckpoint (path : string) (data : checkpoint S P).

(** The locals of [run_solver], the store of its two lists, the outside
    world and the trace.  [snap], [val_snap], [batch] and [val_batch]
    are assigned before they are first read. *)
Record solver_state : Type := {
  world : W;
  trace : list event;
  losses : list (pyval S);
  regs : list (pyval S);
  snap : Z;
  val_snap : Z;
  batch : Z;
  val_batch : Z
}.

End Store.

Arguments EvTrain {S P} loss reg.
Arguments EvPred {S P}.
Arguments EvImsave {S P} path.
Arguments EvNetdump {S P}.
Arguments EvLog {S P} m.
Arguments EvCheckpoint {S P} path data.
Arguments world {W S P} s.
Arguments trace {W S P} s.
Arguments losses {W S P} s.
Arguments regs {W S P} s.
Arguments snap {W S P} s.
Arguments val_snap {W S P} s.
Arguments batch {W S P} s.
Arguments val_batch {W S P} s.
(** The state of a run with the collaborators [E]. *)
Abbreviation state E := (solver_state (World E) (Scalar E) (Params E)).

Section Solver.

Variable E : Collaborators.

(** The state before the first statement: empty lists (lines 76 and 78;
    [val_losses] of line 77 is never used) and an empty trace. *)
Definition init_state (w : World E) : state E :=
  {| world := w; trace := []; losses := []; regs := [];
     snap := 0; val_snap := 0; batch := 0; val_batch := 0 |}.

Definition set_world (w : World E) (s : state E) : state E :=
  {| world := w; trace := trace s; losses := losses s; regs := regs s;
     snap := snap s; val_snap := val_snap s; batch := batch s;
     val_batch := val_batch s |}.

Definition add_event (e : event (Scalar E) (Params E)) (s : state E)
  : state E :=
  {| world := world s; trace := (trace s ++ [e])%list; losses := losses s;
     regs := regs s; snap := snap s; val_snap := val_snap s;
     batch := batch s; val_batch := val_batch s |}.

Definition set_snap (t : Z) (s : state E) : state E :=
  {| world := world s; trace := trace s; losses := losses s; regs := regs s;
     snap := t; val_snap := val_snap s; batch := batch s;
     val_batch := val_batch s |}.

Definition set_val_snap (t : Z) (s : state E) : state E :=
  {| world := world s; trace := trace s; losses := losses s; regs := regs s;
     snap := snap s; val_snap := t; batch := batch s;
     val_batch := val_batch s |}.

Definition set_batch (b : Z) (s : state E) : state E :=
  {| world := world s; trace := trace s; losses := losses s; regs := regs s;
     snap := snap s; val_snap := val_snap s; batch := b;
     val_batch := val_batch s |}.

Definition set_val_batch (b : Z) (s : state E) : state E :=
  {| world := world s; trace := trace s; losses := losses s; regs := regs s;
     snap := snap s; val_snap := val_snap s; batch := batch s;
     val_batch := b |}.

(** [l.append(v)] on the list object [l]. *)
Definition list_append (l : list_object) (v : pyval (Scalar E))
           (s : state E) : state E :=
  match l with
  | LossesList =>
      {| world := world s; trace := trace s;
         losses := (losses s ++ [v])%list; regs := regs s;
         snap := snap s; val_snap := val_snap s; batch := batch s;
         val_batch := val_batch s |}
  | RegsList =>
      {| world := world s; trace := trace s; losses := losses s;
         regs := (regs s ++ [v])%list;
         snap := snap s; val_snap := val_snap s; batch := batch s;
         val_batch := val_batch s |}
  end.

Local Abbreviation Py := (M (state E)).

(** A collaborator call: the world moves on whether it returns or raises. *)
Definition call {A} (f : World E -> outcome A * World E) : Py A :=
  fun s => let (r, w) := f (world s) in (r, set_world w s).

Definition emit (e : event (Scalar E) (Params E)) : Py unit :=
  modify (add_event e).

Definition log (m : logmsg) : Py unit := emit (EvLog m).

Definition now : Py Z := gets (fun s => time_time E (world s)).

(** [netdump(layers)], lines 34 to 43: reads the statistics of every
    layer and logs them. *)
Definition netdump : Py unit :=
  call (layers_dump E) ;; emit EvNetdump.

Variable cfg : config.
Variable savedir : string.

(** The three file names (lines 98, 120 and 141). *)
Definition model_png (epoch b : Z) : string :=
  PyStr.path_join savedir
    ("model" ++ PyStr.str (experiment_id cfg) ++ "_ep" ++ PyStr.str epoch
     ++ "_b" ++ PyStr.str b ++ ".png").

Definition val_model_png (epoch b : Z) : string :=
  PyStr.path_join savedir
    ("val_model" ++ PyStr.str (experiment_id cfg) ++ "_ep" ++ PyStr.str epoch
     ++ "_b" ++ PyStr.str b ++ ".png").

Definition checkpoint_npz : string :=
  PyStr.path_join savedir (PyStr.str (experiment_id cfg) ++ ".npz").

(** Line 93: [batch % save_batch_freq == 0 or
    time.time() - snap > save_time_freq]. *)
Definition snapshot_due : Py bool :=
  b <- gets batch ;;
  r <- py_mod b (save_batch_freq cfg) ;;
  if r =? 0 then ret true
  else
    t <- now ;;
    sn <- gets snap ;;
    ret (save_time_freq cfg <? t - sn).

(** Lines 93 to 102, "TRAINING OUTPUT". *)
Definition training_output (epoch : Z) (inputs targets pred : Array E)
  : Py unit :=
  due <- snapshot_due ;;
  if due then
    let outp_image :=
      composite E (crop E inputs) pred (crop E targets) in
    log LogSavingOutputImage ;;
    b <- gets batch ;;
    call (imsave E (model_png epoch b) outp_image) ;;
    emit (EvImsave (model_png epoch b)) ;;
    netdump ;;
    t <- now ;;
    modify (set_snap t)
  else ret tt.

(** Lines 88 to 90, "TRAINING". *)
Definition training_step (inputs targets : Array E)
  : Py (Scalar E * Scalar E * Scalar E * Array E) :=
  r <- call (train_fn E inputs (crop E targets)) ;;
  emit (EvTrain (snd (fst (fst r))) (snd (fst r))) ;;
  b <- gets batch ;;
  modify (set_batch (b + 1)) ;;
  ret r.

(** Lines 104 to 107: the log line, then [losses.append(loss)] and
    [regs.append(regs)].  The second appends the list object [regs]
    itself, not the float [reg]. *)
Definition record_metrics (loss : Scalar E) : Py unit :=
  b <- gets batch ;;
  log (LogBatch b) ;;
  modify (list_append LossesList (PyFloat loss)) ;;
  modify (list_append RegsList (PyRef RegsList)).

(** How the [for] loop of the validation pass was left. *)
Inductive loop_exit : Type :=
| Exhausted
| Broke.

(** Lines 113 to 125: the [for] loop over the validation batches;
    [todo] batches remain, the next one has index [i]. *)
Fixpoint validation_loop (epoch : Z) (todo i : nat) : Py loop_exit :=
  match todo with
  | O => ret Exhausted
  | S todo' =>
      '(inputs, targets) <- call (next_batch E ValSet i) ;;
      '(loss, pred) <- call (pred_fn E inputs (crop E targets)) ;;
      emit EvPred ;;
      w <- gets world ;;
      let outp_image :=
        composite E (crop E inputs) pred (crop E (X_prefix E w pred)) in
      log LogValLoss ;;
      vb <- gets val_batch ;;
      call (imsave E (val_model_png epoch vb) outp_image) ;;
      emit (EvImsave (val_model_png epoch vb)) ;;
      modify (set_val_batch (vb + 1)) ;;
      t <- now ;;
      vs <- gets val_snap ;;
      if save_time_freq cfg / 10 <? t - vs then ret Broke
      else validation_loop epoch todo' (S i)
  end.

(** Lines 113 to 126: the body of the [try] of the validation pass. *)
Definition validation_pass (epoch : Z) : Py unit :=
  n <- call (iterate E ValSet) ;;
  validation_loop epoch n 0 ;;
  log LogFinishedValidation.

(** Lines 112 to 128: the [try] with its bare [except:], which catches
    every exception class. *)
Definition validation_try (epoch : Z) : Py unit :=
  try_except (validation_pass epoch)
    (fun _ => true)
    (fun _ => log LogValidationError).

(** Lines 110 to 130, "VALIDATION OUTPUT". *)
Definition validation_output (epoch : Z) : Py unit :=
  t <- now ;;
  vs <- gets val_snap ;;
  if save_time_freq cfg <? t - vs then
    log LogStartValidation ;;
    validation_try epoch ;;
    t' <- now ;;
    modify (set_val_snap t')
  else ret tt.

(** Lines 87 to 107: the training call, the training output and the
    metric bookkeeping of one batch. *)
Definition train_and_record (epoch : Z) (inputs targets : Array E)
  : Py unit :=
  '(error, loss, reg, pred) <- training_step inputs targets ;;
  training_output epoch inputs targets pred ;;
  record_metrics loss.

(** Lines 86 to 130: the body of the loop over the training batches. *)
Definition batch_body (epoch : Z) (inputs targets : Array E) : Py unit :=
  train_and_record epoch inputs targets ;;
  validation_output epoch.

(** Line 85: the [for] loop over the training batches. *)
Fixpoint train_loop (epoch : Z) (todo i : nat) : Py unit :=
  match todo with
  | O => ret tt
  | S todo' =>
      '(inputs, targets) <- call (next_batch E TrainSet i) ;;
      batch_body epoch inputs targets ;;
      train_loop epoch todo' (S i)
  end.

(** Lines 83 to 130: one epoch. *)
Definition epoch_body (epoch : Z) : Py unit :=
  modify (set_batch 0) ;;
  modify (set_val_batch 0) ;;
  n <- call (iterate E TrainSet) ;;
  train_loop epoch n 0.

(** Line 82: [for epoch in range(20)]; [todo] epochs remain. *)
Fixpoint epochs (todo : nat) (epoch : Z) : Py unit :=
  match todo with
  | O => ret tt
  | S todo' => epoch_body epoch ;; epochs todo' (epoch + 1)
  end.

(** Lines 80 to 130: the body of the outer [try]. *)
Definition training : Py unit :=
  t <- now ;;
  modify (set_snap t) ;;
  modify (set_val_snap t) ;;
  epochs 20 0.

(** Lines 79 to 135: the outer [try] with its two handlers.  Neither
    catches the remaining [BaseException]s. *)
Definition guarded_training : Py unit :=
  try_except training
    (fun e => match e with SystemExit => false | _ => true end)
    (fun e => match e with
              | KeyboardInterrupt => log LogUserInterrupt
              | _ => log LogUnhandledException
              end).

(** Lines 137 to 143: the checkpoint write.  The statements are
    outside every [try]: an exception of the read-out of line 138 or of
    the file write of lines 141 and 142 leaves [run_solver].  The
    checkpoint event records a write that returned. *)
Definition finalization : Py unit :=
  log LogSavingNetwork ;;
  weights <- call (get_all_param_values E) ;;
  ls <- gets losses ;;
  rs <- gets regs ;;
  let data :=
    {| ck_params := weights; ck_losses := ls;
       ck_regularization := rs; ck_model_id := model_id cfg |} in
  call (pickle_dump E checkpoint_npz data) ;;
  emit (EvCheckpoint checkpoint_npz data) ;;
  log LogSavedWeights.

(** Lines 76 to 143: from the first statement after the set-up on. *)
Definition run_loop : Py unit :=
  guarded_training ;; finalization.

End Solver.

(** Lines 61 to 74: the set-up before the loop. *)
Definition setup (E : Collaborators) (cfg : config) : M (state E) string :=
  ts <- match timestamp cfg with
        | None => now E
        | Some t => ret t
        end ;;
  call E (get_dataset E (dataset cfg)) ;;
  savedir <- call E (require_dir E
                       (savedir_name (dir_prefix cfg) (dataset cfg) ts)) ;;
  log E LogLoadedDataset ;;
  call E (PCAIterator E) ;;
  call E (get_output_shape E) ;;
  log E LogOutputSize ;;
  ret savedir.

(** [run_solver], lines 45 to 143. *)
Definition run_solver (E : Collaborators) (cfg : config) : M (state E) unit :=
  savedir <- setup E cfg ;;
  run_loop E cfg savedir.

(* ===================================================================== *)
(** ** The job loop of the command line entry point *)
(* ===================================================================== *)

(** The log records of the entry point (lines 180, 191, 195 and 203). *)
Inductive main_logmsg : Type :=
| LogStart
| LogInvalidModelId (model_id : Z)
| LogStartProcessing (model_id : Z)
| LogDone.

Section Main.

(** The outside world, the entries of [modellist], Python's [int] on a
    command line word, and lines 196 to 201 (loading the
    hyperparameters, building the graph and running the solver) as one
    call that returns or raises. *)
Variable W : Type.
Variable Builder : Type.
Variable int : string -> outcome Z.
Variable process_job : Builder -> Z -> W -> outcome unit * W.

Record main_state : Type := {
  m_world : W;
  m_log : list main_logmsg
}.

Definition main_log (m : main_logmsg) : M main_state unit :=
  modify (fun s => {| m_world := m_world s; m_log := (m_log s ++ [m])%list |}).

Definition main_call {A} (f : W -> outcome A * W) : M main_state A :=
  fun s => let (r, w) := f (m_world s) in
           (r, {| m_world := w; m_log := m_log s |}).

Variable modellist : list Builder.

(** Line 190: [model_id < 0 or model_id >= len(modellist)]. *)
Definition invalid_id (model_id : Z) : bool :=
  (model_id <? 0) || (Z.of_nat (length modellist) <=? model_id).

(** Lines 188 to 201: [for model_id in joblist]. *)
Fixpoint job_loop (joblist : list string) : M main_state unit :=
  match joblist with
  | [] => ret tt
  | word :: rest =>
      n <- (fun s => (int word, s)) ;;
      let model_id := n - 1 in
      if invalid_id model_id then
        main_log (LogInvalidModelId model_id) ;;
        job_loop rest
      else
        match nth_error modellist (Z.to_nat model_id) with
        | None => raise Exception
        | Some get_model =>
            main_log (LogStartProcessing model_id) ;;
            main_call (process_job get_model model_id) ;;
            job_loop rest
        end
  end.

(** Lines 178 to 203. *)
Definition main (joblist : list string) : M main_state unit :=
  main_log LogStart ;;
  job_loop joblist ;;
  main_log LogDone.

(** A command line word that denotes an identifier outside
    [1 .. len(modellist)]. *)
Definition out_of_range (word : string) : bool :=
  match int word with
  | Ret n => invalid_id (n - 1)
  | Raise _ => false
  end.

Definition is_warning (m : main_logmsg) : bool :=
  match m with LogInvalidModelId _ => true | _ => false end.

(** The words a job list keeps when its out-of-range identifiers are
    dropped. *)
Definition kept (word : string) : bool :=
  negb (out_of_range word).

Definition not_warning (m : main_logmsg) : bool := negb (is_warning m).

(** Two states that differ in warnings only. *)
Definition same_but_warnings (s t : main_state) : Prop :=
  m_world s = m_world t
  /\ filter not_warning (m_log s) = filter not_warning (m_log t).

(** The state after the warning of line 191. *)
Definition warned (model_id : Z) (s : main_state) : main_state :=
  {| m_world := m_world s;
     m_log := (m_log s ++ [LogInvalidModelId model_id])%list |}.

(** The state after a job was started and left the world [w]. *)
Definition started (model_id : Z) (w : W) (s : main_state) : main_state :=
  {| m_world := w;
     m_log := (m_log s ++ [LogStartProcessing model_id])%list |}.

End Main.

Arguments m_world {W} _.
Arguments m_log {W} _.
Arguments same_but_warnings {W} s t.
Arguments warned {W} model_id s.
Arguments started {W} model_id w s.

(* ===================================================================== *)
(** ** Scripted collaborators for concrete runs *)
(* ===================================================================== *)

Module Script.

(** A deterministic outside world: a clock and call counters. *)
Record world : Type := {
  clock : Z;
  train_calls : nat;
  pred_calls : nat;
  imsave_calls : nat
}.

Definition start : world :=
  {| clock := 0; train_calls := 0; pred_calls := 0; imsave_calls := 0 |}.

(** What the collaborators do: the sizes of the two collections in
    batches, what a training and a prediction call cost in clock
    ticks, and which calls raise (numbered from 0 per collaborator). *)
Record script : Type := {
  train_batches : nat;
  val_batches : nat;
  train_cost : Z;
  pred_cost : Z;
  train_raises : nat -> option exn;
  pred_raises : nat -> option exn;
  imsave_raises : nat -> option exn
}.

Definition quiet : nat -> option exn := fun _ => None.

Definition raises_at (k : nat) (e : exn) : nat -> option exn :=
  fun i => if Nat.eqb i k then Some e else None.

Definition do_train (sc : script) (w : world)
  : outcome (Z * Z * Z * nat) * world :=
  let k := train_calls w in
  let w' := {| clock := clock w + train_cost sc;
               train_calls := S k;
               pred_calls := pred_calls w;
               imsave_calls := imsave_calls w |} in
  match train_raises sc k with
  | Some e => (Raise e, w')
  | None => (Ret (0, 1000 + Z.of_nat k, 2000 + Z.of_nat k, k), w')
  end.

Definition do_pred (sc : script) (w : world) : outcome (Z * nat) * world :=
  let k := pred_calls w in
  let w' := {| clock := clock w + pred_cost sc;
               train_calls := train_calls w;
               pred_calls := S k;
               imsave_calls := imsave_calls w |} in
  match pred_raises sc k with
  | Some e => (Raise e, w')
  | None => (Ret (3000 + Z.of_nat k, k), w')
  end.

Definition do_imsave (sc : script) (w : world) : outcome unit * world :=
  let k := imsave_calls w in
  let w' := {| clock := clock w;
               train_calls := train_calls w;
               pred_calls := pred_calls w;
               imsave_calls := S k |} in
  match imsave_raises sc k with
  | Some e => (Raise e, w')
  | None => (Ret tt, w')
  end.

(** Scalars are integers, an array is the number of the batch it came
    from, and the parameters are the number of training calls so far. *)
Definition collaborators (sc : script) : Collaborators :=
  {| World := world;
     Array := nat;
     Scalar := Z;
     Params := nat;
     time_time := clock;
     get_dataset := fun _ w => (Ret tt, w);
     require_dir := fun d w => (Ret d, w);
     PCAIterator := fun w => (Ret tt, w);
     get_output_shape := fun w => (Ret tt, w);
     iterate := fun sp w =>
       (Ret match sp with
            | TrainSet => train_batches sc
            | ValSet => val_batches sc
            end, w);
     next_batch := fun _ i w => (Ret (i, i), w);
     crop := fun a => a;
     train_fn := fun _ _ => do_train sc;
     pred_fn := fun _ _ => do_pred sc;
     composite := fun a _ _ => a;
     X_prefix := fun _ a => a;
     imsave := fun _ _ => do_imsave sc;
     layers_dump := fun w => (Ret tt, w);
     get_all_param_values := fun w => (Ret (train_calls w), w);
     pickle_dump := fun _ _ w => (Ret tt, w) |}.

Definition init (sc : script) : state (collaborators sc) :=
  init_state (collaborators sc) start.

Definition run (sc : script) (cfg : config)
  : outcome unit * state (collaborators sc) :=
  run_solver (collaborators sc) cfg (init sc).

End Script.

Module Instant.

(** A world in which no call takes time and none raises; it counts the
    calls.  Every epoch has [n] training batches. *)
Definition collaborators (n : nat) : Collaborators :=
  {| World := nat;
     Array := nat;
     Scalar := Z;
     Params := nat;
     time_time := fun _ => 0;
     get_dataset := fun _ w => (Ret tt, w);
     require_dir := fun d w => (Ret d, w);
     PCAIterator := fun w => (Ret tt, w);
     get_output_shape := fun w => (Ret tt, w);
     iterate := fun sp w =>
       (Ret match sp with TrainSet => n | ValSet => 0%nat end, w);
     next_batch := fun _ i w => (Ret (i, i), S w);
     crop := fun a => a;
     train_fn := fun _ _ w => (Ret (0, 1, 2, w), S w);
     pred_fn := fun _ _ w => (Ret (3, w), S w);
     composite := fun a _ _ => a;
     X_prefix := fun _ a => a;
     imsave := fun _ _ w => (Ret tt, S w);
     layers_dump := fun w => (Ret tt, S w);
     get_all_param_values := fun w => (Ret w, w);
     pickle_dump := fun _ _ w => (Ret tt, w) |}.

End Instant.

Module Jobs.

(** The value of a word of decimal digits. *)
Fixpoint digits (s : string) (acc : Z) : option Z :=
  match s with
  | EmptyString => Some acc
  | String c rest =>
      let d := Z.of_nat (nat_of_ascii c) in
      if (48 <=? d) && (d <=? 57) then digits rest (10 * acc + (d - 48))
      else None
  end.

(** [int(word)] on words of decimal digits; [ValueError] on the others. *)
Definition int (word : string) : outcome Z :=
  match word with
  | EmptyString => Raise Exception
  | _ => match digits word 0 with
         | Some n => Ret n
         | None => Raise Exception
         end
  end.

(** The two entries of [modellist], by name. *)
Definition modellist : list string :=
  ["build_baseline1_small"; "build_lstm_reworked"].

End Jobs.

(** The default parameters of [run_solver] with a fixed start time. *)
Definition cfg0 : config :=
  {| experiment_id := 7;
     timestamp := Some 1000;
     save_batch_freq := 100;
     save_time_freq := 240;
     dataset := "H.E.T.";
     dir_prefix := "run";
     model_id := 7 |}.

(** Five training batches per epoch, instantaneous calls, and a user
    interrupt during the third training call. *)
Definition interrupted_run : Script.script :=
  {| Script.train_batches := 5;
     Script.val_batches := 0;
     Script.train_cost := 0;
     Script.pred_cost := 0;
     Script.train_raises := Script.raises_at 2 KeyboardInterrupt;
     Script.pred_raises := Script.quiet;
     Script.imsave_raises := Script.quiet |}.

(** Two training batches per epoch that take 241 ticks each, so that
    both cadences fire on every batch, three validation batches, and a
    user interrupt during the first prediction call. *)
Definition interrupt_in_validation : Script.script :=
  {| Script.train_batches := 2;
     Script.val_batches := 3;
     Script.train_cost := 241;
     Script.pred_cost := 0;
     Script.train_raises := Script.quiet;
     Script.pred_raises := Script.raises_at 0 KeyboardInterrupt;
     Script.imsave_raises := Script.quiet |}.

(** A validation set of 1000 batches at 10 ticks per prediction call;
    the first training call takes 241 ticks, the second one is
    interrupted by the user, so the run has one validation pass. *)
Definition long_validation : Script.script :=
  {| Script.train_batches := 2;
     Script.val_batches := 1000;
     Script.train_cost := 241;
     Script.pred_cost := 10;
     Script.train_raises := Script.raises_at 1 KeyboardInterrupt;
     Script.pred_raises := Script.quiet;
     Script.imsave_raises := Script.quiet |}.

(** The training snapshot is due on the first batch (241 ticks have
    passed) and its image write fails. *)
Definition failing_snapshot : Script.script :=
  {| Script.train_batches := 1;
     Script.val_batches := 0;
     Script.train_cost := 241;
     Script.pred_cost := 0;
     Script.train_raises := Script.quiet;
     Script.pred_raises := Script.quiet;
     Script.imsave_raises := Script.raises_at 0 Exception |}.

(** As [interrupt_in_validation], with a failing prediction call. *)
Definition failing_validation : Script.script :=
  {| Script.train_batches := 2;
     Script.val_batches := 3;
     Script.train_cost := 241;
     Script.pred_cost := 0;
     Script.train_raises := Script.quiet;
     Script.pred_raises := Script.raises_at 0 Exception;
     Script.imsave_raises := Script.quiet |}.

(** Observations on a trace. *)
Section Observations.

Variables S P : Type.

Definition is_train (e : event S P) : bool :=
  match e with EvTrain _ _ => true | _ => false end.

Definition is_pred (e : event S P) : bool :=
  match e with EvPred => true | _ => false end.

Definition is_imsave (e : event S P) : bool :=
  match e with EvImsave _ => true | _ => false end.

Definition is_checkpoint (e : event S P) : bool :=
  match e with EvCheckpoint _ _ => true | _ => false end.

Definition is_log (m : logmsg) (e : event S P) : bool :=
  match e, m with
  | EvLog LogUserInterrupt, LogUserInterrupt => true
  | EvLog LogUnhandledException, LogUnhandledException => true
  | EvLog LogValidationError, LogValidationError => true
  | EvLog LogStartValidation, LogStartValidation => true
  | EvLog LogFinishedValidation, LogFinishedValidation => true
  | EvLog LogSavingNetwork, LogSavingNetwork => true
  | _, _ => false
  end.

Definition count (p : event S P -> bool) (t : list (event S P)) : nat :=
  length (filter p t).

(** The number of training-function invocations that returned. *)
Definition trainings (t : list (event S P)) : nat := count is_train t.

(** The checkpoint writes of a trace, in order. *)
Fixpoint checkpoints (t : list (event S P)) : list (string * checkpoint S P) :=
  match t with
  | [] => []
  | EvCheckpoint p d :: t' => (p, d) :: checkpoints t'
  | _ :: t' => checkpoints t'
  end.

(** The paths of the images written, in order. *)
Fixpoint images (t : list (event S P)) : list string :=
  match t with
  | [] => []
  | EvImsave p :: t' => p :: images t'
  | _ :: t' => images t'
  end.

End Observations.

Arguments is_train {S P} e.
Arguments is_pred {S P} e.
Arguments is_imsave {S P} e.
Arguments is_checkpoint {S P} e.
Arguments is_log {S P} m e.
Arguments count {S P} p t.
Arguments trainings {S P} t.
Arguments checkpoints {S P} t.
Arguments images {S P} t.

(* ===================================================================== *)
(** ** Assertions on computations *)
(* ===================================================================== *)

(** [triple P m Q R]: started in a state satisfying [P], [m] ends in a
    state satisfying [Q] when it returns and [R] when it raises. *)
Definition triple {S A} (P : S -> Prop) (m : M S A)
           (Q : A -> S -> Prop) (R : exn -> S -> Prop) : Prop :=
  forall s, P s ->
    match m s with
    | (Ret a, s') => Q a s'
    | (Raise e, s') => R e s'
    end.

(** [stable P m]: [m] keeps [P], however it ends. *)
Definition stable {S A} (P : S -> Prop) (m : M S A) : Prop :=
  triple P m (fun _ => P) (fun _ => P).

(* ===================================================================== *)
(** ** Further observations and predicates on states *)
(* ===================================================================== *)

(** The regularization values the training function returned, in order. *)
Fixpoint train_regs {S P : Type} (t : list (event S P)) : list S :=
  match t with
  | [] => []
  | EvTrain _ reg :: t' => reg :: train_regs t'
  | _ :: t' => train_regs t'
  end.

(** The events before the first one that satisfies [p]. *)
Fixpoint before {S P : Type} (p : event S P -> bool)
         (t : list (event S P)) : list (event S P) :=
  match t with
  | [] => []
  | e :: t' => if p e then [] else e :: before p t'
  end.

(** The record [run_solver] pickles when the loop was left in [s] and
    the read-out of line 138 returned [weights]. *)
Definition final_checkpoint (E : Collaborators) (cfg : config)
           (weights : Params E) (s : state E)
  : checkpoint (Scalar E) (Params E) :=
  {| ck_params := weights;
     ck_losses := losses s;
     ck_regularization := regs s;
     ck_model_id := model_id cfg |}.

(** No checkpoint has been written so far. *)
Definition no_checkpoint (E : Collaborators) (s : state E) : Prop :=
  checkpoints (trace s) = [].

(** As many losses as completed training invocations. *)
Definition balanced {E : Collaborators} (s : state E) : Prop :=
  trainings (trace s) = length (losses s).

(** One completed training invocation whose loss is not appended yet. *)
Definition pending {E : Collaborators} (s : state E) : Prop :=
  trainings (trace s) = S (length (losses s)).

(** The two numbers, fixed. *)
Definition metrics_are {E : Collaborators} (n : nat)
           (l : list (pyval (Scalar E))) (s : state E) : Prop :=
  trainings (trace s) = n /\ losses s = l.

(** The losses are complete, or the last one is missing. *)
Definition off_by_at_most_one {E : Collaborators} (s : state E) : Prop :=
  balanced s \/ pending s.

(** Steps that start and end balanced, and raise off by at most one. *)
Definition keeps_count {E : Collaborators} {A} (m : M (state E) A) : Prop :=
  triple balanced m (fun _ => balanced) (fun _ => off_by_at_most_one).

(** Every element of [regs] is a reference to [regs] itself. *)
Definition only_self_references {E : Collaborators} (s : state E) : Prop :=
  Forall (fun v => v = PyRef RegsList) (regs s).

(** A collaborator call during which the clock does not run backwards. *)
Definition clock_monotone (E : Collaborators) {A}
           (f : World E -> outcome A * World E) : Prop :=
  forall w, time_time E w <= time_time E (snd (f w)).

(** The cadence rule as the specification words it, for batch count [b],
    the clock reading [t] and the time [sn] of the last firing. *)
Definition snapshot_fires (cfg : config) (b t sn : Z) : bool :=
  (b mod save_batch_freq cfg =? 0) || (save_time_freq cfg <? t - sn).

(** A collaborator call that returns from every world. *)
Definition returns {W A} (f : W -> outcome A * W) : Prop :=
  forall w, exists a w', f w = (Ret a, w').

(** Collaborators whose training-side calls all return and whose clock
    readings are never more than the time threshold apart. *)
Record fast_and_quiet (E : Collaborators) (cfg : config) : Prop := {
  fq_next : forall i, returns (next_batch E TrainSet i);
  fq_train : forall a b, returns (train_fn E a b);
  fq_imsave : forall p a, returns (imsave E p a);
  fq_dump : returns (layers_dump E);
  fq_clock : forall w w', time_time E w - time_time E w' <= save_time_freq cfg
}.

(** A value some clock reading has. *)
Definition clock_reading (E : Collaborators) (t : Z) : Prop :=
  exists w, t = time_time E w.

(** The batch counts of an epoch of [n] batches on which the count
    trigger is on. *)
Definition count_trigger_batches (cfg : config) (n : nat) : list Z :=
  filter (fun b => b mod save_batch_freq cfg =? 0) (map Z.of_nat (seq 1 n)).

(* ===================================================================== *)
(** ** The dataset code of the entry point *)
(* ===================================================================== *)

(** [c in s] for a character [c]. *)
Fixpoint has_char (c : ascii) (s : string) : bool :=
  match s with
  | EmptyString => false
  | String d rest => Ascii.eqb d c || has_char c rest
  end.

(** A computation that only returns or raises, and its sequencing. *)
Definition outcome_bind {A B} (r : outcome A) (k : A -> outcome B)
  : outcome B :=
  match r with
  | Ret a => k a
  | Raise e => Raise e
  end.

(** [t[i]] on a Python tuple: a negative index counts from the end, and
    an index outside [-len(t) .. len(t) - 1] raises [IndexError]. *)
Definition py_index {A} (t : list A) (i : Z) : outcome A :=
  let n := Z.of_nat (length t) in
  let j := if i <? 0 then i + n else i in
  if (0 <=? j) && (j <? n) then
    match nth_error t (Z.to_nat j) with
    | Some a => Ret a
    | None => Raise Exception
    end
  else Raise Exception.

(** What [argparse] stores for an option declared with [type=int,
    nargs=1, default=1] (lines 164 to 169): the default itself, the int
    [1], when the option is absent, and a list of one int when it is
    given. *)
Inductive flag : Type :=
| Absent
| Given (n : Z).

(** Line 173: [mapping = ('-', '.', '+')]. *)
Definition mapping : list ascii := ["-"; "."; "+"]%char.

(** [mapping[i[0]]] of line 174; subscripting the int of an absent option
    raises [TypeError]. *)
Definition flag_char (i : flag) : outcome ascii :=
  match i with
  | Absent => Raise Exception
  | Given n => py_index mapping n
  end.

(** Line 174: the format ["H{}E{}T{}"] filled with [mapping[i[0]]] for [i]
    in [args.hematoxylin], [args.eosin] and [args.thickness], in this
    order. *)
Definition dataset_code (hematoxylin eosin thickness : flag)
  : outcome string :=
  outcome_bind (flag_char hematoxylin) (fun h =>
  outcome_bind (flag_char eosin) (fun e =>
  outcome_bind (flag_char thickness) (fun t =>
  Ret (String "H" (String h (String "E" (String e
        (String "T" (String t EmptyString))))))))).

(** The character of [mapping] an in-range index selects. *)
Definition stain_char (n : Z) : ascii :=
  if n mod 3 =? 0 then "-" else if n mod 3 =? 1 then "." else "+".

(** An index [mapping] accepts. *)
Definition in_mapping (n : Z) : Prop := -3 <= n < 3.

(* ===================================================================== *)
(** ** Further observations on runs *)
(* ===================================================================== *)

(** The losses the training function returned, in order. *)
Fixpoint train_losses {S P : Type} (t : list (event S P)) : list S :=
  match t with
  | [] => []
  | EvTrain loss _ :: t' => loss :: train_losses t'
  | _ :: t' => train_losses t'
  end.

(** The losses list holds the floats the training function returned, in
    the order of the calls. *)
Definition losses_recorded {E : Collaborators} (s : state E) : Prop :=
  losses s = map PyFloat (train_losses (trace s)).

(** As [losses_recorded], but for the loss [x] of the last call, which
    is not appended yet. *)
Definition loss_pending {E : Collaborators} (x : Scalar E) (s : state E)
  : Prop :=
  (losses s ++ [PyFloat x])%list = map PyFloat (train_losses (trace s)).

(** The losses list holds the returned losses, but for the last one at
    most. *)
Definition losses_recorded_but_last {E : Collaborators} (s : state E)
  : Prop :=
  losses_recorded s \/ exists x, loss_pending x s.

(** The two lists have one length and [regs] only holds references to
    itself. *)
Definition regs_mirror_losses {E : Collaborators} (s : state E) : Prop :=
  length (regs s) = length (losses s)
  /\ Forall (fun v => v = PyRef RegsList) (regs s).

(** A training set that is empty in every pass. *)
Definition empty_training_set (E : Collaborators) : Prop :=
  forall w, exists w', iterate E TrainSet w = (Ret 0%nat, w').

(** A training set of [n] batches in every pass. *)
Definition training_batches (E : Collaborators) (n : nat) : Prop :=
  forall w, exists w', iterate E TrainSet w = (Ret n, w').

(** A training set that is not empty in any pass. *)
Definition nonempty_training_set (E : Collaborators) : Prop :=
  forall w, exists n w', iterate E TrainSet w = (Ret (S n), w').

(** The calls of the training side of the loop (batch fetch, training
    function, write of a training snapshot image, layer statistics) all
    return.  Nothing is asked of the writes of validation images. *)
Record training_side_returns (E : Collaborators) (cfg : config)
       (savedir : string) : Prop := {
  tr_next : forall i, returns (next_batch E TrainSet i);
  tr_train : forall a b, returns (train_fn E a b);
  tr_imsave :
    forall epoch b a, returns (imsave E (model_png cfg savedir epoch b) a);
  tr_dump : returns (layers_dump E)
}.

(** The parameter read-out of line 138 and the file write of lines 141
    and 142 return. *)
Record checkpoint_write_returns (E : Collaborators) : Prop := {
  cw_read : returns (get_all_param_values E);
  cw_dump : forall p d, returns (pickle_dump E p d)
}.

(** The clock does not run backwards during the calls of a validation
    pass. *)
Record validation_clock_monotone (E : Collaborators) : Prop := {
  vm_iterate : clock_monotone E (iterate E ValSet);
  vm_next : forall k, clock_monotone E (next_batch E ValSet k);
  vm_pred : forall a b, clock_monotone E (pred_fn E a b);
  vm_imsave : forall p a, clock_monotone E (imsave E p a)
}.

(** No more prediction calls than validation passes. *)
Definition one_prediction_per_pass {E : Collaborators} (s : state E) : Prop :=
  (count is_pred (trace s)
   <= count (is_log LogStartValidation) (trace s))%nat.

(** Nothing but log records has happened. *)
Definition only_logged {E : Collaborators} (s : state E) : Prop :=
  trainings (trace s) = 0%nat /\ count is_pred (trace s) = 0%nat
  /\ images (trace s) = [] /\ checkpoints (trace s) = []
  /\ losses s = [] /\ regs s = [].

(** Two states with the same trace and the same two lists. *)
Definition same_records {E : Collaborators} (s s' : state E) : Prop :=
  trace s' = trace s /\ losses s' = losses s /\ regs s' = regs s.

(* ===================================================================== *)
(** ** Observations on the job loop *)
(* ===================================================================== *)

(** The identifiers of the jobs a log shows as started, in order. *)
Fixpoint started_ids (l : list main_logmsg) : list Z :=
  match l with
  | [] => []
  | LogStartProcessing model_id :: l' => model_id :: started_ids l'
  | _ :: l' => started_ids l'
  end.

(** The identifiers a log warns about, in order. *)
Fixpoint warned_ids (l : list main_logmsg) : list Z :=
  match l with
  | [] => []
  | LogInvalidModelId model_id :: l' => model_id :: warned_ids l'
  | _ :: l' => warned_ids l'
  end.

Definition is_done (m : main_logmsg) : bool :=
  match m with LogDone => true | _ => false end.

Section JobLists.

Variable Builder : Type.
Variable int : string -> outcome Z.
Variable modellist : list Builder.

(** The 0-based identifiers of the words of a job list that are in
    range, and of those that are not, in the order of the list. *)
Fixpoint valid_ids (joblist : list string) : list Z :=
  match joblist with
  | [] => []
  | word :: rest =>
      match int word with
      | Ret n =>
          if invalid_id Builder modellist (n - 1) then valid_ids rest
          else (n - 1) :: valid_ids rest
      | Raise _ => valid_ids rest
      end
  end.

Fixpoint invalid_ids (joblist : list string) : list Z :=
  match joblist with
  | [] => []
  | word :: rest =>
      match int word with
      | Ret n =>
          if invalid_id Builder modellist (n - 1)
          then (n - 1) :: invalid_ids rest
          else invalid_ids rest
      | Raise _ => invalid_ids rest
      end
  end.

End JobLists.

(* ===================================================================== *)
(** ** One job of the script: lines 194 to 201 *)
(* ===================================================================== *)

(** The module neither defines nor imports the two builders of lines
    182 and 183 and the name [compile] of line 198.  The job loop takes
    [modellist] as a given list, that is, it starts where line 182 has
    been evaluated; [compile] is a call that returns or raises, whatever
    the name is bound to. *)

(** The parameters of a Python function, in order; the first [required]
    of them have no default. *)
Record signature : Type := {
  params : list string;
  required : nat
}.

Definition mem_string (k : string) (l : list string) : bool :=
  existsb (String.eqb k) l.

(** Python's binding of a call with [positional] positional arguments
    and the keyword arguments [keywords] to a signature without star
    parameters. It raises [TypeError] for too many positional arguments,
    for a keyword that is no parameter, for a parameter given both by
    position and by keyword, and for a required parameter that is given
    by neither. *)
Definition bind_arguments (f : signature) (positional : nat)
           (keywords : list string) : outcome unit :=
  if (length (params f) <? positional)%nat then Raise Exception
  else if existsb (fun k => negb (mem_string k (params f))) keywords
  then Raise Exception
  else if existsb (fun k => mem_string k (firstn positional (params f)))
            keywords
  then Raise Exception
  else if existsb (fun p => negb (mem_string p keywords))
            (skipn positional (firstn (required f) (params f)))
  then Raise Exception
  else Ret tt.

(** Lines 45 to 47: [def run_solver(model, experiment_id, timestamp=None,
    save_batch_freq=100, save_time_freq=240, dataset=..., dir_prefix=...)]. *)
Definition run_solver_signature : signature :=
  {| params := ["model"; "experiment_id"; "timestamp"; "save_batch_freq";
                "save_time_freq"; "dataset"; "dir_prefix"];
     required := 2 |}.

Section ScriptJob.

(** The outside world of one job: reading the hyperparameter file,
    building and compiling the graph, the two log records of lines 197
    and 199, and the body of the solver, should the call of line 201
    reach it. *)
Variable W : Type.
Variable Builder : Type.
Variable Hyper : Type.
Variable Net : Type.
Variable load_config : W -> outcome Hyper * W.
Variable compile : Builder -> Hyper -> W -> outcome Net * W.
Variable job_info : string -> W -> W.
Variable solver_body : Net -> Z -> W -> outcome unit * W.

(** Lines 196 to 201. The call of line 201 has four positional arguments
    ([train_fn, network, layers, model_id]) and the keywords
    [timestamp], [dataset] and [dir_prefix]. *)
Definition script_job (get_model : Builder) (model_id : Z) : M W unit :=
  hyperparams <- load_config ;;
  modify (job_info "Building graph.") ;;
  net <- compile get_model hyperparams ;;
  modify (job_info "Start with training") ;;
  match bind_arguments run_solver_signature 4
          ["timestamp"; "dataset"; "dir_prefix"] with
  | Raise e => raise e
  | Ret _ => solver_body net model_id
  end.

End ScriptJob.

(* ===================================================================== *)
(** ** Further concrete worlds *)
(* ===================================================================== *)

Module NoDataset.

(** The instantaneous world of [Instant] with a dataset that cannot be
    loaded. *)
Definition collaborators : Collaborators :=
  {| World := nat;
     Array := nat;
     Scalar := Z;
     Params := nat;
     time_time := fun _ => 0;
     get_dataset := fun _ w => (Raise Exception, w);
     require_dir := fun d w => (Ret d, w);
     PCAIterator := fun w => (Ret tt, w);
     get_output_shape := fun w => (Ret tt, w);
     iterate := fun sp w => (Ret 1%nat, w);
     next_batch := fun _ i w => (Ret (i, i), S w);
     crop := fun a => a;
     train_fn := fun _ _ w => (Ret (0, 1, 2, w), S w);
     pred_fn := fun _ _ w => (Ret (3, w), S w);
     composite := fun a _ _ => a;
     X_prefix := fun _ a => a;
     imsave := fun _ _ w => (Ret tt, S w);
     layers_dump := fun w => (Ret tt, S w);
     get_all_param_values := fun w => (Ret w, w);
     pickle_dump := fun _ _ w => (Ret tt, w) |}.

End NoDataset.

Module Disk.

(** A world that counts its calls, with a clock that goes on by 1000
    ticks per call, so that both cadences fire on every batch.  Every
    epoch has [n] training batches and the validation set has three.
    An image is written when [writable] accepts its path, and the
    checkpoint file when [dumps] says so. *)
Definition collaborators (n : nat) (writable : string -> bool)
           (dumps : bool) : Collaborators :=
  {| World := nat;
     Array := nat;
     Scalar := Z;
     Params := nat;
     time_time := fun w => 1000 * Z.of_nat w;
     get_dataset := fun _ w => (Ret tt, w);
     require_dir := fun d w => (Ret d, w);
     PCAIterator := fun w => (Ret tt, w);
     get_output_shape := fun w => (Ret tt, w);
     iterate := fun sp w =>
       (Ret match sp with TrainSet => n | ValSet => 3%nat end, w);
     next_batch := fun _ i w => (Ret (i, i), S w);
     crop := fun a => a;
     train_fn := fun _ _ w => (Ret (0, 1, 2, w), S w);
     pred_fn := fun _ _ w => (Ret (3, w), S w);
     composite := fun a _ _ => a;
     X_prefix := fun _ a => a;
     imsave := fun p _ w =>
       (if writable p then Ret tt else Raise Exception, S w);
     layers_dump := fun w => (Ret tt, S w);
     get_all_param_values := fun w => (Ret w, S w);
     pickle_dump := fun _ _ w =>
       (if dumps then Ret tt else Raise Exception, S w) |}.

(** Paths without the letter [v]: the training snapshots of a save
    directory without it, and none of its validation images. *)
Definition no_validation_images (p : string) : bool :=
  negb (has_char "v" p).

End Disk.

Module JobRun.

(** A world for the jobs of the script in which the hyperparameter file
    loads and the graph compiles; it keeps the records logged inside a
    job and notes when the body of the solver is entered. *)
Definition world : Type := list string.

Definition load_config (w : world) : outcome unit * world := (Ret tt, w).

Definition compile (get_model : string) (hyperparams : unit) (w : world)
  : outcome unit * world := (Ret tt, w).

Definition job_info (m : string) (w : world) : world := (w ++ [m])%list.

Definition solver_body (net : unit) (model_id : Z) (w : world)
  : outcome unit * world := (Ret tt, (w ++ ["run_solver"])%list).

Definition start : main_state world := {| m_world := []; m_log := [] |}.

Definition run (joblist : list string) : outcome unit * main_state world :=
  main world string Jobs.int
    (script_job world string unit unit load_config compile job_info
       solver_body)
    Jobs.modellist joblist start.

End JobRun.

(** Five training batches per epoch; the second training call ends the
    interpreter ([SystemExit]). *)
Definition exit_in_training : Script.script :=
  {| Script.train_batches := 5;
     Script.val_batches := 0;
     Script.train_cost := 0;
     Script.pred_cost := 0;
     Script.train_raises := Script.raises_at 1 SystemExit;
     Script.pred_raises := Script.quiet;
     Script.imsave_raises := Script.quiet |}.

(** The parameters of [cfg0] with [save_batch_freq=0]. *)
Definition cfg_zero_freq : config :=
  {| experiment_id := 7;
     timestamp := Some 1000;
     save_batch_freq := 0;
     save_time_freq := 240;
     dataset := "H.E.T.";
     dir_prefix := "run";
     model_id := 7 |}.

(* ===================================================================== *)
(** ** The image files of a run *)
(* ===================================================================== *)

(** An image file is known by its kind (validation or training
    snapshot), its epoch and its batch counter. *)
Definition image_key : Type := (bool * Z * Z)%type.

Definition key_path (cfg : config) (savedir : string) (k : image_key)
  : string :=
  let '(validation, epoch, b) := k in
  if validation then val_model_png cfg savedir epoch b
  else model_png cfg savedir epoch b.

(** The keys an epoch can have used so far, with the batch counter [b]
    and the validation counter [vb]: the training snapshots up to [b]
    (or below it, between the training call and the snapshot), the
    validation images below [vb], and all those of earlier epochs. *)
Definition key_bound (epoch b vb : Z) (strict : bool) (k : image_key)
  : Prop :=
  let '(validation, e, i) := k in
  e < epoch
  \/ (e = epoch
      /\ if validation then i < vb
         else if strict then i < b else i <= b).

(** The images written are those of pairwise different keys. *)
Definition images_keyed {E : Collaborators} (cfg : config)
           (savedir : string) (s : state E) : Prop :=
  exists keys,
    images (trace s) = map (key_path cfg savedir) keys /\ NoDup keys.

Definition images_within {E : Collaborators} (cfg : config)
           (savedir : string) (epoch : Z) (strict : bool) (s : state E)
  : Prop :=
  exists keys,
    images (trace s) = map (key_path cfg savedir) keys
    /\ NoDup keys
    /\ Forall (key_bound epoch (batch s) (val_batch s) strict) keys.

(** The characters of [str(n)]. *)
Definition digit_or_minus (c : ascii) : bool :=
  existsb (Ascii.eqb c)
    ["0"; "1"; "2"; "3"; "4"; "5"; "6"; "7"; "8"; "9"; "-"]%char.

(** The images written are those of pairwise different keys of epochs
    before [epoch]. *)
Definition images_before {E : Collaborators} (cfg : config)
           (savedir : string) (epoch : Z) (s : state E) : Prop :=
  exists keys,
    images (trace s) = map (key_path cfg savedir) keys
    /\ NoDup keys
    /\ Forall (fun k : image_key => snd (fst k) < epoch) keys.

(** At most [k] training calls have returned. *)
Definition trained_at_most {E : Collaborators} (k : nat) (s : state E)
  : Prop :=
  (trainings (trace s) <= k)%nat.

(** No pass over the training set has more than [n] batches. *)
Definition training_batches_at_most (E : Collaborators) (n : nat) : Prop :=
  forall w m w', iterate E TrainSet w = (Ret m, w') -> (m <= n)%nat.

(* ===================================================================== *)
(** ** The network dump in detail: lines 34 to 43 *)
(* ===================================================================== *)

Module Netdump.

(** [" " * k]: the empty string for [k <= 0]. *)
Fixpoint spaces_nat (n : nat) : string :=
  match n with
  | O => EmptyString
  | S n' => String " " (spaces_nat n')
  end.

Definition spaces (k : Z) : string := spaces_nat (Z.to_nat k).

Definition len (s : string) : Z := Z.of_nat (String.length s).

Section Dump.

(** The layers and their parameters.  Reading a layer's output shape
    and a parameter's value can fail, and so can the statistics of a
    value (numpy refuses the minimum of an empty array); the shape and
    the four statistics come as the text the format puts into the line
    ([{}] for the shape, [{:.2f}] for a number). *)
Variables Layer Param Value : Type.
Variable get_output_shape : Layer -> outcome string.
Variable params : Layer -> list Param.
Variable str_param : Param -> string.
Variable get_value : Param -> outcome Value.
Variable stats : Value -> outcome (string * string * string * string).

(** Line 38: ["{}{}{}".format(key, " " * (20 - len(key)), shape)]. *)
Definition layer_line (key shape : string) : string :=
  key ++ spaces (20 - len key) ++ shape.

(** Lines 41 and 42: ["{}{}{}{:.2f} {:.2f} {:.2f} {:.2f}".format(" " * 30,
    str(param), " " * (10 - len(str(param))), ...)]. *)
Definition param_line (name : string)
           (st : string * string * string * string) : string :=
  let '(p_min, p_mean, p_max, p_sumsq) := st in
  spaces 30 ++ name ++ spaces (10 - len name)
  ++ p_min ++ " " ++ p_mean ++ " " ++ p_max ++ " " ++ p_sumsq.

(** The state is the list of the records logged so far. *)
Definition info (line : string) : M (list string) unit :=
  modify (fun l => (l ++ [line])%list).

Definition eval {A} (r : outcome A) : M (list string) A :=
  fun l => (r, l).

(** Lines 39 to 43: [for param in layers[key].params]. *)
Fixpoint dump_params (ps : list Param) : M (list string) unit :=
  match ps with
  | [] => ret tt
  | param :: rest =>
      p <- eval (get_value param) ;;
      st <- eval (stats p) ;;
      info (param_line (str_param param) st) ;;
      dump_params rest
  end.

(** Lines 37 to 43: [for key in layers.keys()]; the dictionary is given
    by its items in the order of its keys. *)
Fixpoint dump_layers (layers : list (string * Layer))
  : M (list string) unit :=
  match layers with
  | [] => ret tt
  | (key, layer) :: rest =>
      shape <- eval (get_output_shape layer) ;;
      info (layer_line key shape) ;;
      dump_params (params layer) ;;
      dump_layers rest
  end.

(** Lines 34 to 43. *)
Definition netdump (layers : list (string * Layer)) : M (list string) unit :=
  info "Network Dump" ;;
  dump_layers layers.

(** The number of records of a complete dump of [layers], its heading
    apart. *)
Fixpoint dump_size (layers : list (string * Layer)) : nat :=
  match layers with
  | [] => 0
  | (_, layer) :: rest => S (length (params layer) + dump_size rest)
  end.

End Dump.

End Netdump.

(* ===================================================================== *)
(** ** A program logic for the monad *)
(* ===================================================================== *)

Section Logic.

Context {S : Type}.
Implicit Types P : S -> Prop.

Lemma triple_ret {A} P (a : A) Q R :
  (forall s, P s -> Q a s) -> triple P (ret a) Q R.
Proof. intros H s Hs. simpl. auto. Qed.

Lemma triple_raise {A} P e (Q : A -> S -> Prop) R :
  (forall s, P s -> R e s) -> triple P (raise e) Q R.
Proof. intros H s Hs. simpl. auto. Qed.

Lemma triple_gets {A} P (f : S -> A) Q R :
  (forall s, P s -> Q (f s) s) -> triple P (gets f) Q R.
Proof. intros H s Hs. simpl. auto. Qed.

Lemma triple_modify P (f : S -> S) Q R :
  (forall s, P s -> Q tt (f s)) -> triple P (modify f) Q R.
Proof. intros H s Hs. simpl. auto. Qed.

Lemma triple_bind {A B} P (m : M S A) (k : A -> M S B) Q' Q R :
  triple P m Q' R ->
  (forall a, triple (Q' a) (k a) Q R) ->
  triple P (bind m k) Q R.
Proof.
  intros Hm Hk s Hs. unfold bind.
  specialize (Hm s Hs). destruct (m s) as [[a | e] s']; auto.
  apply Hk; assumption.
Qed.

Lemma triple_try {A} P (body : M S A) catches handler Q R' R :
  triple P body Q R' ->
  (forall e, catches e = true -> triple (R' e) (handler e) Q R) ->
  (forall e s, catches e = false -> R' e s -> R e s) ->
  triple P (try_except body catches handler) Q R.
Proof.
  intros Hb Hh Hp s Hs. unfold try_except.
  specialize (Hb s Hs). destruct (body s) as [[a | e] s']; auto.
  destruct (catches e) eqn:Hc.
  - apply Hh; assumption.
  - apply Hp; assumption.
Qed.

Lemma triple_weaken {A} P P' (m : M S A) Q Q' R R' :
  triple P' m Q' R' ->
  (forall s, P s -> P' s) ->
  (forall a s, Q' a s -> Q a s) ->
  (forall e s, R' e s -> R e s) ->
  triple P m Q R.
Proof.
  intros Hm HP HQ HR s Hs. specialize (Hm s (HP s Hs)).
  destruct (m s) as [[a | e] s']; auto.
Qed.

Lemma triple_py_mod P a b Q R :
  (b = 0 -> forall s, P s -> R Exception s) ->
  (b <> 0 -> forall s, P s -> Q (a mod b) s) ->
  triple P (py_mod a b) Q R.
Proof.
  intros H0 H1 s Hs. unfold py_mod.
  destruct (Z.eqb_spec b 0); simpl; auto.
Qed.

Lemma stable_ret {A} P (a : A) : stable P (ret a).
Proof. apply triple_ret; auto. Qed.

Lemma stable_raise {A} P e : stable P (@raise S A e).
Proof. apply triple_raise; auto. Qed.

Lemma stable_gets {A} P (f : S -> A) : stable P (gets f).
Proof. apply triple_gets; auto. Qed.

Lemma stable_modify P (f : S -> S) :
  (forall s, P s -> P (f s)) -> stable P (modify f).
Proof. intros; apply triple_modify; auto. Qed.

Lemma stable_bind {A B} P (m : M S A) (k : A -> M S B) :
  stable P m -> (forall a, stable P (k a)) -> stable P (bind m k).
Proof. intros Hm Hk. eapply triple_bind; [exact Hm | exact Hk]. Qed.

Lemma stable_try {A} P (body : M S A) catches handler :
  stable P body -> (forall e, stable P (handler e)) ->
  stable P (try_except body catches handler).
Proof.
  intros Hb Hh. eapply triple_try; [exact Hb | intros; apply Hh | auto].
Qed.

Lemma stable_py_mod P a b : stable P (py_mod a b).
Proof. apply triple_py_mod; auto. Qed.

Lemma stable_if {A} P (c : bool) (m1 m2 : M S A) :
  stable P m1 -> stable P m2 -> stable P (if c then m1 else m2).
Proof. destruct c; auto. Qed.

(** What [stable] says about one run. *)
Lemma stable_run {A} P (m : M S A) s :
  stable P m -> P s -> P (snd (m s)).
Proof.
  intros Hm Hs. specialize (Hm s Hs).
  destruct (m s) as [[a | e] s']; exact Hm.
Qed.

End Logic.

(** Facts on traces. *)
Section TraceFacts.

Variables S P : Type.

Lemma count_snoc (p : event S P -> bool) t e :
  count p (t ++ [e])%list = (count p t + (if p e then 1 else 0))%nat.
Proof.
  unfold count. rewrite filter_app, length_app. simpl.
  destruct (p e); reflexivity.
Qed.

Lemma checkpoints_app (t u : list (event S P)) :
  checkpoints (t ++ u)%list = (checkpoints t ++ checkpoints u)%list.
Proof.
  induction t as [| e t IH]; simpl; [reflexivity |].
  destruct e; simpl; rewrite IH; reflexivity.
Qed.

Lemma checkpoints_snoc (t : list (event S P)) e :
  is_checkpoint e = false ->
  checkpoints (t ++ [e])%list = checkpoints t.
Proof.
  intros He. rewrite checkpoints_app.
  destruct e; simpl in *; try discriminate; apply app_nil_r.
Qed.

Lemma images_app (t u : list (event S P)) :
  images (t ++ u)%list = (images t ++ images u)%list.
Proof.
  induction t as [| e t IH]; simpl; [reflexivity |].
  destruct e; simpl; rewrite IH; reflexivity.
Qed.

End TraceFacts.

(** ** Properties every part of the solver keeps *)

Section Stability.

Variable E : Collaborators.
Variable cfg : config.
Variable savedir : string.
Variable P : state E -> Prop.

Hypothesis P_world : forall w s, P s -> P (set_world E w s).
Hypothesis P_log : forall m s, P s -> P (add_event E (EvLog m) s).
Hypothesis P_imsave : forall p s, P s -> P (add_event E (EvImsave p) s).
Hypothesis P_netdump : forall s, P s -> P (add_event E EvNetdump s).
Hypothesis P_pred : forall s, P s -> P (add_event E EvPred s).
Hypothesis P_train : forall l r s, P s -> P (add_event E (EvTrain l r) s).
Hypothesis P_snap : forall t s, P s -> P (set_snap E t s).
Hypothesis P_val_snap : forall t s, P s -> P (set_val_snap E t s).
Hypothesis P_batch : forall b s, P s -> P (set_batch E b s).
Hypothesis P_val_batch : forall b s, P s -> P (set_val_batch E b s).
Hypothesis P_losses :
  forall x s, P s -> P (list_append E LossesList (PyFloat x) s).
Hypothesis P_regs :
  forall s, P s -> P (list_append E RegsList (PyRef RegsList) s).

Lemma stable_call {A} (f : World E -> outcome A * World E) :
  stable P (call E f).
Proof.
  intros s Hs. unfold call.
  destruct (f (world s)) as [[a | e] w]; apply P_world; exact Hs.
Qed.

Lemma stable_log m : stable P (log E m).
Proof. apply stable_modify. intros; apply P_log; assumption. Qed.

Lemma stable_now : stable P (now E).
Proof. apply stable_gets. Qed.

Ltac stable_step :=
  first
    [ apply stable_ret
    | apply stable_gets
    | apply stable_now
    | apply stable_log
    | apply stable_call
    | apply stable_py_mod
    | apply stable_modify; solve [auto]
    | apply stable_if
    | apply stable_bind; [| intros]
    | match goal with
      | |- stable _ (match ?x with (_, _) => _ end) => destruct x
      end ].

Lemma netdump_stable : stable P (netdump E).
Proof. unfold netdump, emit. repeat stable_step. Qed.

Lemma snapshot_due_stable : stable P (snapshot_due E cfg).
Proof. unfold snapshot_due. repeat stable_step. Qed.

Lemma training_output_stable epoch inputs targets pred :
  stable P (training_output E cfg savedir epoch inputs targets pred).
Proof.
  unfold training_output, emit.
  apply stable_bind; [apply snapshot_due_stable | intros due].
  apply stable_if; [| apply stable_ret].
  repeat first [apply netdump_stable | stable_step].
Qed.

Lemma validation_loop_stable epoch todo :
  forall i, stable P (validation_loop E cfg savedir epoch todo i).
Proof.
  induction todo as [| todo IH]; intros i; simpl.
  - apply stable_ret.
  - unfold emit. repeat first [apply IH | stable_step].
Qed.

Lemma validation_pass_stable epoch :
  stable P (validation_pass E cfg savedir epoch).
Proof.
  unfold validation_pass.
  repeat first [apply validation_loop_stable | stable_step].
Qed.

Lemma validation_try_stable epoch :
  stable P (validation_try E cfg savedir epoch).
Proof.
  unfold validation_try. apply stable_try.
  - apply validation_pass_stable.
  - intros e. apply stable_log.
Qed.

Lemma validation_output_stable epoch :
  stable P (validation_output E cfg savedir epoch).
Proof.
  unfold validation_output.
  repeat first [apply validation_try_stable | stable_step].
Qed.

Lemma training_step_stable inputs targets :
  stable P (training_step E inputs targets).
Proof. unfold training_step, emit. repeat stable_step. Qed.

Lemma record_metrics_stable loss : stable P (record_metrics E loss).
Proof. unfold record_metrics. repeat stable_step. Qed.

Lemma train_and_record_stable epoch inputs targets :
  stable P (train_and_record E cfg savedir epoch inputs targets).
Proof.
  unfold train_and_record.
  apply stable_bind;
    [apply training_step_stable | intros [[[error loss] reg] pred]].
  apply stable_bind; [apply training_output_stable | intros _].
  apply record_metrics_stable.
Qed.

Lemma batch_body_stable epoch inputs targets :
  stable P (batch_body E cfg savedir epoch inputs targets).
Proof.
  unfold batch_body.
  apply stable_bind; [apply train_and_record_stable | intros _].
  apply validation_output_stable.
Qed.

Lemma train_loop_stable epoch todo :
  forall i, stable P (train_loop E cfg savedir epoch todo i).
Proof.
  induction todo as [| todo IH]; intros i; simpl.
  - apply stable_ret.
  - repeat first [apply IH | apply batch_body_stable | stable_step].
Qed.

Lemma epoch_body_stable epoch :
  stable P (epoch_body E cfg savedir epoch).
Proof.
  unfold epoch_body. repeat first [apply train_loop_stable | stable_step].
Qed.

Lemma epochs_stable todo :
  forall epoch, stable P (epochs E cfg savedir todo epoch).
Proof.
  induction todo as [| todo IH]; intros epoch; simpl.
  - apply stable_ret.
  - apply stable_bind; [apply epoch_body_stable | intros _; apply IH].
Qed.

Lemma training_stable : stable P (training E cfg savedir).
Proof.
  unfold training. repeat first [apply epochs_stable | stable_step].
Qed.

Lemma guarded_training_stable : stable P (guarded_training E cfg savedir).
Proof.
  unfold guarded_training. apply stable_try.
  - apply training_stable.
  - intros []; apply stable_log.
Qed.

Lemma setup_stable : stable P (setup E cfg).
Proof.
  unfold setup. apply stable_bind.
  - destruct (timestamp cfg); [apply stable_ret | apply stable_now].
  - intros ts. repeat stable_step.
Qed.

End Stability.

(* ===================================================================== *)
(** ** The save directory *)
(* ===================================================================== *)

Lemma sanitize_char_replace c :
  (if Ascii.eqb
        (if Ascii.eqb (if Ascii.eqb c "+" then "p" else c) "-"
         then "m" else (if Ascii.eqb c "+" then "p" else c))
        "."
   then "o"
   else (if Ascii.eqb (if Ascii.eqb c "+" then "p" else c) "-"
         then "m" else (if Ascii.eqb c "+" then "p" else c)))%char
  = sanitize_char c.
Proof.
  unfold sanitize_char.
  destruct (Ascii.eqb_spec c "+") as [-> | H1]; [reflexivity |].
  destruct (Ascii.eqb_spec c "-") as [-> | H2]; [reflexivity |].
  destruct (Ascii.eqb_spec c ".") as [-> | H3]; reflexivity.
Qed.

Lemma regularize_name_sanitize s : regularize_name s = sanitize_spec s.
Proof.
  unfold regularize_name.
  induction s as [| c s IH]; simpl; [reflexivity |].
  rewrite IH, sanitize_char_replace. reflexivity.
Qed.

(** C8: the save directory name is [<prefix>_<code'>_<timestamp>], where
    [code'] is the dataset code with every [+] replaced by [p], every [-]
    by [m] and every [.] by [o]; dataset code [H.E+T-] with prefix [run]
    and timestamp [1000] gives [run_HoEpTm_1000]. *)
Theorem savedir_name_sanitized :
  (forall dir_prefix dataset timestamp,
      savedir_name dir_prefix dataset timestamp
      = dir_prefix ++ "_" ++ sanitize_spec dataset ++ "_"
        ++ PyStr.str timestamp)
  /\ savedir_name "run" "H.E+T-" 1000 = "run_HoEpTm_1000".
Proof.
  split.
  - intros. unfold savedir_name. rewrite regularize_name_sanitize.
    reflexivity.
  - reflexivity.
Qed.

(* ===================================================================== *)
(** ** The checkpoint *)
(* ===================================================================== *)

Section Checkpoint.

Variable E : Collaborators.
Variable cfg : config.

Lemma no_checkpoint_event e s :
  is_checkpoint e = false -> no_checkpoint E s -> no_checkpoint E (add_event E e s).
Proof.
  unfold no_checkpoint. intros He Hs. simpl.
  rewrite checkpoints_snoc by assumption. exact Hs.
Qed.

Lemma setup_no_checkpoint : stable (no_checkpoint E) (setup E cfg).
Proof.
  apply setup_stable; intros; try assumption.
  apply no_checkpoint_event; [reflexivity | assumption].
Qed.

Lemma training_no_checkpoint savedir :
  stable (no_checkpoint E) (training E cfg savedir).
Proof.
  apply training_stable; intros;
    try (apply no_checkpoint_event; [reflexivity | assumption]);
    try assumption.
Qed.

(** The three ends of the finalization: the read-out raises, the file
    write raises, or both return and the checkpoint is written. *)
Lemma finalization_cases savedir (s : state E) :
  finalization E cfg savedir s
  = match get_all_param_values E (world s) with
    | (Raise e, w1) =>
        (Raise e, set_world E w1 (add_event E (EvLog LogSavingNetwork) s))
    | (Ret weights, w1) =>
        match pickle_dump E (checkpoint_npz cfg savedir)
                (final_checkpoint E cfg weights s) w1 with
        | (Raise e, w2) =>
            (Raise e,
             set_world E w2 (add_event E (EvLog LogSavingNetwork) s))
        | (Ret _, w2) =>
            (Ret tt,
             add_event E (EvLog LogSavedWeights)
               (add_event E (EvCheckpoint (checkpoint_npz cfg savedir)
                               (final_checkpoint E cfg weights s))
                  (set_world E w2
                     (add_event E (EvLog LogSavingNetwork) s))))
        end
    end.
Proof.
  unfold finalization, bind, log, emit, modify, gets. unfold call at 1.
  simpl.
  destruct (get_all_param_values E (world s)) as [[weights | e] w1];
    [| reflexivity].
  unfold call. simpl.
  destruct (pickle_dump E (checkpoint_npz cfg savedir) _ w1)
    as [[[] | e] w2]; reflexivity.
Qed.

(** The finalization when the read-out and the file write return. *)
Lemma finalization_run savedir (s : state E) weights w1 w2 :
  get_all_param_values E (world s) = (Ret weights, w1) ->
  pickle_dump E (checkpoint_npz cfg savedir)
    (final_checkpoint E cfg weights s) w1 = (Ret tt, w2) ->
  finalization E cfg savedir s
  = (Ret tt,
     add_event E (EvLog LogSavedWeights)
       (add_event E (EvCheckpoint (checkpoint_npz cfg savedir)
                       (final_checkpoint E cfg weights s))
          (set_world E w2 (add_event E (EvLog LogSavingNetwork) s)))).
Proof.
  intros Hread Hdump. rewrite finalization_cases, Hread, Hdump. reflexivity.
Qed.

(** The finalization when the read-out or the file write raises. *)
Lemma finalization_fails savedir (s : state E) e :
  fst (finalization E cfg savedir s) = Raise e ->
  checkpoints (trace (snd (finalization E cfg savedir s)))
  = checkpoints (trace s).
Proof.
  rewrite finalization_cases.
  destruct (get_all_param_values E (world s)) as [[weights | x] w1].
  - destruct (pickle_dump E _ _ w1) as [[[] | x] w2]; simpl;
      [discriminate |].
    intros _. rewrite checkpoints_app. apply app_nil_r.
  - simpl. intros _. rewrite checkpoints_app. apply app_nil_r.
Qed.

(** What the finalization keeps. *)
Lemma finalization_stable savedir (P : state E -> Prop) :
  (forall w s, P s -> P (set_world E w s)) ->
  (forall m s, P s -> P (add_event E (EvLog m) s)) ->
  (forall p d s, P s -> P (add_event E (EvCheckpoint p d) s)) ->
  stable P (finalization E cfg savedir).
Proof.
  intros Pw Pl Pc s Hs. rewrite finalization_cases.
  destruct (get_all_param_values E (world s)) as [[weights | e] w1].
  - destruct (pickle_dump E _ _ w1) as [[[] | e] w2].
    + apply Pl, Pc, Pw, Pl. exact Hs.
    + apply Pw, Pl. exact Hs.
  - apply Pw, Pl. exact Hs.
Qed.

(** A run that has entered the loop, by the way the loop was left. *)
Lemma run_solver_after_training (w : World E) savedir (s1 s2 : state E) r :
  setup E cfg (init_state E w) = (Ret savedir, s1) ->
  training E cfg savedir s1 = (r, s2) ->
  run_solver E cfg (init_state E w)
  = match r with
    | Ret _ => finalization E cfg savedir s2
    | Raise KeyboardInterrupt =>
        finalization E cfg savedir (add_event E (EvLog LogUserInterrupt) s2)
    | Raise Exception =>
        finalization E cfg savedir
          (add_event E (EvLog LogUnhandledException) s2)
    | Raise SystemExit => (Raise SystemExit, s2)
    end.
Proof.
  intros Hsetup Htrain. unfold run_solver, bind. rewrite Hsetup.
  unfold run_loop, bind, guarded_training, try_except. rewrite Htrain.
  destruct r as [[] | []]; reflexivity.
Qed.

Lemma no_checkpoint_after_training (w : World E) savedir
      (s1 s2 : state E) r :
  setup E cfg (init_state E w) = (Ret savedir, s1) ->
  training E cfg savedir s1 = (r, s2) ->
  checkpoints (trace s2) = [].
Proof.
  intros Hsetup Htrain.
  pose proof (stable_run _ _ (init_state E w) setup_no_checkpoint eq_refl)
    as H1.
  rewrite Hsetup in H1.
  pose proof (stable_run _ _ s1 (training_no_checkpoint savedir) H1) as H2.
  rewrite Htrain in H2. exact H2.
Qed.

End Checkpoint.

(** C1, as amended: a run that enters the training loop and leaves it
    because the 20 epochs are exhausted, because of a user interrupt, or
    because of an exception of class [Exception] escaping the epoch
    body, and whose parameter read-out and checkpoint file write return,
    returns normally and writes exactly one checkpoint, to
    [<experiment_id>.npz] under the save directory; the checkpoint holds
    the parameter values read out, the losses and the regularization
    list as they are when the loop is left, and the model identifier.
    A run that leaves the loop by another exception class, or whose
    read-out or file write raises, leaves [run_solver] by that exception
    and writes no checkpoint. *)
Theorem checkpoint_written_once :
  forall (E : Collaborators) (cfg : config) (w : World E)
         (savedir : string) (s1 s2 : state E) (r : outcome unit),
    setup E cfg (init_state E w) = (Ret savedir, s1) ->
    training E cfg savedir s1 = (r, s2) ->
    let path :=
      PyStr.path_join savedir (PyStr.str (experiment_id cfg) ++ ".npz") in
    let result := run_solver E cfg (init_state E w) in
    let caught :=
      r = Ret tt \/ r = Raise KeyboardInterrupt \/ r = Raise Exception in
    (caught ->
     forall weights w1 w2,
       get_all_param_values E (world s2) = (Ret weights, w1) ->
       pickle_dump E path (final_checkpoint E cfg weights s2) w1
       = (Ret tt, w2) ->
       fst result = Ret tt
       /\ checkpoints (trace (snd result))
          = [(path, final_checkpoint E cfg weights s2)]
       /\ ck_losses (final_checkpoint E cfg weights s2) = losses s2
       /\ ck_regularization (final_checkpoint E cfg weights s2) = regs s2
       /\ ck_params (final_checkpoint E cfg weights s2) = weights
       /\ ck_model_id (final_checkpoint E cfg weights s2) = model_id cfg)
    /\ (r = Raise SystemExit ->
        result = (Raise SystemExit, s2) /\ checkpoints (trace s2) = [])
    /\ (caught ->
        forall e w1,
          get_all_param_values E (world s2) = (Raise e, w1) ->
          fst result = Raise e /\ checkpoints (trace (snd result)) = [])
    /\ (caught ->
        forall weights w1 e w2,
          get_all_param_values E (world s2) = (Ret weights, w1) ->
          pickle_dump E path (final_checkpoint E cfg weights s2) w1
          = (Raise e, w2) ->
          fst result = Raise e /\ checkpoints (trace (snd result)) = []).
Proof.
  intros E cfg w savedir s1 s2 r Hsetup Htrain path result caught.
  pose proof (no_checkpoint_after_training E cfg w savedir s1 s2 r
                Hsetup Htrain) as H2.
  pose proof (run_solver_after_training E cfg w savedir s1 s2 r
                Hsetup Htrain) as Hrun.
  fold result in Hrun.
  assert (Hcaught :
            caught ->
            exists m,
              result
              = finalization E cfg savedir (add_event E (EvLog m) s2)
              \/ result = finalization E cfg savedir s2).
  { intros [-> | [-> | ->]].
    - exists LogUserInterrupt. right. exact Hrun.
    - exists LogUserInterrupt. left. exact Hrun.
    - exists LogUnhandledException. left. exact Hrun. }
  split; [| split; [| split]].
  - intros Hc weights w1 w2 Hread Hdump.
    destruct (Hcaught Hc) as [m [-> | ->]];
      (erewrite finalization_run; [| exact Hread | exact Hdump]);
      cbn -[checkpoints]; rewrite !checkpoints_app, H2;
      repeat split.
  - intros ->. rewrite Hrun. split; [reflexivity | exact H2].
  - intros Hc e w1 Hread.
    destruct (Hcaught Hc) as [m [-> | ->]];
      rewrite finalization_cases; simpl world; rewrite Hread;
      cbn -[checkpoints]; rewrite ?checkpoints_app, H2;
      split; reflexivity.
  - intros Hc weights w1 e w2 Hread Hdump.
    change (pickle_dump E (checkpoint_npz cfg savedir)
              (final_checkpoint E cfg weights s2) w1 = (Raise e, w2))
      in Hdump.
    destruct (Hcaught Hc) as [m [-> | ->]];
      rewrite finalization_cases; simpl world; rewrite Hread;
      change (final_checkpoint E cfg weights (add_event E (EvLog m) s2))
        with (final_checkpoint E cfg weights s2);
      rewrite Hdump;
      cbn -[checkpoints]; rewrite ?checkpoints_app, H2;
      split; reflexivity.
Qed.

(** The remaining exception classes are not caught by the two handlers
    of the outer [try]: such a run leaves [run_solver] without a
    checkpoint. *)
Lemma system_exit_escapes :
  forall (E : Collaborators) (cfg : config) (w : World E)
         (savedir : string) (s1 s2 : state E),
    setup E cfg (init_state E w) = (Ret savedir, s1) ->
    training E cfg savedir s1 = (Raise SystemExit, s2) ->
    run_solver E cfg (init_state E w) = (Raise SystemExit, s2)
    /\ checkpoints (trace s2) = [].
Proof.
  intros E cfg w savedir s1 s2 Hsetup Htrain. split.
  - unfold run_solver, bind. rewrite Hsetup.
    unfold run_loop, bind, guarded_training, try_except. rewrite Htrain.
    reflexivity.
  - pose proof (stable_run _ _ (init_state E w) (setup_no_checkpoint E cfg)
                  eq_refl) as H1.
    rewrite Hsetup in H1.
    pose proof (stable_run _ _ s1 (training_no_checkpoint E cfg savedir) H1)
      as H2.
    rewrite Htrain in H2. exact H2.
Qed.

(* ===================================================================== *)
(** ** The validation sub-loop *)
(* ===================================================================== *)

Section Validation.

Variable E : Collaborators.
Variable cfg : config.
Variable savedir : string.

(** The validation block returns from every state. *)
Lemma validation_output_returns epoch (s : state E) :
  exists s', validation_output E cfg savedir epoch s = (Ret tt, s').
Proof.
  unfold validation_output, bind, now, gets, log, emit, modify,
    validation_try, try_except.
  destruct (save_time_freq cfg <? time_time E (world s) - val_snap s).
  - destruct (validation_pass E cfg savedir epoch
                (add_event E (EvLog LogStartValidation) s))
      as [[[] | e] s1]; eexists; reflexivity.
  - eexists; reflexivity.
Qed.

(** The validation block when the pass raises. *)
Lemma validation_output_caught epoch (s s1 : state E) e :
  save_time_freq cfg < time_time E (world s) - val_snap s ->
  validation_pass E cfg savedir epoch
    (add_event E (EvLog LogStartValidation) s) = (Raise e, s1) ->
  validation_output E cfg savedir epoch s
  = (Ret tt,
     set_val_snap E (time_time E (world s1))
       (add_event E (EvLog LogValidationError) s1)).
Proof.
  intros Hfire Hpass.
  unfold validation_output, bind, now, gets, log, emit, modify,
    validation_try, try_except.
  apply Z.ltb_lt in Hfire. rewrite Hfire, Hpass. reflexivity.
Qed.

(** One step of the loop over the training batches. *)
Lemma train_loop_step epoch todo i (s s1 s2 : state E) inputs targets w1 :
  next_batch E TrainSet i (world s) = (Ret (inputs, targets), w1) ->
  train_and_record E cfg savedir epoch inputs targets (set_world E w1 s)
  = (Ret tt, s1) ->
  validation_output E cfg savedir epoch s1 = (Ret tt, s2) ->
  train_loop E cfg savedir epoch (S todo) i s
  = train_loop E cfg savedir epoch todo (S i) s2.
Proof.
  intros Hnext Htr Hval. simpl.
  unfold bind at 1. unfold call. rewrite Hnext.
  unfold batch_body, bind. rewrite Htr, Hval. reflexivity.
Qed.

End Validation.

(** C6: an exception raised inside the validation sub-loop, whatever its
    class, is caught and logged and does not leave the sub-loop; the
    validation clock is reset, and the loop over the training batches
    goes on with the next batch. *)
Theorem validation_failure_contained :
  forall (E : Collaborators) (cfg : config) (savedir : string) (epoch : Z)
         (todo i : nat) (inputs targets : Array E) (w1 : World E)
         (s s1 s2 : state E) (e : exn),
    next_batch E TrainSet i (world s) = (Ret (inputs, targets), w1) ->
    train_and_record E cfg savedir epoch inputs targets (set_world E w1 s)
    = (Ret tt, s1) ->
    save_time_freq cfg < time_time E (world s1) - val_snap s1 ->
    validation_pass E cfg savedir epoch
      (add_event E (EvLog LogStartValidation) s1) = (Raise e, s2) ->
    let s3 := set_val_snap E (time_time E (world s2))
                (add_event E (EvLog LogValidationError) s2) in
    validation_output E cfg savedir epoch s1 = (Ret tt, s3)
    /\ val_snap s3 = time_time E (world s3)
    /\ trace s3 = (trace s2 ++ [EvLog LogValidationError])%list
    /\ train_loop E cfg savedir epoch (S todo) i s
       = train_loop E cfg savedir epoch todo (S i) s3.
Proof.
  intros E cfg savedir epoch todo i inputs targets w1 s s1 s2 e
         Hnext Htr Hfire Hpass s3.
  assert (Hval : validation_output E cfg savedir epoch s1 = (Ret tt, s3))
    by (apply (validation_output_caught E cfg savedir epoch s1 s2 e); assumption).
  split; [exact Hval |].
  split; [reflexivity |].
  split; [reflexivity |].
  eapply train_loop_step; eassumption.
Qed.

Section ValidationLoop.

Variable E : Collaborators.
Variable cfg : config.
Variable savedir : string.

(** The loop over the validation batches only adds to the trace and
    only counts [val_batch] up. *)
Lemma validation_loop_grows epoch todo :
  forall i (s s' : state E) r,
    validation_loop E cfg savedir epoch todo i s = (r, s') ->
    (count is_pred (trace s) <= count is_pred (trace s'))%nat
    /\ val_batch s <= val_batch s'
    /\ (forall p, In p (images (trace s)) -> In p (images (trace s'))).
Proof.
  induction todo as [| todo IH]; intros i s s' r H; simpl in H.
  - inversion H; subst. repeat split; auto; lia.
  - unfold bind, call, emit, log, modify, gets, now in H. simpl in H.
    destruct (next_batch E ValSet i (world s)) as [[[inputs targets] | e] w1];
      [| inversion H; subst; simpl; repeat split; auto; lia].
    simpl in H.
    destruct (pred_fn E inputs (crop E targets) w1)
      as [[[loss pred] | e] w2];
      [| inversion H; subst; simpl; repeat split; auto; lia].
    simpl in H.
    destruct (imsave E _ _ w2) as [[[] | e] w3].
    + simpl in H.
      match type of H with
      | context [if ?c then _ else _] => destruct c eqn:Hbudget
      end.
      * inversion H; subst; simpl.
        rewrite !count_snoc, !images_app. simpl.
        repeat split; try lia.
        intros p Hp. rewrite !in_app_iff. auto.
      * apply IH in H. simpl in H.
        rewrite !count_snoc, !images_app in H. simpl in H.
        destruct H as (Hc & Hv & Hi).
        repeat split; try lia.
        intros p Hp. apply Hi. rewrite !in_app_iff. auto.
    + inversion H; subst; simpl.
      rewrite !count_snoc, !images_app. simpl.
      repeat split; try lia.
      intros p Hp. rewrite !in_app_iff. auto.
Qed.

End ValidationLoop.

(** C10: when the loop over the validation batches is left early on the
    time budget, the prediction call and the image write of its first
    batch have returned and the batch counter has been incremented,
    whatever the clock showed when the loop was entered: the budget is
    only looked at after them. *)
Theorem early_exit_after_first_batch :
  forall (E : Collaborators) (cfg : config) (savedir : string) (epoch : Z)
         (todo i : nat) (s s' : state E),
    validation_loop E cfg savedir epoch todo i s = (Ret Broke, s') ->
    exists inputs targets w1 loss pred w2 w3,
      next_batch E ValSet i (world s) = (Ret (inputs, targets), w1)
      /\ pred_fn E inputs (crop E targets) w1 = (Ret (loss, pred), w2)
      /\ imsave E (val_model_png cfg savedir epoch (val_batch s))
           (composite E (crop E inputs) pred (crop E (X_prefix E w2 pred)))
           w2 = (Ret tt, w3)
      /\ (count is_pred (trace s) < count is_pred (trace s'))%nat
      /\ In (val_model_png cfg savedir epoch (val_batch s))
            (images (trace s'))
      /\ val_batch s < val_batch s'.
Proof.
  intros E cfg savedir epoch todo i s s' H.
  destruct todo as [| todo]; simpl in H; [discriminate |].
  unfold bind, call, emit, log, modify, gets, now in H. simpl in H.
  destruct (next_batch E ValSet i (world s)) as [[[inputs targets] | e] w1]
    eqn:Hnext; [| discriminate].
  simpl in H.
  destruct (pred_fn E inputs (crop E targets) w1) as [[[loss pred] | e] w2]
    eqn:Hpred; [| discriminate].
  simpl in H.
  destruct (imsave E _ _ w2) as [[[] | e] w3] eqn:Hsave; [| discriminate].
  simpl in H.
  exists inputs, targets, w1, loss, pred, w2, w3.
  split; [reflexivity |]. split; [exact Hpred |]. split; [exact Hsave |].
  match type of H with
  | context [if ?c then _ else _] => destruct c eqn:Hbudget
  end.
  - inversion H; subst; simpl.
    rewrite !count_snoc, !images_app. simpl.
    repeat split; try lia.
    rewrite !in_app_iff. simpl. auto.
  - apply validation_loop_grows in H. simpl in H.
    rewrite !count_snoc, !images_app in H. simpl in H.
    destruct H as (Hc & Hv & Hi).
    repeat split; try lia.
    apply Hi. rewrite !in_app_iff. simpl. auto.
Qed.

(* ===================================================================== *)
(** ** Concrete runs *)
(* ===================================================================== *)

(** A run interrupted by the user during its third training call. *)
Lemma checkpoint_written_once_witness :
  fst (Script.run interrupted_run cfg0) = Ret tt
  /\ length (checkpoints (trace (snd (Script.run interrupted_run cfg0))))
     = 1%nat.
Proof.
  destruct (checkpoint_written_once (Script.collaborators interrupted_run)
              cfg0 Script.start
              "run_HoEoTo_1000"
              (snd (setup (Script.collaborators interrupted_run) cfg0
                      (Script.init interrupted_run)))
              (snd (training (Script.collaborators interrupted_run) cfg0
                      "run_HoEoTo_1000"
                      (snd (setup (Script.collaborators interrupted_run) cfg0
                              (Script.init interrupted_run)))))
              (Raise KeyboardInterrupt))
    as [Hwritten _].
  - vm_compute. reflexivity.
  - vm_compute. reflexivity.
  - destruct (Hwritten (or_intror (or_introl eq_refl)) _ _ _
                eq_refl eq_refl) as [Hr [Hck _]].
    unfold Script.run, Script.init.
    split; [exact Hr |]. rewrite Hck. reflexivity.
Defined.

(** C1, the claim as it is stated, on two runs that enter the training
    loop and end without a checkpoint: in the first the second training
    call raises [SystemExit], which neither handler of the outer [try]
    catches; the second trains all 20 epochs and the file write of the
    checkpoint fails. *)
Lemma checkpoint_missing_after_loop :
  (let run := Script.run exit_in_training cfg0 in
   fst run = Raise SystemExit
   /\ trainings (trace (snd run)) = 1%nat
   /\ checkpoints (trace (snd run)) = [])
  /\ (let E := Disk.collaborators 1 (fun _ => true) false in
      let run := run_solver E cfg0 (init_state E 0%nat) in
      fst run = Raise Exception
      /\ trainings (trace (snd run)) = 20%nat
      /\ checkpoints (trace (snd run)) = []).
Proof. vm_compute. repeat split. Qed.

(** C4, the code on a run of two completed training batches: the
    training function returned the regularization values 2000 and 2001,
    and the [regularization] field of the checkpoint holds two references
    to the list itself. *)
Theorem regularization_holds_list_itself :
  let s := snd (Script.run interrupted_run cfg0) in
  train_regs (trace s) = [2000; 2001]
  /\ map (fun c => ck_regularization (snd c)) (checkpoints (trace s))
     = [[PyRef RegsList; PyRef RegsList]]
  /\ map (fun c => ck_losses (snd c)) (checkpoints (trace s))
     = [[PyFloat 1000; PyFloat 1001]].
Proof. vm_compute. repeat split. Qed.

(** C5, the code on a user interrupt during the first validation pass,
    after one completed training batch: the interrupt is logged as a
    validation error, the user-interrupt handler never runs, all 40
    training batches are processed, and the checkpoint holds 40 losses. *)
Theorem interrupt_in_validation_swallowed :
  let s := snd (Script.run interrupt_in_validation cfg0) in
  fst (Script.run interrupt_in_validation cfg0) = Ret tt
  /\ trainings (before (is_log LogValidationError) (trace s)) = 1%nat
  /\ count (is_log LogValidationError) (trace s) = 1%nat
  /\ count (is_log LogUserInterrupt) (trace s) = 0%nat
  /\ trainings (trace s) = 40%nat
  /\ map (fun c => length (ck_losses (snd c))) (checkpoints (trace s))
     = [40%nat].
Proof. vm_compute. repeat split. Qed.

(** C3, the code on a validation set of 1000 batches at 10 ticks per
    prediction call with the default budget of 24 ticks: the one
    validation pass of the run starts 241 ticks after [val_snap] was set
    and ends normally after a single batch. *)
Theorem validation_pass_stops_after_one_batch :
  let s := snd (Script.run long_validation cfg0) in
  Script.val_batches long_validation = 1000%nat
  /\ Script.pred_cost long_validation = 10
  /\ save_time_freq cfg0 / 10 = 24
  /\ count (is_log LogStartValidation) (trace s) = 1%nat
  /\ count (is_log LogFinishedValidation) (trace s) = 1%nat
  /\ count (is_log LogValidationError) (trace s) = 0%nat
  /\ count is_pred (trace s) = 1%nat
  /\ images (trace s)
     = ["run_HoEoTo_1000/model7_ep0_b1.png";
        "run_HoEoTo_1000/val_model7_ep0_b0.png"].
Proof. vm_compute. repeat split. Qed.

(** C2 as stated fails: one training invocation has completed, the
    image write of its training snapshot raised, and the losses are
    empty, in the state the loop is left in and in the checkpoint. *)
Lemma losses_shorter_than_trainings :
  let s := snd (Script.run failing_snapshot cfg0) in
  trainings (trace s) = 1%nat
  /\ length (losses s) = 0%nat
  /\ trainings (trace s) <> length (losses s)
  /\ map (fun c => length (ck_losses (snd c))) (checkpoints (trace s))
     = [0%nat].
Proof. vm_compute. repeat split. discriminate. Qed.

(* ===================================================================== *)
(** ** The metric trace *)
(* ===================================================================== *)

Section MetricTrace.

Variable E : Collaborators.
Variable cfg : config.
Variable savedir : string.

Lemma trainings_other e (s : state E) :
  is_train e = false ->
  trainings (trace (add_event E e s)) = trainings (trace s).
Proof.
  intros He. unfold trainings. simpl. rewrite count_snoc, He. lia.
Qed.

Lemma validation_output_metrics epoch n l :
  stable (metrics_are n l) (validation_output E cfg savedir epoch).
Proof.
  apply validation_output_stable; unfold metrics_are; intros;
    try rewrite trainings_other by reflexivity; assumption.
Qed.

Lemma training_output_metrics epoch inputs targets pred n l :
  stable (metrics_are n l)
    (training_output E cfg savedir epoch inputs targets pred).
Proof.
  apply training_output_stable; unfold metrics_are; intros;
    try rewrite trainings_other by reflexivity; assumption.
Qed.

Lemma validation_output_balanced epoch :
  stable balanced (validation_output E cfg savedir epoch).
Proof.
  apply validation_output_stable; unfold balanced; intros;
    try rewrite trainings_other by reflexivity; assumption.
Qed.

Lemma training_output_pending epoch inputs targets pred :
  stable pending (training_output E cfg savedir epoch inputs targets pred).
Proof.
  apply training_output_stable; unfold pending; intros;
    try rewrite trainings_other by reflexivity; assumption.
Qed.

Lemma training_step_counts inputs targets :
  triple balanced (training_step E inputs targets)
    (fun _ => pending) (fun _ => balanced).
Proof.
  intros s Hs. unfold training_step, bind, call, emit, modify, gets.
  destruct (train_fn E inputs (crop E targets) (world s)) as [[r | e] w];
    simpl.
  - unfold pending, trainings. simpl. rewrite count_snoc. simpl.
    unfold balanced, trainings in Hs. simpl in Hs. lia.
  - exact Hs.
Qed.

Lemma record_metrics_counts loss :
  triple pending (record_metrics E loss)
    (fun _ => balanced) (fun _ _ => False).
Proof.
  intros s Hs. unfold record_metrics, bind, log, emit, modify, gets. simpl.
  unfold balanced, trainings. simpl.
  rewrite count_snoc, length_app. simpl.
  unfold pending, trainings in Hs. lia.
Qed.

Lemma train_and_record_counts epoch inputs targets :
  triple balanced (train_and_record E cfg savedir epoch inputs targets)
    (fun _ => balanced) (fun _ => off_by_at_most_one).
Proof.
  unfold train_and_record.
  eapply triple_bind.
  - eapply triple_weaken; [apply training_step_counts | auto | |].
    + intros a s Hs. exact Hs.
    + intros e s Hs. left. exact Hs.
  - intros [[[error loss] reg] pred]. simpl.
    eapply triple_bind.
    + eapply triple_weaken; [apply training_output_pending | auto | |].
      * intros a s Hs. exact Hs.
      * intros e s Hs. right. exact Hs.
    + intros u.
      eapply triple_weaken; [apply record_metrics_counts | auto | auto |].
      intros e s [].
Qed.

Lemma batch_body_counts epoch inputs targets :
  triple balanced (batch_body E cfg savedir epoch inputs targets)
    (fun _ => balanced) (fun _ => off_by_at_most_one).
Proof.
  unfold batch_body. eapply triple_bind.
  - apply train_and_record_counts.
  - intros u. eapply triple_weaken;
      [apply validation_output_balanced | auto | auto |].
    intros e s Hs. left. exact Hs.
Qed.

Lemma keeps_count_bind {A B} (m : M (state E) A) (k : A -> M (state E) B) :
  keeps_count m -> (forall a, keeps_count (k a)) -> keeps_count (bind m k).
Proof. intros Hm Hk. eapply triple_bind; [exact Hm | exact Hk]. Qed.

Lemma keeps_count_call {A} (f : World E -> outcome A * World E) :
  keeps_count (call E f).
Proof.
  intros s Hs. unfold call.
  destruct (f (world s)) as [[a | e] w]; [| left]; exact Hs.
Qed.

Lemma keeps_count_modify (f : state E -> state E) :
  (forall s, balanced s -> balanced (f s)) -> keeps_count (modify f).
Proof. intros Hf. apply triple_modify. exact Hf. Qed.

Lemma train_loop_counts epoch todo :
  forall i, keeps_count (train_loop E cfg savedir epoch todo i).
Proof.
  induction todo as [| todo IH]; intros i; simpl.
  - apply triple_ret. auto.
  - apply keeps_count_bind; [apply keeps_count_call |].
    intros [inputs targets].
    apply keeps_count_bind; [apply batch_body_counts |].
    intros u. apply IH.
Qed.

Lemma epoch_body_counts epoch :
  keeps_count (epoch_body E cfg savedir epoch).
Proof.
  unfold epoch_body.
  apply keeps_count_bind; [apply keeps_count_modify; auto | intros u].
  apply keeps_count_bind; [apply keeps_count_modify; auto | intros u'].
  apply keeps_count_bind; [apply keeps_count_call | intros n].
  apply train_loop_counts.
Qed.

Lemma epochs_counts todo :
  forall epoch, keeps_count (epochs E cfg savedir todo epoch).
Proof.
  induction todo as [| todo IH]; intros epoch; simpl.
  - apply triple_ret. auto.
  - apply keeps_count_bind; [apply epoch_body_counts |].
    intros u. apply IH.
Qed.

Lemma training_counts : keeps_count (training E cfg savedir).
Proof.
  unfold training.
  apply keeps_count_bind; [apply triple_gets; auto | intros t].
  apply keeps_count_bind; [apply keeps_count_modify; auto | intros u].
  apply keeps_count_bind; [apply keeps_count_modify; auto | intros u'].
  apply epochs_counts.
Qed.

Lemma training_step_metrics inputs targets (s s1 : state E) r :
  training_step E inputs targets s = (r, s1) ->
  trainings (trace s1)
  = (trainings (trace s) + match r with Ret _ => 1 | Raise _ => 0 end)%nat
  /\ losses s1 = losses s.
Proof.
  unfold training_step, bind, call, emit, modify, gets. intros H.
  destruct (train_fn E inputs (crop E targets) (world s)) as [[x | e] w];
    inversion H; subst; simpl; split; try reflexivity.
  - unfold trainings. rewrite count_snoc. reflexivity.
  - lia.
Qed.

Lemma record_metrics_metrics loss (s : state E) :
  exists s',
    record_metrics E loss s = (Ret tt, s')
    /\ trainings (trace s') = trainings (trace s)
    /\ length (losses s') = S (length (losses s)).
Proof.
  eexists. split; [reflexivity |]. simpl. split.
  - unfold trainings. rewrite count_snoc. simpl. lia.
  - rewrite length_app. simpl. lia.
Qed.

Lemma train_and_record_metrics epoch inputs targets (s s' : state E) :
  train_and_record E cfg savedir epoch inputs targets s = (Ret tt, s') ->
  trainings (trace s') = S (trainings (trace s))
  /\ length (losses s') = S (length (losses s)).
Proof.
  unfold train_and_record. unfold bind at 1.
  destruct (training_step E inputs targets s) as [[x | e] s1] eqn:Hstep;
    [| discriminate].
  destruct x as [[[error loss] reg] pred].
  apply training_step_metrics in Hstep. destruct Hstep as [Hn Hl].
  unfold bind at 1.
  pose proof (stable_run _ _ s1
                (training_output_metrics epoch inputs targets pred
                   (trainings (trace s1)) (losses s1))
                (conj eq_refl eq_refl)) as Hout.
  destruct (training_output E cfg savedir epoch inputs targets pred s1)
    as [[[] | e] s2]; [| discriminate].
  destruct Hout as [Hn2 Hl2]. simpl in Hn2, Hl2.
  destruct (record_metrics_metrics loss s2) as (s3 & Hrec & Hn3 & Hl3).
  rewrite Hrec. intros H. inversion H; subst.
  rewrite Hn3, Hl3, Hn2, Hl2, Hn, Hl. split; lia.
Qed.

End MetricTrace.

(** C2, amended: when the training loop is left, the number of losses is
    the number N of completed training invocations or N - 1, and it is N
    when the loop ran to its end; the validation block changes neither
    number, whatever is raised and caught in it; a batch whose training
    call and training output return adds one to both; a batch whose
    training call raises adds to neither; and a batch whose training call
    returned and whose training output raised leaves the loop with one
    more completed invocation and no further loss. *)
Theorem losses_track_completed_batches :
  forall (E : Collaborators) (cfg : config) (savedir : string),
    (forall (s s' : state E) r,
        trainings (trace s) = length (losses s) ->
        training E cfg savedir s = (r, s') ->
        (trainings (trace s') = length (losses s')
         \/ trainings (trace s') = S (length (losses s')))
        /\ (r = Ret tt -> trainings (trace s') = length (losses s')))
    /\ (forall epoch (s : state E),
           trainings (trace (snd (validation_output E cfg savedir epoch s)))
           = trainings (trace s)
           /\ losses (snd (validation_output E cfg savedir epoch s))
              = losses s)
    /\ (forall epoch inputs targets (s s' : state E),
           train_and_record E cfg savedir epoch inputs targets s
           = (Ret tt, s') ->
           trainings (trace s') = S (trainings (trace s))
           /\ length (losses s') = S (length (losses s)))
    /\ (forall epoch inputs targets (s s1 : state E) e,
           training_step E inputs targets s = (Raise e, s1) ->
           train_and_record E cfg savedir epoch inputs targets s
           = (Raise e, s1)
           /\ trainings (trace s1) = trainings (trace s)
           /\ losses s1 = losses s)
    /\ (forall epoch inputs targets (s s1 s2 : state E) x e,
           training_step E inputs targets s = (Ret x, s1) ->
           training_output E cfg savedir epoch inputs targets (snd x) s1
           = (Raise e, s2) ->
           train_and_record E cfg savedir epoch inputs targets s
           = (Raise e, s2)
           /\ trainings (trace s2) = S (trainings (trace s))
           /\ losses s2 = losses s).
Proof.
  intros E cfg savedir. split; [| split; [| split; [| split]]].
  - intros s s' r Hs Hrun.
    pose proof (training_counts E cfg savedir s Hs) as H.
    rewrite Hrun in H. destruct r as [[] | e].
    + split; [left; exact H | intros _; exact H].
    + split; [exact H | discriminate].
  - intros epoch s.
    pose proof (stable_run _ _ s
                  (validation_output_metrics E cfg savedir epoch
                     (trainings (trace s)) (losses s))
                  (conj eq_refl eq_refl)) as H.
    exact H.
  - intros epoch inputs targets s s' H.
    apply (train_and_record_metrics E cfg savedir epoch inputs targets s s' H).
  - intros epoch inputs targets s s1 e Hstep. split.
    + unfold train_and_record, bind. rewrite Hstep. reflexivity.
    + apply training_step_metrics in Hstep. destruct Hstep as [Hn Hl].
      split; [lia | exact Hl].
  - intros epoch inputs targets s s1 s2 x e Hstep Hout. split.
    + unfold train_and_record, bind. rewrite Hstep.
      destruct x as [[[error loss] reg] pred]. simpl in Hout.
      rewrite Hout. reflexivity.
    + pose proof (stable_run _ _ s1
                    (training_output_metrics E cfg savedir epoch inputs
                       targets (snd x) (trainings (trace s1)) (losses s1))
                    (conj eq_refl eq_refl)) as H.
      rewrite Hout in H. destruct H as [Hn2 Hl2]. simpl in Hn2, Hl2.
      apply training_step_metrics in Hstep. destruct Hstep as [Hn Hl].
      rewrite Hn2, Hl2, Hn, Hl. split; [lia | reflexivity].
Qed.

(* ===================================================================== *)
(** ** The snapshot cadence *)
(* ===================================================================== *)

Section Cadence.

Variable E : Collaborators.
Variable cfg : config.
Variable savedir : string.

Lemma bind_run {A B} (m : M (state E) A) (k : A -> M (state E) B) s a s' :
  m s = (Ret a, s') -> bind m k s = k a s'.
Proof. intros H. unfold bind. rewrite H. reflexivity. Qed.

Lemma snapshot_due_run (s : state E) :
  save_batch_freq cfg <> 0 ->
  snapshot_due E cfg s
  = (Ret (snapshot_fires cfg (batch s) (time_time E (world s)) (snap s)), s).
Proof.
  intros Hf. unfold snapshot_due, snapshot_fires, bind, gets, py_mod, now.
  destruct (Z.eqb_spec (save_batch_freq cfg) 0) as [H0 | _]; [contradiction |].
  simpl.
  destruct (batch s mod save_batch_freq cfg =? 0); reflexivity.
Qed.

Lemma training_output_idle epoch inputs targets pred (s : state E) :
  save_batch_freq cfg <> 0 ->
  snapshot_fires cfg (batch s) (time_time E (world s)) (snap s) = false ->
  training_output E cfg savedir epoch inputs targets pred s = (Ret tt, s).
Proof.
  intros Hf Hdue. unfold training_output.
  rewrite (bind_run _ _ _ _ _ (snapshot_due_run s Hf)), Hdue. reflexivity.
Qed.

Lemma training_output_fires epoch inputs targets pred (s : state E) w1 w2 :
  save_batch_freq cfg <> 0 ->
  snapshot_fires cfg (batch s) (time_time E (world s)) (snap s) = true ->
  imsave E (model_png cfg savedir epoch (batch s))
    (composite E (crop E inputs) pred (crop E targets)) (world s)
  = (Ret tt, w1) ->
  layers_dump E w1 = (Ret tt, w2) ->
  training_output E cfg savedir epoch inputs targets pred s
  = (Ret tt,
     set_snap E (time_time E w2)
       (add_event E EvNetdump
          (set_world E w2
             (add_event E (EvImsave (model_png cfg savedir epoch (batch s)))
                (set_world E w1
                   (add_event E (EvLog LogSavingOutputImage) s)))))).
Proof.
  intros Hf Hdue Hsave Hdump. unfold training_output.
  rewrite (bind_run _ _ _ _ _ (snapshot_due_run s Hf)), Hdue.
  unfold bind, log, emit, modify, gets, call, netdump, now. simpl.
  rewrite Hsave. simpl. unfold bind, call, emit, modify. simpl.
  rewrite Hdump. reflexivity.
Qed.

Lemma validation_output_idle epoch (s : state E) :
  time_time E (world s) - val_snap s <= save_time_freq cfg ->
  validation_output E cfg savedir epoch s = (Ret tt, s).
Proof.
  intros H. unfold validation_output, bind, now, gets.
  destruct (Z.ltb_spec (save_time_freq cfg) (time_time E (world s) - val_snap s));
    [lia | reflexivity].
Qed.

Hypothesis quiet : fast_and_quiet E cfg.
Hypothesis freq_nonzero : save_batch_freq cfg <> 0.

Lemma elapsed_small w t :
  clock_reading E t -> time_time E w - t <= save_time_freq cfg.
Proof. intros [w' ->]. apply (fq_clock E cfg quiet). Qed.

(** One batch with fast and quiet collaborators. *)
Lemma batch_body_fast epoch inputs targets (s : state E) :
  clock_reading E (snap s) -> clock_reading E (val_snap s) ->
  exists s',
    batch_body E cfg savedir epoch inputs targets s = (Ret tt, s')
    /\ batch s' = batch s + 1
    /\ clock_reading E (snap s')
    /\ clock_reading E (val_snap s')
    /\ images (trace s')
       = (images (trace s)
          ++ (if (batch s + 1) mod save_batch_freq cfg =? 0
              then [model_png cfg savedir epoch (batch s + 1)]
              else []))%list.
Proof.
  intros Hsnap Hval.
  destruct (fq_train E cfg quiet inputs (crop E targets) (world s))
    as ([[[error loss] reg] pred] & w1 & Htrain).
  set (s1 := set_batch E (batch s + 1)
               (add_event E (EvTrain loss reg) (set_world E w1 s))).
  assert (Hstep : training_step E inputs targets s
                  = (Ret (error, loss, reg, pred), s1)).
  { unfold training_step, bind, call, emit, modify, gets.
    rewrite Htrain. reflexivity. }
  assert (Hout : exists s2,
             training_output E cfg savedir epoch inputs targets pred s1
             = (Ret tt, s2)
             /\ batch s2 = batch s + 1
             /\ clock_reading E (snap s2)
             /\ val_snap s2 = val_snap s
             /\ losses s2 = losses s1 /\ regs s2 = regs s1
             /\ images (trace s2)
                = (images (trace s)
                   ++ (if (batch s + 1) mod save_batch_freq cfg =? 0
                       then [model_png cfg savedir epoch (batch s + 1)]
                       else []))%list).
  { destruct (snapshot_fires cfg (batch s1) (time_time E (world s1)) (snap s1))
      eqn:Hdue.
    - destruct (fq_imsave E cfg quiet
                  (model_png cfg savedir epoch (batch s1))
                  (composite E (crop E inputs) pred (crop E targets))
                  (world s1)) as ([] & w2 & Hsave).
      destruct (fq_dump E cfg quiet w2) as ([] & w3 & Hdump).
      eexists. split.
      + apply (training_output_fires epoch inputs targets pred s1 w2 w3
                 freq_nonzero Hdue Hsave Hdump).
      + simpl. repeat split; try reflexivity.
        * exists w3. reflexivity.
        * unfold snapshot_fires in Hdue. simpl in Hdue.
          apply orb_true_iff in Hdue. destruct Hdue as [Hb | Ht].
          -- rewrite Hb. rewrite !images_app. simpl.
             rewrite !app_nil_r. reflexivity.
          -- apply Z.ltb_lt in Ht.
             pose proof (elapsed_small w1 (snap s) Hsnap). lia.
    - exists s1. split.
      + apply training_output_idle; assumption.
      + simpl. repeat split; try assumption; try reflexivity.
        unfold snapshot_fires in Hdue. simpl in Hdue.
        apply orb_false_iff in Hdue. destruct Hdue as [Hb _].
        rewrite Hb. rewrite !images_app. simpl.
        rewrite !app_nil_r. reflexivity. }
  destruct Hout as (s2 & Hout & Hb2 & Hs2 & Hv2 & Hl2 & Hr2 & Hi2).
  set (s3 := list_append E RegsList (PyRef RegsList)
               (list_append E LossesList (PyFloat loss)
                  (add_event E (EvLog (LogBatch (batch s2))) s2))).
  assert (Hrec : record_metrics E loss s2 = (Ret tt, s3)) by reflexivity.
  assert (Hvo : validation_output E cfg savedir epoch s3 = (Ret tt, s3)).
  { apply validation_output_idle. simpl. rewrite Hv2.
    apply elapsed_small. exact Hval. }
  exists s3. split.
  - unfold batch_body, train_and_record.
    rewrite (bind_run _ _ s tt s3); [exact Hvo |].
    rewrite (bind_run _ _ _ _ _ Hstep). simpl.
    rewrite (bind_run _ _ _ _ _ Hout). exact Hrec.
  - simpl. repeat split; try assumption.
    + rewrite Hv2. exact Hval.
    + rewrite images_app. simpl. rewrite app_nil_r. exact Hi2.
Qed.

Lemma train_loop_fast epoch todo :
  forall i (s : state E),
    batch s = Z.of_nat i ->
    clock_reading E (snap s) -> clock_reading E (val_snap s) ->
    exists s',
      train_loop E cfg savedir epoch todo i s = (Ret tt, s')
      /\ images (trace s')
         = (images (trace s)
            ++ map (model_png cfg savedir epoch)
                 (filter (fun b => b mod save_batch_freq cfg =? 0)
                    (map Z.of_nat (seq (S i) todo))))%list.
Proof.
  induction todo as [| todo IH]; intros i s Hb Hsnap Hval.
  - exists s. split; [reflexivity |]. simpl. rewrite app_nil_r. reflexivity.
  - destruct (fq_next E cfg quiet i (world s))
      as ([inputs targets] & w1 & Hnext).
    destruct (batch_body_fast epoch inputs targets (set_world E w1 s)
                Hsnap Hval)
      as (s1 & Hbody & Hb1 & Hs1 & Hv1 & Hi1).
    simpl in Hb1, Hi1.
    destruct (IH (S i) s1) as (s' & Hloop & Hi'); try assumption.
    { rewrite Hb1, Hb. lia. }
    exists s'. split.
    + simpl. unfold bind at 1. unfold call. rewrite Hnext.
      unfold bind at 1. rewrite Hbody. exact Hloop.
    + rewrite Hi', Hi1, Hb. simpl.
      replace (Z.of_nat i + 1) with (Z.pos (Pos.of_succ_nat i)) by lia.
      destruct (Z.pos (Pos.of_succ_nat i) mod save_batch_freq cfg =? 0);
        simpl; rewrite <- app_assoc; reflexivity.
Qed.

End Cadence.

(** C7: on every batch the training snapshot fires exactly when the
    batch count is a multiple of [save_batch_freq] or more than
    [save_time_freq] has passed since [snap] was last set; a snapshot
    whose writes return sets [snap] to the clock; on a batch that came
    within the time threshold only the count decides, so that a
    frequency of 100 fires on the batch counts 100, 200, 300 and so on
    and on no other; and when no two clock readings are further apart
    than [save_time_freq], an epoch of [n] batches writes the training
    images of exactly the batch counts in [1 .. n] that are multiples of
    [save_batch_freq]. *)
Theorem snapshot_cadence :
  forall (E : Collaborators) (cfg : config) (savedir : string),
    save_batch_freq cfg <> 0 ->
    (forall s : state E,
        snapshot_due E cfg s
        = (Ret ((batch s mod save_batch_freq cfg =? 0)
                || (save_time_freq cfg <? time_time E (world s) - snap s)),
           s))
    /\ (forall epoch inputs targets pred (s : state E),
           snapshot_fires cfg (batch s) (time_time E (world s)) (snap s)
           = false ->
           training_output E cfg savedir epoch inputs targets pred s
           = (Ret tt, s))
    /\ (forall epoch inputs targets pred (s : state E) w1 w2,
           snapshot_fires cfg (batch s) (time_time E (world s)) (snap s)
           = true ->
           imsave E (model_png cfg savedir epoch (batch s))
             (composite E (crop E inputs) pred (crop E targets)) (world s)
           = (Ret tt, w1) ->
           layers_dump E w1 = (Ret tt, w2) ->
           exists s',
             training_output E cfg savedir epoch inputs targets pred s
             = (Ret tt, s')
             /\ snap s' = time_time E (world s')
             /\ images (trace s')
                = (images (trace s)
                   ++ [model_png cfg savedir epoch (batch s)])%list)
    /\ (forall s : state E,
           time_time E (world s) - snap s <= save_time_freq cfg ->
           save_batch_freq cfg = 100 ->
           (snapshot_fires cfg (batch s) (time_time E (world s)) (snap s)
            = true
            <-> exists k, batch s = 100 * k))
    /\ (fast_and_quiet E cfg ->
        forall epoch n (s : state E) w1,
          clock_reading E (snap s) -> clock_reading E (val_snap s) ->
          iterate E TrainSet (world s) = (Ret n, w1) ->
          exists s',
            epoch_body E cfg savedir epoch s = (Ret tt, s')
            /\ images (trace s')
               = (images (trace s)
                  ++ map (model_png cfg savedir epoch)
                       (count_trigger_batches cfg n))%list).
Proof.
  intros E cfg savedir Hf. split; [| split; [| split; [| split]]].
  - intros s. apply snapshot_due_run. exact Hf.
  - intros. apply training_output_idle; assumption.
  - intros epoch inputs targets pred s w1 w2 Hdue Hsave Hdump.
    eexists. split.
    + apply (training_output_fires E cfg savedir epoch inputs targets pred
               s w1 w2 Hf Hdue Hsave Hdump).
    + split; [reflexivity |].
      simpl. rewrite !images_app. simpl. rewrite !app_nil_r. reflexivity.
  - intros s Hfast H100. unfold snapshot_fires. rewrite H100.
    assert (Ht : (save_time_freq cfg <? time_time E (world s) - snap s)
                 = false) by (apply Z.ltb_ge; exact Hfast).
    rewrite Ht, orb_false_r, Z.eqb_eq. split.
    + intros Hm. exists (batch s / 100).
      pose proof (Z.div_mod (batch s) 100). lia.
    + intros [k Hk]. rewrite Hk, Z.mul_comm. apply Z.mod_mul. lia.
  - intros Hq epoch n s w1 Hsnap Hval Hit.
    destruct (train_loop_fast E cfg savedir Hq Hf epoch n 0
                (set_world E w1 (set_val_batch E 0 (set_batch E 0 s))))
      as (s' & Hloop & Hi); try assumption; try reflexivity.
    exists s'. split.
    + unfold epoch_body, bind, modify, call. simpl. rewrite Hit. exact Hloop.
    + exact Hi.
Qed.

(* ===================================================================== *)
(** ** The job loop *)
(* ===================================================================== *)

Section JobLoop.

Variable W : Type.
Variable Builder : Type.
Variable int : string -> outcome Z.
Variable process_job : Builder -> Z -> W -> outcome unit * W.
Variable modellist : list Builder.

Local Abbreviation jobs := (job_loop W Builder int process_job modellist).
Local Abbreviation keep := (kept Builder int modellist).

Lemma job_loop_skip word rest n (s : main_state W) :
  int word = Ret n ->
  invalid_id Builder modellist (n - 1) = true ->
  jobs (word :: rest) s = jobs rest (warned (n - 1) s).
Proof.
  intros Hint Hinv. simpl. unfold bind at 1. rewrite Hint, Hinv.
  reflexivity.
Qed.

Lemma same_but_warnings_warned id (s t : main_state W) :
  same_but_warnings s t -> same_but_warnings (warned id s) t.
Proof.
  intros [Hw Hl]. split; [exact Hw |].
  simpl. rewrite filter_app. simpl. rewrite app_nil_r. exact Hl.
Qed.

Lemma job_loop_process word rest n get_model (s : main_state W) :
  int word = Ret n ->
  invalid_id Builder modellist (n - 1) = false ->
  nth_error modellist (Z.to_nat (n - 1)) = Some get_model ->
  jobs (word :: rest) s
  = match process_job get_model (n - 1) (m_world s) with
    | (Ret _, w) => jobs rest (started (n - 1) w s)
    | (Raise e, w) => (Raise e, started (n - 1) w s)
    end.
Proof.
  intros Hint Hinv Hnth. simpl. unfold bind at 1. rewrite Hint, Hinv, Hnth.
  unfold bind, main_log, modify, main_call. simpl.
  destruct (process_job get_model (n - 1) (m_world s)) as [[[] | e] w];
    reflexivity.
Qed.

Lemma job_loop_no_builder word rest n (s : main_state W) :
  int word = Ret n ->
  invalid_id Builder modellist (n - 1) = false ->
  nth_error modellist (Z.to_nat (n - 1)) = None ->
  jobs (word :: rest) s = (Raise Exception, s).
Proof.
  intros Hint Hinv Hnth. simpl. unfold bind at 1. rewrite Hint, Hinv, Hnth.
  reflexivity.
Qed.

Lemma job_loop_bad_word word rest e (s : main_state W) :
  int word = Raise e -> jobs (word :: rest) s = (Raise e, s).
Proof. intros Hint. simpl. unfold bind at 1. rewrite Hint. reflexivity. Qed.

Lemma job_loop_filter joblist :
  forall s t : main_state W,
    same_but_warnings s t ->
    fst (jobs joblist s) = fst (jobs (filter keep joblist) t)
    /\ same_but_warnings (snd (jobs joblist s))
         (snd (jobs (filter keep joblist) t)).
Proof.
  induction joblist as [| word rest IH]; intros s t Hst.
  - simpl. split; [reflexivity | exact Hst].
  - simpl filter.
    destruct (int word) as [n | e] eqn:Hint.
    + destruct (invalid_id Builder modellist (n - 1)) eqn:Hinv.
      * assert (Hk : keep word = false)
          by (unfold kept, out_of_range; rewrite Hint, Hinv; reflexivity).
        rewrite Hk, (job_loop_skip word rest n s Hint Hinv).
        apply IH. apply same_but_warnings_warned. exact Hst.
      * assert (Hk : keep word = true)
          by (unfold kept, out_of_range; rewrite Hint, Hinv; reflexivity).
        rewrite Hk.
        destruct (nth_error modellist (Z.to_nat (n - 1))) as [get_model |]
          eqn:Hnth.
        -- rewrite !(job_loop_process word _ n get_model _ Hint Hinv Hnth).
           destruct Hst as [Hw Hl]. rewrite Hw.
           assert (Hnext : forall w,
                      same_but_warnings (started (n - 1) w s)
                        (started (n - 1) w t)).
           { intros w. split; [reflexivity |].
             simpl. rewrite !filter_app, Hl. reflexivity. }
           destruct (process_job get_model (n - 1) (m_world t))
             as [[[] | e] w].
           ++ apply IH. apply Hnext.
           ++ split; [reflexivity | apply Hnext].
        -- rewrite !(job_loop_no_builder word _ n _ Hint Hinv Hnth).
           split; [reflexivity | exact Hst].
    + assert (Hk : keep word = true)
        by (unfold kept, out_of_range; rewrite Hint; reflexivity).
      rewrite Hk, !(job_loop_bad_word word _ e _ Hint).
      split; [reflexivity | exact Hst].
Qed.

End JobLoop.

(* ===================================================================== *)
(** ** The theorems at concrete inputs *)
(* ===================================================================== *)

(** A first batch whose validation pass fails in its first prediction
    call. *)
Lemma validation_failure_contained_witness :
  let E := Script.collaborators failing_validation in
  let s1 := snd (train_and_record E cfg0 "d" 0 0%nat 0%nat
                   (Script.init failing_validation)) in
  exists s3,
    validation_output E cfg0 "d" 0 s1 = (Ret tt, s3)
    /\ val_snap s3 = time_time E (world s3)
    /\ count (is_log LogValidationError) (trace s3) = 1%nat.
Proof.
  intros E s1.
  destruct (validation_failure_contained E cfg0 "d" 0 1%nat 0%nat
              0%nat 0%nat Script.start (Script.init failing_validation) s1
              (snd (validation_pass E cfg0 "d" 0
                      (add_event E (EvLog LogStartValidation) s1)))
              Exception)
    as (Hout & Hclock & _ & _).
  - reflexivity.
  - vm_compute. reflexivity.
  - vm_compute. reflexivity.
  - vm_compute. reflexivity.
  - eexists. split; [exact Hout |]. split; [exact Hclock |].
    vm_compute. reflexivity.
Defined.

(** A validation pass entered 241 ticks after [val_snap], with the budget
    of 24 ticks exceeded from the start. *)
Lemma early_exit_after_first_batch_witness :
  let E := Script.collaborators long_validation in
  let s := snd (train_and_record E cfg0 "d" 0 0%nat 0%nat
                  (Script.init long_validation)) in
  let s' := snd (validation_loop E cfg0 "d" 0 1000 0 s) in
  save_time_freq cfg0 / 10 < time_time E (world s) - val_snap s
  /\ (count is_pred (trace s) < count is_pred (trace s'))%nat
  /\ val_batch s < val_batch s'.
Proof.
  intros E s s'.
  destruct (early_exit_after_first_batch E cfg0 "d" 0 1000 0 s s')
    as (inputs & targets & w1 & loss & pred & w2 & w3
        & _ & _ & _ & Hpred & _ & Hvb).
  - vm_compute. reflexivity.
  - split; [vm_compute; reflexivity |]. split; [exact Hpred | exact Hvb].
Defined.

(** A run whose first training snapshot fails: the loop is left with
    one completed training invocation and no loss. *)
Lemma losses_track_completed_batches_witness :
  let E := Script.collaborators failing_snapshot in
  let s := Script.init failing_snapshot in
  let s' := snd (training E cfg0 "d" s) in
  let x := (0, 1000, 2000, 0%nat) in
  let s1 := snd (training_step E 0%nat 0%nat s) in
  let s2 := snd (training_output E cfg0 "d" 0 0%nat 0%nat 0%nat s1) in
  (trainings (trace s') = length (losses s')
   \/ trainings (trace s') = S (length (losses s')))
  /\ trainings (trace s') = 1%nat
  /\ train_and_record E cfg0 "d" 0 0%nat 0%nat s = (Raise Exception, s2)
  /\ trainings (trace s2) = S (trainings (trace s)).
Proof.
  intros E s s' x s1 s2.
  destruct (proj1 (losses_track_completed_batches E cfg0 "d")
              s s' (fst (training E cfg0 "d" s)))
    as [H _].
  - reflexivity.
  - vm_compute. reflexivity.
  - destruct (proj2 (proj2 (proj2 (proj2
                (losses_track_completed_batches E cfg0 "d"))))
                0 0%nat 0%nat s s1 s2 x Exception)
      as (Hrun & Hn & _).
    + vm_compute. reflexivity.
    + vm_compute. reflexivity.
    + split; [exact H |]. split; [vm_compute; reflexivity |].
      split; [exact Hrun | exact Hn].
Defined.

(** The instantaneous collaborators are fast and quiet. *)
Lemma instant_fast_and_quiet n : fast_and_quiet (Instant.collaborators n) cfg0.
Proof.
  constructor; try (intros; intro w; eexists; eexists; reflexivity).
  intros w w'. simpl. lia.
Defined.

(** An epoch of 350 instantaneous batches with the default frequency. *)
Lemma snapshot_cadence_witness :
  let E := Instant.collaborators 350 in
  exists s',
    epoch_body E cfg0 "d" 3 (init_state E 0%nat) = (Ret tt, s')
    /\ images (trace s')
       = ["d/model7_ep3_b100.png"; "d/model7_ep3_b200.png";
          "d/model7_ep3_b300.png"].
Proof.
  intros E.
  assert (Hf : save_batch_freq cfg0 <> 0) by (simpl; lia).
  destruct (proj2 (proj2 (proj2 (proj2 (snapshot_cadence E cfg0 "d" Hf))))
              (instant_fast_and_quiet 350) 3 350%nat (init_state E 0%nat)
              0%nat)
    as (s' & Hrun & Himg).
  - exists 0%nat. reflexivity.
  - exists 0%nat. reflexivity.
  - reflexivity.
  - exists s'. split; [exact Hrun |]. rewrite Himg.
    vm_compute. reflexivity.
Defined.

(* ===================================================================== *)
(** ** The two defects, for every run *)
(* ===================================================================== *)

(** The regularization list never holds a float, in any run. *)
Lemma regs_only_self_references (E : Collaborators) (cfg : config)
      (savedir : string) :
  stable only_self_references (training E cfg savedir).
Proof.
  apply training_stable; unfold only_self_references; intros; try assumption.
  simpl. apply Forall_app. split; [assumption |].
  constructor; [reflexivity | constructor].
Qed.

(** With a clock that does not run backwards and a non-negative time
    threshold, a validation pass that was started because more than
    [save_time_freq] had passed since [val_snap] makes at most one
    prediction call: the budget test after its first batch compares with
    the same [val_snap]. *)
Lemma validation_loop_at_most_one_batch
      (E : Collaborators) (cfg : config) (savedir : string) (epoch : Z)
      (todo i : nat) (s s' : state E) (r : outcome loop_exit) :
  (forall k, clock_monotone E (next_batch E ValSet k)) ->
  (forall a b, clock_monotone E (pred_fn E a b)) ->
  (forall p a, clock_monotone E (imsave E p a)) ->
  0 <= save_time_freq cfg ->
  save_time_freq cfg < time_time E (world s) - val_snap s ->
  validation_loop E cfg savedir epoch todo i s = (r, s') ->
  (count is_pred (trace s') <= count is_pred (trace s) + 1)%nat.
Proof.
  intros Hnext Hpred Hsave Hfreq Hfire H.
  destruct todo as [| todo]; simpl in H.
  - inversion H; subst. lia.
  - unfold bind, call, emit, log, modify, gets, now in H. simpl in H.
    pose proof (Hnext i (world s)) as M1.
    destruct (next_batch E ValSet i (world s))
      as [[[inputs targets] | e] w1]; simpl in H, M1;
      [| inversion H; subst; simpl; lia].
    pose proof (Hpred inputs (crop E targets) w1) as M2.
    destruct (pred_fn E inputs (crop E targets) w1)
      as [[[loss pred] | e] w2]; simpl in H, M2;
      [| inversion H; subst; simpl; lia].
    match type of H with
    | context [imsave E ?p ?a w2] =>
        pose proof (Hsave p a w2) as M3;
        destruct (imsave E p a w2) as [[[] | e] w3]; simpl in H, M3
    end.
    + assert (Hb : (save_time_freq cfg / 10 <? time_time E w3 - val_snap s)
                   = true).
      { apply Z.ltb_lt.
        assert (save_time_freq cfg / 10 <= save_time_freq cfg)
          by (apply Z.div_le_upper_bound; lia).
        lia. }
      rewrite Hb in H. inversion H; subst; simpl.
      rewrite !count_snoc. simpl. lia.
    + inversion H; subst; simpl. rewrite !count_snoc. simpl. lia.
Qed.

(* ===================================================================== *)
(** ** Directory names *)
(* ===================================================================== *)

Lemma has_char_sanitize c s :
  (forall d, sanitize_char d <> c) ->
  has_char c (sanitize_spec s) = false.
Proof.
  intros Hc. induction s as [| d s IH]; simpl; [reflexivity |].
  rewrite IH, orb_false_r. apply Ascii.eqb_neq. apply Hc.
Qed.

Lemma sanitize_char_never c d :
  (c = "+" \/ c = "-" \/ c = ".")%char -> sanitize_char d <> c.
Proof.
  intros Hc. unfold sanitize_char.
  destruct (Ascii.eqb_spec d "+") as [-> | H1];
    [destruct Hc as [-> | [-> | ->]]; intros H; discriminate H |].
  destruct (Ascii.eqb_spec d "-") as [-> | H2];
    [destruct Hc as [-> | [-> | ->]]; intros H; discriminate H |].
  destruct (Ascii.eqb_spec d ".") as [-> | H3];
    [destruct Hc as [-> | [-> | ->]]; intros H; discriminate H |].
  destruct Hc as [-> | [-> | ->]]; assumption.
Qed.

(** X1: the sanitised name holds none of the three characters that are
    replaced, whatever the name was. *)
Theorem regularize_name_clean :
  forall s,
    has_char "+" (regularize_name s) = false
    /\ has_char "-" (regularize_name s) = false
    /\ has_char "." (regularize_name s) = false.
Proof.
  intros s. rewrite regularize_name_sanitize.
  repeat split; apply has_char_sanitize; intros d;
    apply sanitize_char_never; auto.
Qed.

Lemma sanitize_char_idempotent c :
  sanitize_char (sanitize_char c) = sanitize_char c.
Proof.
  unfold sanitize_char at 2.
  destruct (Ascii.eqb_spec c "+") as [-> | H1]; [reflexivity |].
  destruct (Ascii.eqb_spec c "-") as [-> | H2]; [reflexivity |].
  destruct (Ascii.eqb_spec c ".") as [-> | H3]; [reflexivity |].
  unfold sanitize_char.
  destruct (Ascii.eqb_spec c "+"); [contradiction |].
  destruct (Ascii.eqb_spec c "-"); [contradiction |].
  destruct (Ascii.eqb_spec c "."); [contradiction | reflexivity].
Qed.

(** X2: sanitising twice is sanitising once, and the name keeps its length. *)
Theorem regularize_name_idempotent :
  forall s,
    regularize_name (regularize_name s) = regularize_name s
    /\ String.length (regularize_name s) = String.length s.
Proof.
  intros s. rewrite !regularize_name_sanitize.
  induction s as [| c s [IH1 IH2]]; simpl; [split; reflexivity |].
  rewrite IH1, IH2, sanitize_char_idempotent. split; reflexivity.
Qed.

Lemma sanitize_char_injective c d :
  (c <> "p" /\ c <> "m" /\ c <> "o")%char ->
  (d <> "p" /\ d <> "m" /\ d <> "o")%char ->
  sanitize_char c = sanitize_char d -> c = d.
Proof.
  intros (Hp & Hm & Ho) (Hp' & Hm' & Ho'). unfold sanitize_char.
  destruct (Ascii.eqb_spec c "+"), (Ascii.eqb_spec c "-"),
    (Ascii.eqb_spec c "."), (Ascii.eqb_spec d "+"), (Ascii.eqb_spec d "-"),
    (Ascii.eqb_spec d "."); subst; intros H;
    try reflexivity; try discriminate; congruence.
Qed.

Lemma regularize_name_cancel s :
  forall t,
    has_char "p" s = false -> has_char "m" s = false ->
    has_char "o" s = false ->
    has_char "p" t = false -> has_char "m" t = false ->
    has_char "o" t = false ->
    regularize_name s = regularize_name t -> s = t.
Proof.
  rewrite regularize_name_sanitize.
  induction s as [| c s IH]; intros t Hp Hm Ho Hp' Hm' Ho';
    rewrite regularize_name_sanitize; destruct t as [| d t]; simpl;
    intros H; try discriminate; [reflexivity |].
  simpl in Hp, Hm, Ho, Hp', Hm', Ho'.
  apply orb_false_iff in Hp, Hm, Ho, Hp', Hm', Ho'.
  destruct Hp as [Hp Hps], Hm as [Hm Hms], Ho as [Ho Hos].
  destruct Hp' as [Hp' Hpt], Hm' as [Hm' Hmt], Ho' as [Ho' Hot].
  apply Ascii.eqb_neq in Hp, Hm, Ho, Hp', Hm', Ho'.
  injection H as Hc Hrest.
  f_equal.
  - apply sanitize_char_injective; auto.
  - apply IH; auto. rewrite regularize_name_sanitize. exact Hrest.
Qed.

(** X3: two different names without [p], [m] and [o] sanitise to different
    names; without that condition two names can collide, as [E+] and
    [Ep] do. *)
Theorem regularize_name_injective :
  forall s t,
    has_char "p" s = false -> has_char "m" s = false ->
    has_char "o" s = false ->
    has_char "p" t = false -> has_char "m" t = false ->
    has_char "o" t = false ->
    s <> t ->
    regularize_name s <> regularize_name t
    /\ regularize_name "E+" = regularize_name "Ep".
Proof.
  intros s t Hp Hm Ho Hp' Hm' Ho' Hne. split; [| reflexivity].
  intros H. apply Hne. apply regularize_name_cancel; assumption.
Qed.

(** The dataset codes [H.E+T-] and [H.E-T+]. *)
Lemma regularize_name_injective_witness :
  regularize_name "H.E+T-" <> regularize_name "H.E-T+".
Proof.
  apply (regularize_name_injective "H.E+T-" "H.E-T+");
    try reflexivity.
  intros H. discriminate H.
Defined.

Lemma py_index_mapping n :
  py_index mapping n
  = if (-3 <=? n) && (n <? 3) then Ret (stain_char n) else Raise Exception.
Proof.
  unfold py_index, mapping. simpl length. simpl Z.of_nat.
  destruct (Z.leb_spec (-3) n); destruct (Z.ltb_spec n 3); simpl.
  - assert (Hn : n = -3 \/ n = -2 \/ n = -1 \/ n = 0 \/ n = 1 \/ n = 2)
      by lia.
    destruct Hn as [-> | [-> | [-> | [-> | [-> | ->]]]]]; reflexivity.
  - destruct (Z.ltb_spec n 0); [lia |].
    destruct (Z.leb_spec 0 n); [| lia].
    destruct (Z.ltb_spec n 3); [lia | reflexivity].
  - destruct (Z.ltb_spec n 0); [| lia].
    destruct (Z.leb_spec 0 (n + 3)); [lia | reflexivity].
  - lia.
Qed.

Lemma flag_char_ret i c :
  flag_char i = Ret c <->
  exists n, i = Given n /\ in_mapping n /\ c = stain_char n.
Proof.
  unfold in_mapping. destruct i as [| n]; simpl.
  - split; [discriminate | intros (n & H & _); discriminate].
  - rewrite py_index_mapping.
    destruct (Z.leb_spec (-3) n); destruct (Z.ltb_spec n 3); simpl; split;
      try discriminate.
    + intros [= <-]. exists n. repeat split; lia.
    + intros (m & [= <-] & _ & ->). reflexivity.
    + intros (m & [= <-] & Hm & _). lia.
    + intros (m & [= <-] & Hm & _). lia.
    + intros (m & [= <-] & Hm & _). lia.
Qed.

Lemma dataset_code_ret hematoxylin eosin thickness code :
  dataset_code hematoxylin eosin thickness = Ret code
  <-> exists h e t,
      hematoxylin = Given h /\ eosin = Given e /\ thickness = Given t
      /\ in_mapping h /\ in_mapping e /\ in_mapping t
      /\ code = String "H" (String (stain_char h) (String "E"
                 (String (stain_char e) (String "T"
                 (String (stain_char t) EmptyString))))).
Proof.
  revert hematoxylin eosin thickness code.
  intros fh fe ft code. unfold dataset_code. split.
  - destruct (flag_char fh) as [a | x] eqn:Ha; [| discriminate].
    destruct (flag_char fe) as [b | x] eqn:Hb; [| discriminate].
    destruct (flag_char ft) as [c | x] eqn:Hc; [| discriminate].
    simpl. intros [= <-].
    apply flag_char_ret in Ha, Hb, Hc.
    destruct Ha as (h & -> & Hh & ->), Hb as (e & -> & He & ->),
             Hc as (t & -> & Ht & ->).
    exists h, e, t. unfold in_mapping in *.
    repeat split; try reflexivity; lia.
  - intros (h & e & t & -> & -> & -> & Hh & He & Ht & ->).
    assert (Ha : flag_char (Given h) = Ret (stain_char h))
      by (apply flag_char_ret; exists h; auto).
    assert (Hb : flag_char (Given e) = Ret (stain_char e))
      by (apply flag_char_ret; exists e; auto).
    assert (Hc : flag_char (Given t) = Ret (stain_char t))
      by (apply flag_char_ret; exists t; auto).
    rewrite Ha, Hb, Hc. reflexivity.
Qed.

(** X4: the dataset code is built exactly when the three stain options are
    all given on the command line with values in [-3 .. 2]; the
    character of a value is chosen by its remainder modulo 3, so that the
    documented values 0, 1 and -1 give [-], [.] and [+].  An option left
    at its default, or a value outside the range, makes line 174 raise. *)
Theorem dataset_code_returns_iff :
  (forall hematoxylin eosin thickness code,
      dataset_code hematoxylin eosin thickness = Ret code
      <-> exists h e t,
          hematoxylin = Given h /\ eosin = Given e /\ thickness = Given t
          /\ in_mapping h /\ in_mapping e /\ in_mapping t
          /\ code = String "H" (String (stain_char h) (String "E"
                     (String (stain_char e) (String "T"
                     (String (stain_char t) EmptyString))))))
  /\ stain_char 0 = "-"%char /\ stain_char 1 = "."%char
  /\ stain_char (-1) = "+"%char
  /\ dataset_code Absent Absent Absent = Raise Exception.
Proof.
  split; [exact dataset_code_ret | repeat split].
Qed.

Lemma append_cancel_l (p a b : string) : p ++ a = p ++ b -> a = b.
Proof.
  induction p as [| c p IH]; simpl; [auto |].
  intros [= H]. apply IH. exact H.
Qed.

Lemma sanitized_stain_char_injective h h' :
  -1 <= h <= 1 -> -1 <= h' <= 1 ->
  sanitize_char (stain_char h) = sanitize_char (stain_char h') -> h = h'.
Proof.
  intros Hh Hh'.
  assert (H1 : h = -1 \/ h = 0 \/ h = 1) by lia.
  assert (H2 : h' = -1 \/ h' = 0 \/ h' = 1) by lia.
  destruct H1 as [-> | [-> | ->]], H2 as [-> | [-> | ->]];
    vm_compute; intros H; try reflexivity; discriminate H.
Qed.

(** X5: runs started with different stain options in [-1 .. 1], the same
    prefix and the same time stamp get different save directories. *)
Theorem savedir_name_separates_flags :
  forall dir_prefix timestamp h e t h' e' t' code code',
    -1 <= h <= 1 -> -1 <= e <= 1 -> -1 <= t <= 1 ->
    -1 <= h' <= 1 -> -1 <= e' <= 1 -> -1 <= t' <= 1 ->
    dataset_code (Given h) (Given e) (Given t) = Ret code ->
    dataset_code (Given h') (Given e') (Given t') = Ret code' ->
    (h, e, t) <> (h', e', t') ->
    savedir_name dir_prefix code timestamp
    <> savedir_name dir_prefix code' timestamp.
Proof.
  intros p ts h e t h' e' t' code code' Hh He Ht Hh' He' Ht' Hc Hc' Hne Hdir.
  apply dataset_code_ret in Hc, Hc'.
  destruct Hc as (a & b & c & [= <-] & [= <-] & [= <-] & _ & _ & _ & ->).
  destruct Hc' as (a' & b' & c' & [= <-] & [= <-] & [= <-] & _ & _ & _ & ->).
  unfold savedir_name in Hdir. apply append_cancel_l in Hdir.
  rewrite !regularize_name_sanitize in Hdir. simpl in Hdir.
  injection Hdir as Ha Hb Hc.
  apply sanitized_stain_char_injective in Ha, Hb, Hc; try assumption.
  apply Hne. congruence.
Qed.

(** The options [-H 1 -E 0 -T -1] against [-H 1 -E 0 -T 0]. *)
Lemma savedir_name_separates_flags_witness :
  savedir_name "run" "H.E-T+" 1000 <> savedir_name "run" "H.E-T-" 1000.
Proof.
  apply (savedir_name_separates_flags "run" 1000 1 0 (-1) 1 0 0);
    try lia; try reflexivity.
  intros H. discriminate H.
Defined.

(* ===================================================================== *)
(** ** Invariants of whole runs *)
(* ===================================================================== *)

Section Skeleton.

Variable E : Collaborators.
Variable cfg : config.
Variable savedir : string.

(** [I] holds between two batches, [R] when the loop is left. *)
Variables I R : state E -> Prop.

Hypothesis I_R : forall s, I s -> R s.
Hypothesis I_world : forall w s, I s -> I (set_world E w s).
Hypothesis I_epoch :
  forall s, I s -> I (set_val_batch E 0 (set_batch E 0 s)).
Hypothesis I_clocks :
  forall t s, I s -> I (set_val_snap E t (set_snap E t s)).
Hypothesis I_body :
  forall epoch inputs targets,
    triple I (batch_body E cfg savedir epoch inputs targets)
      (fun _ => I) (fun _ => R).

Lemma call_between {A} (f : World E -> outcome A * World E) :
  triple I (call E f) (fun _ => I) (fun _ => R).
Proof.
  intros s Hs. unfold call.
  destruct (f (world s)) as [[a | e] w]; [| apply I_R]; apply I_world;
    exact Hs.
Qed.

Lemma train_loop_between epoch todo :
  forall i,
    triple I (train_loop E cfg savedir epoch todo i)
      (fun _ => I) (fun _ => R).
Proof.
  induction todo as [| todo IH]; intros i; simpl.
  - apply triple_ret. auto.
  - eapply triple_bind; [apply call_between |].
    intros [inputs targets].
    eapply triple_bind; [apply I_body |].
    intros u. apply IH.
Qed.

Lemma epoch_body_between epoch :
  triple I (epoch_body E cfg savedir epoch) (fun _ => I) (fun _ => R).
Proof.
  intros s Hs. unfold epoch_body, bind, modify. simpl.
  pose proof (call_between (iterate E TrainSet)
                (set_val_batch E 0 (set_batch E 0 s)) (I_epoch s Hs)) as Hc.
  destruct (call E (iterate E TrainSet) (set_val_batch E 0 (set_batch E 0 s)))
    as [[n | e] s1]; [| exact Hc].
  apply train_loop_between. exact Hc.
Qed.

Lemma epochs_between todo :
  forall epoch,
    triple I (epochs E cfg savedir todo epoch) (fun _ => I) (fun _ => R).
Proof.
  induction todo as [| todo IH]; intros epoch; simpl.
  - apply triple_ret. auto.
  - eapply triple_bind; [apply epoch_body_between |].
    intros u. apply IH.
Qed.

Lemma training_between :
  triple I (training E cfg savedir) (fun _ => I) (fun _ => R).
Proof.
  intros s Hs.
  change (training E cfg savedir s)
    with (epochs E cfg savedir 20 0
            (set_val_snap E (time_time E (world s))
               (set_snap E (time_time E (world s)) s))).
  apply epochs_between. apply I_clocks. exact Hs.
Qed.

Hypothesis R_world : forall w s, R s -> R (set_world E w s).
Hypothesis R_log : forall m s, R s -> R (add_event E (EvLog m) s).
Hypothesis R_checkpoint :
  forall p d s, R s -> R (add_event E (EvCheckpoint p d) s).

(** From the first statement after the set-up to the end. *)
Lemma run_loop_ends (s : state E) :
  I s -> R (snd (run_loop E cfg savedir s)).
Proof.
  intros Hs. unfold run_loop, bind, guarded_training, try_except.
  pose proof (training_between s Hs) as Ht.
  pose proof (finalization_stable E cfg savedir R R_world R_log
                R_checkpoint) as Hfin.
  destruct (training E cfg savedir s) as [[[] | e] s1].
  - apply (stable_run R); [exact Hfin | apply I_R; exact Ht].
  - destruct e; cbn -[finalization]; try exact Ht;
      (apply (stable_run R); [exact Hfin | apply R_log; exact Ht]).
Qed.

End Skeleton.

Section RunInvariant.

Variable E : Collaborators.
Variable cfg : config.
Variables I R : state E -> Prop.

Hypothesis I_R : forall s, I s -> R s.
Hypothesis I_world : forall w s, I s -> I (set_world E w s).
Hypothesis I_log : forall m s, I s -> I (add_event E (EvLog m) s).
Hypothesis I_epoch :
  forall s, I s -> I (set_val_batch E 0 (set_batch E 0 s)).
Hypothesis I_clocks :
  forall t s, I s -> I (set_val_snap E t (set_snap E t s)).
Hypothesis I_body :
  forall savedir epoch inputs targets,
    triple I (batch_body E cfg savedir epoch inputs targets)
      (fun _ => I) (fun _ => R).
Hypothesis R_world : forall w s, R s -> R (set_world E w s).
Hypothesis R_log : forall m s, R s -> R (add_event E (EvLog m) s).
Hypothesis R_checkpoint :
  forall p d s, R s -> R (add_event E (EvCheckpoint p d) s).

(** A run that starts in [I] ends in [R], however it ends. *)
Lemma run_solver_ends (s : state E) :
  I s -> R (snd (run_solver E cfg s)).
Proof.
  intros Hs. unfold run_solver, bind.
  pose proof (setup_stable E cfg I I_world I_log s Hs) as H0.
  destruct (setup E cfg s) as [[savedir | e] s1]; simpl.
  - apply (run_loop_ends E cfg savedir I R); auto.
  - apply I_R. exact H0.
Qed.

End RunInvariant.

(** What the finalization has written when it is over. *)
Lemma finalization_checkpoints (E : Collaborators) (cfg : config)
      (savedir : string) (s : state E) :
  checkpoints (trace s) = [] ->
  let s' := snd (finalization E cfg savedir s) in
  losses s' = losses s /\ regs s' = regs s
  /\ (checkpoints (trace s') = []
      \/ exists weights,
          checkpoints (trace s')
          = [(checkpoint_npz cfg savedir, final_checkpoint E cfg weights s)]).
Proof.
  intros Hs. rewrite finalization_cases.
  destruct (get_all_param_values E (world s)) as [[weights | e] w1].
  - destruct (pickle_dump E _ _ w1) as [[[] | e] w2]; cbn -[checkpoints];
      rewrite !checkpoints_app, Hs; simpl; repeat split; auto.
    right. exists weights. reflexivity.
  - cbn -[checkpoints]. rewrite !checkpoints_app, Hs. simpl.
    repeat split; auto.
Qed.

(** What a run has written when it is over. *)
Lemma run_loop_checkpoints (E : Collaborators) (cfg : config)
      (savedir : string) (s : state E) :
  checkpoints (trace s) = [] ->
  let s' := snd (run_loop E cfg savedir s) in
  checkpoints (trace s') = []
  \/ exists weights,
      checkpoints (trace s')
      = [(checkpoint_npz cfg savedir, final_checkpoint E cfg weights s')].
Proof.
  intros Hs. unfold run_loop, bind, guarded_training, try_except.
  pose proof (stable_run _ _ s (training_no_checkpoint E cfg savedir) Hs)
    as Ht.
  unfold no_checkpoint in Ht.
  assert (Hfin : forall s0 : state E,
             checkpoints (trace s0) = [] ->
             let s' := snd (finalization E cfg savedir s0) in
             checkpoints (trace s') = []
             \/ exists weights,
                 checkpoints (trace s')
                 = [(checkpoint_npz cfg savedir,
                     final_checkpoint E cfg weights s')]).
  { intros s0 H0 s'.
    destruct (finalization_checkpoints E cfg savedir s0 H0)
      as (Hl & Hr & [H | [weights H]]); fold s' in Hl, Hr, H.
    - left. exact H.
    - right. exists weights. rewrite H. unfold final_checkpoint.
      rewrite Hl, Hr. reflexivity. }
  destruct (training E cfg savedir s) as [[[] | e] s1]; simpl in Ht.
  - apply Hfin. exact Ht.
  - destruct e; cbn -[finalization checkpoints].
    + apply Hfin. cbn -[checkpoints]. rewrite checkpoints_app, Ht.
      reflexivity.
    + apply Hfin. cbn -[checkpoints]. rewrite checkpoints_app, Ht.
      reflexivity.
    + left. exact Ht.
Qed.

Lemma run_solver_checkpoints (E : Collaborators) (cfg : config)
      (w : World E) :
  let s := snd (run_solver E cfg (init_state E w)) in
  checkpoints (trace s) = []
  \/ exists savedir weights,
      checkpoints (trace s)
      = [(checkpoint_npz cfg savedir, final_checkpoint E cfg weights s)].
Proof.
  unfold run_solver, bind.
  pose proof (stable_run _ _ (init_state E w) (setup_no_checkpoint E cfg)
                eq_refl) as H0.
  destruct (setup E cfg (init_state E w)) as [[savedir | e] s1];
    simpl in H0 |- *.
  - destruct (run_loop_checkpoints E cfg savedir s1 H0)
      as [H | [weights H]].
    + left. exact H.
    + right. exists savedir, weights. exact H.
  - left. exact H0.
Qed.

Lemma checkpoint_of_final_state (E : Collaborators) (cfg : config)
      (w : World E) p ck :
  let s := snd (run_solver E cfg (init_state E w)) in
  In (p, ck) (checkpoints (trace s)) ->
  exists weights, ck = final_checkpoint E cfg weights s.
Proof.
  intros s Hin.
  destruct (run_solver_checkpoints E cfg w) as [H | (savedir & weights & H)];
    fold s in H; rewrite H in Hin; simpl in Hin.
  - contradiction.
  - destruct Hin as [[= _ <-] | []]. exists weights. reflexivity.
Qed.

Section ListInvariants.

Variable E : Collaborators.
Variable cfg : config.

Lemma regs_mirror_losses_body savedir epoch inputs targets :
  stable regs_mirror_losses
    (batch_body E cfg savedir epoch inputs targets).
Proof.
  unfold batch_body, train_and_record.
  apply stable_bind; [| intros u; apply validation_output_stable; auto].
  apply stable_bind; [apply training_step_stable; auto |].
  intros [[[error loss] reg] pred].
  apply stable_bind; [apply training_output_stable; auto | intros u].
  intros s [Hlen Hall].
  unfold record_metrics, bind, log, emit, modify, gets. simpl.
  unfold regs_mirror_losses. simpl. split.
  - rewrite !length_app. simpl. lia.
  - apply Forall_app. split; [exact Hall |].
    constructor; [reflexivity | constructor].
Qed.

Lemma regs_mirror_losses_run (w : World E) :
  regs_mirror_losses (snd (run_solver E cfg (init_state E w))).
Proof.
  apply (run_solver_ends E cfg regs_mirror_losses regs_mirror_losses);
    auto.
  - intros savedir epoch inputs targets.
    apply regs_mirror_losses_body.
  - split; [reflexivity | constructor].
Qed.

Lemma train_losses_snoc (t : list (event (Scalar E) (Params E))) e :
  train_losses (t ++ [e])%list
  = (train_losses t
     ++ match e with EvTrain loss _ => [loss] | _ => [] end)%list.
Proof.
  induction t as [| d t IH]; simpl.
  - destruct e; reflexivity.
  - destruct d; simpl; rewrite IH; reflexivity.
Qed.

Lemma train_losses_other e (s : state E) :
  is_train e = false ->
  train_losses (trace (add_event E e s)) = train_losses (trace s).
Proof.
  intros He. simpl. rewrite train_losses_snoc.
  destruct e; try discriminate; apply app_nil_r.
Qed.

Lemma losses_recorded_other e (s : state E) :
  is_train e = false ->
  losses_recorded s -> losses_recorded (add_event E e s).
Proof.
  unfold losses_recorded. intros He Hs.
  rewrite train_losses_other by exact He. exact Hs.
Qed.

Lemma loss_pending_other x e (s : state E) :
  is_train e = false ->
  loss_pending x s -> loss_pending x (add_event E e s).
Proof.
  unfold loss_pending. intros He Hs.
  rewrite train_losses_other by exact He. exact Hs.
Qed.

Lemma losses_recorded_body savedir epoch inputs targets :
  triple losses_recorded (batch_body E cfg savedir epoch inputs targets)
    (fun _ => losses_recorded) (fun _ => losses_recorded_but_last).
Proof.
  unfold batch_body, train_and_record.
  eapply triple_bind with (Q' := fun _ => losses_recorded).
  - eapply triple_bind
      with (Q' := fun r => loss_pending (snd (fst (fst r)))).
    + intros s Hs. unfold training_step, bind, call, emit, modify, gets.
      destruct (train_fn E inputs (crop E targets) (world s))
        as [[r | e] w]; simpl.
      * unfold loss_pending. simpl. rewrite train_losses_snoc, map_app.
        unfold losses_recorded in Hs. simpl in Hs. rewrite Hs. reflexivity.
      * left. exact Hs.
    + intros [[[error loss] reg] pred]. simpl.
      eapply triple_bind with (Q' := fun _ => loss_pending loss).
      * eapply triple_weaken.
        -- apply (training_output_stable E cfg savedir (loss_pending loss));
             intros; try (apply loss_pending_other; [reflexivity |]);
             assumption.
        -- auto.
        -- auto.
        -- intros e s Hs. right. exists loss. exact Hs.
      * intros u s Hs. simpl.
        unfold losses_recorded, loss_pending in *. simpl.
        rewrite train_losses_snoc, app_nil_r. exact Hs.
  - intros u. eapply triple_weaken.
    + apply (validation_output_stable E cfg savedir losses_recorded);
        intros; try (apply losses_recorded_other; [reflexivity |]);
        assumption.
    + auto.
    + auto.
    + intros e s Hs. left. exact Hs.
Qed.

Lemma losses_recorded_run (w : World E) :
  losses_recorded_but_last (snd (run_solver E cfg (init_state E w))).
Proof.
  apply (run_solver_ends E cfg losses_recorded losses_recorded_but_last).
  - intros s Hs. left. exact Hs.
  - auto.
  - intros. apply losses_recorded_other; [reflexivity | assumption].
  - auto.
  - auto.
  - intros savedir epoch inputs targets. apply losses_recorded_body.
  - intros w0 s [Hs | [x Hs]]; [left | right; exists x]; exact Hs.
  - intros m s [Hs | [x Hs]].
    + left. apply losses_recorded_other; [reflexivity | assumption].
    + right. exists x. apply loss_pending_other; [reflexivity | assumption].
  - intros p d s [Hs | [x Hs]].
    + left. apply losses_recorded_other; [reflexivity | assumption].
    + right. exists x. apply loss_pending_other; [reflexivity | assumption].
  - reflexivity.
Qed.

End ListInvariants.

(** X6: in every run the regularization list is as long as the losses list
    and holds nothing but references to itself, and so does every
    checkpoint. *)
Theorem regularization_mirrors_losses :
  forall (E : Collaborators) (cfg : config) (w : World E),
    let s := snd (run_solver E cfg (init_state E w)) in
    length (regs s) = length (losses s)
    /\ Forall (fun v => v = PyRef RegsList) (regs s)
    /\ (forall p ck,
           In (p, ck) (checkpoints (trace s)) ->
           length (ck_regularization ck) = length (ck_losses ck)
           /\ Forall (fun v => v = PyRef RegsList) (ck_regularization ck)).
Proof.
  intros E cfg w s.
  destruct (regs_mirror_losses_run E cfg w) as [Hlen Hall].
  split; [exact Hlen |]. split; [exact Hall |].
  intros p ck Hin.
  apply checkpoint_of_final_state in Hin. destruct Hin as [weights ->].
  simpl. split; [exact Hlen | exact Hall].
Qed.

(** X7: in every run the losses list holds the losses the training function
    returned, in the order of the calls and without a gap; only the loss
    of the last call can be missing.  The same holds for the losses of a
    checkpoint. *)
Theorem losses_are_the_returned_losses :
  forall (E : Collaborators) (cfg : config) (w : World E),
    let s := snd (run_solver E cfg (init_state E w)) in
    (losses s = map PyFloat (train_losses (trace s))
     \/ exists x,
         (losses s ++ [PyFloat x])%list
         = map PyFloat (train_losses (trace s)))
    /\ (forall p ck,
           In (p, ck) (checkpoints (trace s)) -> ck_losses ck = losses s).
Proof.
  intros E cfg w s. split.
  - exact (losses_recorded_run E cfg w).
  - intros p ck Hin. apply checkpoint_of_final_state in Hin.
    destruct Hin as [weights ->]. reflexivity.
Qed.

(* ===================================================================== *)
(** ** Edge cases of a run *)
(* ===================================================================== *)

Section EdgeCases.

Variable E : Collaborators.
Variable cfg : config.

Lemma only_logged_log m (s : state E) :
  only_logged s -> only_logged (add_event E (EvLog m) s).
Proof.
  unfold only_logged, trainings. simpl.
  rewrite !count_snoc, images_app, checkpoints_app. simpl.
  rewrite !app_nil_r. intros (H1 & H2 & H3 & H4 & H5 & H6).
  repeat split; try assumption; lia.
Qed.

Lemma setup_only_logged (w : World E) :
  only_logged (snd (setup E cfg (init_state E w))).
Proof.
  apply (stable_run only_logged).
  - apply setup_stable; [auto | apply only_logged_log].
  - repeat split.
Qed.

Lemma epochs_step savedir todo epoch :
  epochs E cfg savedir (S todo) epoch
  = bind (epoch_body E cfg savedir epoch)
      (fun _ => epochs E cfg savedir todo (epoch + 1)).
Proof. reflexivity. Qed.

Lemma training_unfold savedir (s : state E) :
  training E cfg savedir s
  = epochs E cfg savedir 20 0
      (set_val_snap E (time_time E (world s))
         (set_snap E (time_time E (world s)) s)).
Proof. reflexivity. Qed.

Lemma epoch_body_unfold savedir epoch (s : state E) n w :
  iterate E TrainSet (world s) = (Ret n, w) ->
  epoch_body E cfg savedir epoch s
  = train_loop E cfg savedir epoch n 0
      (set_world E w (set_val_batch E 0 (set_batch E 0 s))).
Proof.
  intros H. unfold epoch_body, bind, modify, call. simpl. rewrite H.
  reflexivity.
Qed.

(** The state after a finalization that wrote the checkpoint. *)
Lemma finalization_returns savedir (s : state E) :
  checkpoint_write_returns E ->
  exists weights w1 w2,
    get_all_param_values E (world s) = (Ret weights, w1)
    /\ pickle_dump E (checkpoint_npz cfg savedir)
         (final_checkpoint E cfg weights s) w1 = (Ret tt, w2)
    /\ finalization E cfg savedir s
       = (Ret tt,
          add_event E (EvLog LogSavedWeights)
            (add_event E (EvCheckpoint (checkpoint_npz cfg savedir)
                            (final_checkpoint E cfg weights s))
               (set_world E w2 (add_event E (EvLog LogSavingNetwork) s)))).
Proof.
  intros Hw.
  destruct (cw_read E Hw (world s)) as (weights & w1 & Hread).
  destruct (cw_dump E Hw (checkpoint_npz cfg savedir)
              (final_checkpoint E cfg weights s) w1) as ([] & w2 & Hdump).
  exists weights, w1, w2. split; [exact Hread |]. split; [exact Hdump |].
  exact (finalization_run E cfg savedir s weights w1 w2 Hread Hdump).
Qed.

(** When the loop returned, the end of the run. *)
Lemma run_loop_returned savedir (s s2 : state E) :
  training E cfg savedir s = (Ret tt, s2) ->
  run_loop E cfg savedir s = finalization E cfg savedir s2.
Proof.
  intros H. unfold run_loop, bind, guarded_training, try_except.
  rewrite H. reflexivity.
Qed.

(** When the loop raised an [Exception], the end of the run. *)
Lemma run_loop_failed savedir (s s2 : state E) :
  training E cfg savedir s = (Raise Exception, s2) ->
  run_loop E cfg savedir s
  = finalization E cfg savedir
      (add_event E (EvLog LogUnhandledException) s2).
Proof.
  intros H. unfold run_loop, bind, guarded_training, try_except.
  rewrite H. reflexivity.
Qed.

Section EmptySet.

Hypothesis empty : empty_training_set E.

Lemma epochs_empty savedir todo :
  forall epoch (s : state E),
    exists s',
      epochs E cfg savedir todo epoch s = (Ret tt, s')
      /\ same_records s s'.
Proof.
  induction todo as [| todo IH]; intros epoch s.
  - exists s. repeat split.
  - destruct (empty (world s)) as [w Hit].
    destruct (IH (epoch + 1)
                (set_world E w (set_val_batch E 0 (set_batch E 0 s))))
      as (s' & Hrun & Hsame).
    exists s'. split; [| exact Hsame].
    rewrite epochs_step. unfold bind at 1.
    rewrite (epoch_body_unfold savedir epoch s 0 w Hit). exact Hrun.
Qed.

End EmptySet.

Section ZeroFrequency.

Hypothesis zero : save_batch_freq cfg = 0.
Hypothesis nonempty : nonempty_training_set E.
Hypothesis next_returns : forall i, returns (next_batch E TrainSet i).
Hypothesis train_returns : forall a b, returns (train_fn E a b).

Lemma training_divides_by_zero savedir (s : state E) :
  exists s2 loss reg,
    training E cfg savedir s = (Raise Exception, s2)
    /\ trace s2 = (trace s ++ [EvTrain loss reg])%list
    /\ losses s2 = losses s /\ regs s2 = regs s.
Proof.
  rewrite training_unfold.
  set (s0 := set_val_snap E _ (set_snap E _ s)).
  destruct (nonempty (world s0)) as (n & w1 & Hit).
  destruct (next_returns 0%nat w1) as ([inputs targets] & w2 & Hnext).
  destruct (train_returns inputs (crop E targets) w2)
    as ([[[error loss] reg] pred] & w3 & Htrain).
  eexists. exists loss, reg. split.
  - rewrite epochs_step. unfold bind at 1.
    rewrite (epoch_body_unfold savedir 0 s0 (S n) w1 Hit).
    simpl train_loop. unfold bind at 1. unfold call at 1. simpl world.
    rewrite Hnext.
    unfold batch_body, train_and_record, training_step.
    unfold bind, call, emit, modify, gets. simpl world. rewrite Htrain.
    unfold training_output, snapshot_due, bind, gets, py_mod. simpl.
    rewrite zero. simpl. reflexivity.
  - simpl. repeat split.
Qed.

End ZeroFrequency.

Section FullRun.

Variable n : nat.
Variable savedir : string.
Hypothesis quiet : training_side_returns E cfg savedir.
Hypothesis batches : training_batches E n.
Hypothesis freq_nonzero : save_batch_freq cfg <> 0.

Lemma training_output_returns epoch inputs targets pred (s : state E) :
  exists s', training_output E cfg savedir epoch inputs targets pred s
             = (Ret tt, s').
Proof.
  destruct (snapshot_fires cfg (batch s) (time_time E (world s)) (snap s))
    eqn:Hdue.
  - destruct (tr_imsave E cfg savedir quiet epoch (batch s)
                (composite E (crop E inputs) pred (crop E targets))
                (world s)) as ([] & w1 & Hsave).
    destruct (tr_dump E cfg savedir quiet w1) as ([] & w2 & Hdump).
    eexists.
    apply (training_output_fires E cfg savedir epoch inputs targets pred
             s w1 w2 freq_nonzero Hdue Hsave Hdump).
  - exists s. apply training_output_idle; assumption.
Qed.

Lemma batch_body_returns epoch inputs targets (s : state E) :
  exists s',
    batch_body E cfg savedir epoch inputs targets s = (Ret tt, s')
    /\ trainings (trace s') = S (trainings (trace s))
    /\ length (losses s') = S (length (losses s)).
Proof.
  destruct (tr_train E cfg savedir quiet inputs (crop E targets) (world s))
    as ([[[error loss] reg] pred] & w1 & Htrain).
  assert (Hstep : exists s1,
             training_step E inputs targets s
             = (Ret (error, loss, reg, pred), s1)).
  { eexists. unfold training_step, bind, call, emit, modify, gets.
    rewrite Htrain. reflexivity. }
  destruct Hstep as (s1 & Hstep).
  destruct (training_output_returns epoch inputs targets pred s1)
    as (s2 & Hout).
  destruct (record_metrics_metrics E loss s2) as (s3 & Hrec & _).
  assert (Htr : train_and_record E cfg savedir epoch inputs targets s
                = (Ret tt, s3)).
  { unfold train_and_record.
    rewrite (bind_run E _ _ _ _ _ Hstep). simpl.
    rewrite (bind_run E _ _ _ _ _ Hout). exact Hrec. }
  destruct (train_and_record_metrics E cfg savedir epoch inputs targets
              s s3 Htr) as [Hn Hl].
  destruct (validation_output_returns E cfg savedir epoch s3) as (s4 & Hval).
  pose proof (stable_run _ _ s3
                (validation_output_metrics E cfg savedir epoch
                   (trainings (trace s3)) (losses s3))
                (conj eq_refl eq_refl)) as Hm.
  rewrite Hval in Hm. destruct Hm as [Hn4 Hl4]. simpl in Hn4, Hl4.
  exists s4. split.
  - unfold batch_body. rewrite (bind_run E _ _ _ _ _ Htr). exact Hval.
  - rewrite Hn4, Hl4. split; assumption.
Qed.

Lemma train_loop_returns epoch todo :
  forall i (s : state E),
    exists s',
      train_loop E cfg savedir epoch todo i s = (Ret tt, s')
      /\ trainings (trace s') = (trainings (trace s) + todo)%nat
      /\ length (losses s') = (length (losses s) + todo)%nat.
Proof.
  induction todo as [| todo IH]; intros i s.
  - exists s. repeat split; lia.
  - destruct (tr_next E cfg savedir quiet i (world s))
      as ([inputs targets] & w1 & Hnext).
    destruct (batch_body_returns epoch inputs targets
                (set_world E w1 s)) as (s1 & Hbody & Hn1 & Hl1).
    destruct (IH (S i) s1) as (s' & Hloop & Hn & Hl).
    exists s'. split.
    + simpl. unfold bind at 1. unfold call. rewrite Hnext.
      unfold bind at 1. rewrite Hbody. exact Hloop.
    + simpl in Hn1, Hl1. rewrite Hn, Hl, Hn1, Hl1. split; lia.
Qed.

Lemma epochs_returns todo :
  forall epoch (s : state E),
    exists s',
      epochs E cfg savedir todo epoch s = (Ret tt, s')
      /\ trainings (trace s') = (trainings (trace s) + todo * n)%nat
      /\ length (losses s') = (length (losses s) + todo * n)%nat.
Proof.
  induction todo as [| todo IH]; intros epoch s.
  - exists s. repeat split; lia.
  - destruct (batches (world s)) as [w Hit].
    destruct (train_loop_returns epoch n 0
                (set_world E w (set_val_batch E 0 (set_batch E 0 s))))
      as (s1 & Hloop & Hn1 & Hl1).
    destruct (IH (epoch + 1) s1) as (s' & Hrun & Hn & Hl).
    exists s'. split.
    + rewrite epochs_step. unfold bind at 1.
      rewrite (epoch_body_unfold savedir epoch s n w Hit), Hloop.
      exact Hrun.
    + simpl in Hn1, Hl1. rewrite Hn, Hl, Hn1, Hl1. split; lia.
Qed.

End FullRun.

End EdgeCases.

(** X8: a failure of the set-up (dataset, save directory, iterator, output
    shape) leaves [run_solver] as it is raised: nothing is trained, no
    image and no checkpoint is written. *)
Theorem setup_failure_propagates :
  forall (E : Collaborators) (cfg : config) (w : World E) (e : exn)
         (s1 : state E),
    setup E cfg (init_state E w) = (Raise e, s1) ->
    run_solver E cfg (init_state E w) = (Raise e, s1)
    /\ trainings (trace s1) = 0%nat
    /\ images (trace s1) = []
    /\ checkpoints (trace s1) = [].
Proof.
  intros E cfg w e s1 Hsetup.
  pose proof (setup_only_logged E cfg w) as H. rewrite Hsetup in H.
  destruct H as (H1 & _ & H3 & H4 & _).
  split; [| auto].
  unfold run_solver, bind. rewrite Hsetup. reflexivity.
Qed.

(** X9: with a training set that yields no batch, a run whose checkpoint
    write returns goes through its 20 epochs without a training or
    prediction call and without an image, returns normally and writes
    one checkpoint with empty lists and the parameters read out. *)
Theorem empty_training_set_run :
  forall (E : Collaborators) (cfg : config) (w : World E)
         (savedir : string) (s1 : state E),
    empty_training_set E ->
    checkpoint_write_returns E ->
    setup E cfg (init_state E w) = (Ret savedir, s1) ->
    exists s weights,
      run_solver E cfg (init_state E w) = (Ret tt, s)
      /\ trainings (trace s) = 0%nat
      /\ count is_pred (trace s) = 0%nat
      /\ images (trace s) = []
      /\ checkpoints (trace s)
         = [(PyStr.path_join savedir
               (PyStr.str (experiment_id cfg) ++ ".npz"),
             {| ck_params := weights;
                ck_losses := [];
                ck_regularization := [];
                ck_model_id := model_id cfg |})]
      /\ exists w0 w1,
          get_all_param_values E w0 = (Ret weights, w1)
          /\ pickle_dump E
               (PyStr.path_join savedir
                  (PyStr.str (experiment_id cfg) ++ ".npz"))
               {| ck_params := weights;
                  ck_losses := [];
                  ck_regularization := [];
                  ck_model_id := model_id cfg |} w1
             = (Ret tt, world s).
Proof.
  intros E cfg w savedir s1 Hempty Hwrite Hsetup.
  pose proof (setup_only_logged E cfg w) as H. rewrite Hsetup in H.
  destruct H as (H1 & H2 & H3 & H4 & H5 & H6). simpl in *.
  destruct (epochs_empty E cfg Hempty savedir 20 0
              (set_val_snap E (time_time E (world s1))
                 (set_snap E (time_time E (world s1)) s1)))
    as (s2 & Hrun & Ht & Hl & Hr).
  rewrite <- training_unfold in Hrun. simpl in Ht, Hl, Hr.
  destruct (finalization_returns E cfg savedir s2 Hwrite)
    as (weights & w1 & w2 & Hread & Hdump & Hfin).
  unfold final_checkpoint in Hdump, Hfin.
  rewrite Hl, Hr, H5, H6 in Hdump, Hfin.
  eexists. exists weights. split.
  - unfold run_solver, bind. rewrite Hsetup.
    rewrite (run_loop_returned E cfg savedir s1 s2 Hrun). exact Hfin.
  - unfold trainings. cbn -[checkpoints images count].
    rewrite !count_snoc, !images_app, !checkpoints_app, Ht. simpl.
    unfold trainings in H1. rewrite H1, H2, H3, H4. simpl.
    repeat split.
    exists (world s2), w1. split; [exact Hread | exact Hdump].
Qed.

(** X10: with [save_batch_freq = 0] the cadence test of the first batch
    divides by zero: the run ends after one training call and logs the
    unhandled exception; when its checkpoint write returns, it returns
    normally and has written a checkpoint without any loss. *)
Theorem zero_batch_frequency_run :
  forall (E : Collaborators) (cfg : config) (w : World E)
         (savedir : string) (s1 : state E),
    save_batch_freq cfg = 0 ->
    nonempty_training_set E ->
    (forall i, returns (next_batch E TrainSet i)) ->
    (forall a b, returns (train_fn E a b)) ->
    checkpoint_write_returns E ->
    setup E cfg (init_state E w) = (Ret savedir, s1) ->
    exists s loss reg weights,
      run_solver E cfg (init_state E w) = (Ret tt, s)
      /\ trace s
         = (trace s1
            ++ [EvTrain loss reg; EvLog LogUnhandledException;
                EvLog LogSavingNetwork;
                EvCheckpoint
                  (PyStr.path_join savedir
                     (PyStr.str (experiment_id cfg) ++ ".npz"))
                  {| ck_params := weights;
                     ck_losses := [];
                     ck_regularization := [];
                     ck_model_id := model_id cfg |};
                EvLog LogSavedWeights])%list
      /\ trainings (trace s) = 1%nat
      /\ losses s = []
      /\ exists w0 w1,
          get_all_param_values E w0 = (Ret weights, w1)
          /\ pickle_dump E
               (PyStr.path_join savedir
                  (PyStr.str (experiment_id cfg) ++ ".npz"))
               {| ck_params := weights;
                  ck_losses := [];
                  ck_regularization := [];
                  ck_model_id := model_id cfg |} w1
             = (Ret tt, world s).
Proof.
  intros E cfg w savedir s1 Hzero Hne Hnext Htrain Hwrite Hsetup.
  pose proof (setup_only_logged E cfg w) as H. rewrite Hsetup in H.
  destruct H as (H1 & H2 & H3 & H4 & H5 & H6). simpl in *.
  destruct (training_divides_by_zero E cfg Hzero Hne Hnext Htrain savedir s1)
    as (s2 & loss & reg & Hrun & Ht & Hl & Hr).
  destruct (finalization_returns E cfg savedir
              (add_event E (EvLog LogUnhandledException) s2) Hwrite)
    as (weights & w1 & w2 & Hread & Hdump & Hfin).
  unfold final_checkpoint in Hdump, Hfin. simpl in Hread, Hdump, Hfin.
  rewrite Hl, Hr, H5, H6 in Hdump, Hfin.
  eexists. exists loss, reg, weights. split.
  - unfold run_solver, bind. rewrite Hsetup.
    rewrite (run_loop_failed E cfg savedir s1 s2 Hrun). exact Hfin.
  - cbn -[count]. rewrite Ht, Hl, H5.
    split; [rewrite <- !app_assoc; reflexivity |].
    split; [| split; [reflexivity |]].
    + unfold trainings in *. rewrite !count_snoc. simpl. lia.
    + exists (world s2), w1. split; [exact Hread | exact Hdump].
Qed.

(** X11: when the calls of the training side (batch fetch, training
    function, snapshot image write, layer dump) and the final checkpoint
    write return and [save_batch_freq] is not 0, a run over a training
    set of [n] batches trains exactly [20 * n] batches and records as
    many losses, whatever the validation passes do, the writes of their
    images included. *)
Theorem full_run_trains_every_batch :
  forall (E : Collaborators) (cfg : config) (w : World E)
         (savedir : string) (s1 : state E) (n : nat),
    training_side_returns E cfg savedir ->
    checkpoint_write_returns E ->
    training_batches E n ->
    save_batch_freq cfg <> 0 ->
    setup E cfg (init_state E w) = (Ret savedir, s1) ->
    exists s,
      run_solver E cfg (init_state E w) = (Ret tt, s)
      /\ trainings (trace s) = (20 * n)%nat
      /\ length (losses s) = (20 * n)%nat.
Proof.
  intros E cfg w savedir s1 n Hq Hwrite Hn Hf Hsetup.
  pose proof (setup_only_logged E cfg w) as H. rewrite Hsetup in H.
  destruct H as (H1 & H2 & H3 & H4 & H5 & H6). simpl in *.
  destruct (epochs_returns E cfg n savedir Hq Hn Hf 20 0
              (set_val_snap E (time_time E (world s1))
                 (set_snap E (time_time E (world s1)) s1)))
    as (s2 & Hrun & Ht & Hl).
  rewrite <- training_unfold in Hrun. simpl in Ht, Hl.
  destruct (finalization_returns E cfg savedir s2 Hwrite)
    as (weights & w1 & w2 & _ & _ & Hfin).
  eexists. split.
  - unfold run_solver, bind. rewrite Hsetup.
    rewrite (run_loop_returned E cfg savedir s1 s2 Hrun). exact Hfin.
  - unfold trainings in *. cbn -[count Nat.mul].
    rewrite !count_snoc. simpl.
    rewrite Ht, Hl, H1, H5. simpl length. split; lia.
Qed.

(* ===================================================================== *)
(** ** Prediction calls and validation passes *)
(* ===================================================================== *)

Section OnePrediction.

Variable E : Collaborators.
Variable cfg : config.

Hypothesis monotone : validation_clock_monotone E.
Hypothesis freq_nonneg : 0 <= save_time_freq cfg.

Lemma one_prediction_other e (s : state E) :
  is_pred e = false ->
  one_prediction_per_pass s -> one_prediction_per_pass (add_event E e s).
Proof.
  unfold one_prediction_per_pass. intros He Hs. simpl.
  rewrite !count_snoc, He.
  destruct (is_log LogStartValidation e); lia.
Qed.

Lemma starts_grow_in_loop savedir epoch todo i (s : state E) k :
  (k <= count (is_log LogStartValidation) (trace s))%nat ->
  (k <= count (is_log LogStartValidation)
          (trace (snd (validation_loop E cfg savedir epoch todo i s))))%nat.
Proof.
  intros Hk.
  apply (stable_run
           (fun s => (k <= count (is_log LogStartValidation) (trace s))%nat));
    [| exact Hk].
  apply validation_loop_stable; intros; simpl; try assumption;
    rewrite count_snoc; simpl; lia.
Qed.

Lemma validation_output_one_prediction savedir epoch :
  stable one_prediction_per_pass (validation_output E cfg savedir epoch).
Proof.
  intros s Hs. unfold one_prediction_per_pass in Hs.
  unfold validation_output, bind, now, gets.
  destruct (Z.ltb_spec (save_time_freq cfg)
              (time_time E (world s) - val_snap s)) as [Hfire | _];
    [| exact Hs].
  unfold log, emit, modify, validation_try, try_except, validation_pass,
    bind, call. simpl.
  pose proof (vm_iterate E monotone (world s)) as Hmono.
  destruct (iterate E ValSet (world s)) as [[n | e] w1]; simpl in Hmono |- *.
  - set (s0 := set_world E w1 (add_event E (EvLog LogStartValidation) s)).
    assert (Hentry : save_time_freq cfg
                     < time_time E (world s0) - val_snap s0)
      by (simpl; lia).
    pose proof (validation_loop_at_most_one_batch E cfg savedir epoch n 0
                  s0 (snd (validation_loop E cfg savedir epoch n 0 s0))
                  (fst (validation_loop E cfg savedir epoch n 0 s0))
                  (vm_next E monotone) (vm_pred E monotone)
                  (vm_imsave E monotone) freq_nonneg Hentry
                  (surjective_pairing _)) as Hone.
    pose proof (starts_grow_in_loop savedir epoch n 0 s0
                  (count (is_log LogStartValidation) (trace s0))
                  (le_n _)) as Hstarts.
    destruct (validation_loop E cfg savedir epoch n 0 s0) as [[x | e] s2];
      simpl in Hone, Hstarts |- *;
      unfold one_prediction_per_pass; simpl;
      rewrite !count_snoc in *; simpl in *; lia.
  - unfold one_prediction_per_pass. simpl.
    rewrite !count_snoc. simpl in *. lia.
Qed.

Lemma one_prediction_body savedir epoch inputs targets :
  stable one_prediction_per_pass
    (batch_body E cfg savedir epoch inputs targets).
Proof.
  unfold batch_body.
  apply stable_bind;
    [| intros u; apply validation_output_one_prediction].
  apply train_and_record_stable; intros; try assumption;
    apply one_prediction_other; auto.
Qed.

Lemma one_prediction_run (w : World E) :
  one_prediction_per_pass (snd (run_solver E cfg (init_state E w))).
Proof.
  apply (run_solver_ends E cfg one_prediction_per_pass
           one_prediction_per_pass); auto.
  - intros. apply one_prediction_other; auto.
  - intros savedir epoch inputs targets. apply one_prediction_body.
  - intros. apply one_prediction_other; auto.
  - intros. apply one_prediction_other; auto.
  - unfold one_prediction_per_pass, count. simpl. lia.
Qed.

End OnePrediction.

(** X12: with a clock that does not run backwards during validation and a
    non-negative time threshold, a run never makes more prediction calls
    than it starts validation passes: a pass ends after its first
    batch. *)
Theorem one_prediction_per_validation_pass :
  forall (E : Collaborators) (cfg : config) (w : World E),
    validation_clock_monotone E ->
    0 <= save_time_freq cfg ->
    let s := snd (run_solver E cfg (init_state E w)) in
    (count is_pred (trace s)
     <= count (is_log LogStartValidation) (trace s))%nat.
Proof.
  intros E cfg w Hm Hf. apply (one_prediction_run E cfg Hm Hf w).
Qed.

(* ===================================================================== *)
(** ** Order and failure in the job loop *)
(* ===================================================================== *)

Section JobOrder.

Variable W : Type.
Variable Builder : Type.
Variable int : string -> outcome Z.
Variable process_job : Builder -> Z -> W -> outcome unit * W.
Variable modellist : list Builder.

Local Abbreviation jobs := (job_loop W Builder int process_job modellist).

Lemma started_ids_app l l' :
  started_ids (l ++ l')%list = (started_ids l ++ started_ids l')%list.
Proof.
  induction l as [| m l IH]; simpl; [reflexivity |].
  destruct m; simpl; rewrite IH; reflexivity.
Qed.

Lemma warned_ids_app l l' :
  warned_ids (l ++ l')%list = (warned_ids l ++ warned_ids l')%list.
Proof.
  induction l as [| m l IH]; simpl; [reflexivity |].
  destruct m; simpl; rewrite IH; reflexivity.
Qed.

Lemma valid_id_has_builder id :
  invalid_id Builder modellist id = false ->
  exists get_model, nth_error modellist (Z.to_nat id) = Some get_model.
Proof.
  unfold invalid_id. intros H. apply orb_false_iff in H.
  destruct H as [H1 H2]. apply Z.ltb_ge in H1. apply Z.leb_gt in H2.
  destruct (nth_error modellist (Z.to_nat id)) as [b |] eqn:Hn;
    [exists b; reflexivity |].
  apply nth_error_None in Hn. lia.
Qed.

Lemma job_loop_in_order joblist :
  forall (s s' : main_state W) r,
    jobs joblist s = (r, s') ->
    exists later_valid later_invalid,
      valid_ids Builder int modellist joblist
      = (skipn (length (started_ids (m_log s))) (started_ids (m_log s'))
         ++ later_valid)%list
      /\ invalid_ids Builder int modellist joblist
         = (skipn (length (warned_ids (m_log s))) (warned_ids (m_log s'))
            ++ later_invalid)%list
      /\ firstn (length (started_ids (m_log s))) (started_ids (m_log s'))
         = started_ids (m_log s)
      /\ firstn (length (warned_ids (m_log s))) (warned_ids (m_log s'))
         = warned_ids (m_log s)
      /\ (r = Ret tt -> later_valid = [] /\ later_invalid = []).
Proof.
  assert (Hskip : forall (l : list Z), skipn (length l) l = [])
    by (intros l; apply skipn_all).
  assert (Hfirst : forall (l : list Z), firstn (length l) l = l)
    by (intros l; apply firstn_all).
  assert (Hskip' : forall (l l' : list Z), skipn (length l) (l ++ l') = l').
  { intros l l'. rewrite skipn_app, Hskip, Nat.sub_diag. reflexivity. }
  assert (Hfirst' : forall (l l' : list Z), firstn (length l) (l ++ l') = l).
  { intros l l'. rewrite firstn_app, Hfirst, Nat.sub_diag. simpl.
    apply app_nil_r. }
  induction joblist as [| word rest IH]; intros s s' r H.
  - inversion H; subst. exists [], []. simpl.
    rewrite !Hskip, !Hfirst. repeat split; reflexivity.
  - simpl valid_ids. simpl invalid_ids.
    destruct (int word) as [n | x] eqn:Hint.
    + destruct (invalid_id Builder modellist (n - 1)) eqn:Hinv.
      * rewrite (job_loop_skip W Builder int process_job modellist
                   word rest n s Hint Hinv) in H.
        destruct (IH _ _ _ H) as (lv & li & Hv & Hi & Hs & Hw & Hr).
        simpl in Hv, Hi, Hs, Hw.
        rewrite started_ids_app in Hv, Hs. rewrite warned_ids_app in Hi, Hw.
        simpl in Hv, Hi, Hs, Hw. rewrite app_nil_r in Hv, Hs.
        exists lv, li.
        set (a := warned_ids (m_log s)) in *.
        set (b := warned_ids (m_log s')) in *.
        rewrite length_app in Hi, Hw. simpl in Hi, Hw.
        assert (Hb : b = (a ++ (n - 1) :: skipn (length a + 1) b)%list).
        { rewrite <- (firstn_skipn (length a + 1) b) at 1.
          rewrite Hw, <- app_assoc. reflexivity. }
        refine (conj Hv (conj _ (conj Hs (conj _ Hr)))).
        -- rewrite Hb at 1. rewrite Hskip'. simpl. rewrite Hi. reflexivity.
        -- rewrite Hb. apply Hfirst'.
      * destruct (valid_id_has_builder (n - 1) Hinv) as [get_model Hnth].
        rewrite (job_loop_process W Builder int process_job modellist
                   word rest n get_model s Hint Hinv Hnth) in H.
        destruct (process_job get_model (n - 1) (m_world s))
          as [[[] | x] w].
        -- destruct (IH _ _ _ H) as (lv & li & Hv & Hi & Hs & Hw & Hr).
           simpl in Hv, Hi, Hs, Hw.
           rewrite started_ids_app in Hv, Hs.
           rewrite warned_ids_app in Hi, Hw.
           simpl in Hv, Hi, Hs, Hw. rewrite app_nil_r in Hi, Hw.
           exists lv, li.
           set (a := started_ids (m_log s)) in *.
           set (b := started_ids (m_log s')) in *.
           rewrite length_app in Hv, Hs. simpl in Hv, Hs.
           assert (Hb : b = (a ++ (n - 1) :: skipn (length a + 1) b)%list).
           { rewrite <- (firstn_skipn (length a + 1) b) at 1.
             rewrite Hs, <- app_assoc. reflexivity. }
           refine (conj _ (conj Hi (conj _ (conj Hw Hr)))).
           ++ rewrite Hb at 1. rewrite Hskip'. simpl. rewrite Hv.
              reflexivity.
           ++ rewrite Hb. apply Hfirst'.
        -- inversion H; subst. simpl.
           rewrite started_ids_app, warned_ids_app. simpl.
           rewrite app_nil_r, Hskip', Hfirst', Hskip, Hfirst.
           exists (valid_ids Builder int modellist rest),
                  (invalid_ids Builder int modellist rest).
           repeat split; discriminate.
    + rewrite (job_loop_bad_word W Builder int process_job modellist
                 word rest x s Hint) in H.
      inversion H; subst. rewrite !Hskip, !Hfirst.
      exists (valid_ids Builder int modellist rest),
             (invalid_ids Builder int modellist rest).
      repeat split; discriminate.
Qed.


(** Once the loop has raised, the rest of the job list does not matter,
    and the loop itself never logs the final marker. *)
Lemma job_loop_raise_is_final joblist :
  forall (s s' : main_state W) e rest,
    jobs joblist s = (Raise e, s') ->
    jobs (joblist ++ rest)%list s = (Raise e, s').
Proof.
  induction joblist as [| word l IH]; intros s s' e rest H.
  - discriminate.
  - simpl app.
    destruct (int word) as [n | x] eqn:Hint.
    + destruct (invalid_id Builder modellist (n - 1)) eqn:Hinv.
      * rewrite (job_loop_skip W Builder int process_job modellist
                   word _ n s Hint Hinv) in H.
        rewrite (job_loop_skip W Builder int process_job modellist
                   word _ n s Hint Hinv).
        apply IH. exact H.
      * destruct (nth_error modellist (Z.to_nat (n - 1))) as [get_model |]
          eqn:Hnth.
        -- rewrite (job_loop_process W Builder int process_job modellist
                      word _ n get_model s Hint Hinv Hnth) in H.
           rewrite (job_loop_process W Builder int process_job modellist
                      word _ n get_model s Hint Hinv Hnth).
           destruct (process_job get_model (n - 1) (m_world s))
             as [[[] | x] w]; [apply IH |]; exact H.
        -- rewrite (job_loop_no_builder W Builder int process_job modellist
                      word _ n s Hint Hinv Hnth) in H.
           rewrite (job_loop_no_builder W Builder int process_job modellist
                      word _ n s Hint Hinv Hnth).
           exact H.
    + rewrite (job_loop_bad_word W Builder int process_job modellist
                 word _ x s Hint) in H.
      rewrite (job_loop_bad_word W Builder int process_job modellist
                 word _ x s Hint).
      exact H.
Qed.

Lemma job_loop_never_done joblist :
  forall (s : main_state W),
    filter is_done (m_log (snd (jobs joblist s))) = filter is_done (m_log s).
Proof.
  induction joblist as [| word l IH]; intros s; [reflexivity |].
  destruct (int word) as [n | x] eqn:Hint.
  - destruct (invalid_id Builder modellist (n - 1)) eqn:Hinv.
    + rewrite (job_loop_skip W Builder int process_job modellist
                 word _ n s Hint Hinv).
      rewrite IH. simpl. rewrite filter_app. simpl. apply app_nil_r.
    + destruct (nth_error modellist (Z.to_nat (n - 1))) as [get_model |]
        eqn:Hnth.
      * rewrite (job_loop_process W Builder int process_job modellist
                   word _ n get_model s Hint Hinv Hnth).
        destruct (process_job get_model (n - 1) (m_world s))
          as [[[] | x] w]; [rewrite IH |]; simpl;
          rewrite filter_app; simpl; apply app_nil_r.
      * rewrite (job_loop_no_builder W Builder int process_job modellist
                   word _ n s Hint Hinv Hnth).
        reflexivity.
  - rewrite (job_loop_bad_word W Builder int process_job modellist
               word _ x s Hint).
    reflexivity.
Qed.

Lemma job_loop_log_grows jl :
  forall (s0 s1 : main_state W) r,
    jobs jl s0 = (r, s1) ->
    exists l, m_log s1 = (m_log s0 ++ l)%list.
Proof.
  induction jl as [| word rest IH]; intros s0 s1 r H.
  - inversion H; subst. exists []. symmetry. apply app_nil_r.
  - destruct (int word) as [n | x] eqn:Hint.
    + destruct (invalid_id Builder modellist (n - 1)) eqn:Hinv.
      * rewrite (job_loop_skip W Builder int process_job modellist
                   word _ n s0 Hint Hinv) in H.
        apply IH in H. destruct H as [l Hl]. simpl in Hl.
        rewrite <- app_assoc in Hl. eexists. exact Hl.
      * destruct (nth_error modellist (Z.to_nat (n - 1)))
          as [get_model |] eqn:Hnth.
        -- rewrite (job_loop_process W Builder int process_job
                      modellist word _ n get_model s0 Hint Hinv Hnth)
             in H.
           destruct (process_job get_model (n - 1) (m_world s0))
             as [[[] | x] w0].
           ++ apply IH in H. destruct H as [l Hl]. simpl in Hl.
              rewrite <- app_assoc in Hl. eexists. exact Hl.
           ++ inversion H; subst. simpl. eexists. reflexivity.
        -- rewrite (job_loop_no_builder W Builder int process_job
                      modellist word _ n s0 Hint Hinv Hnth) in H.
           inversion H; subst. exists []. symmetry. apply app_nil_r.
    + rewrite (job_loop_bad_word W Builder int process_job modellist
                 word _ x s0 Hint) in H.
      inversion H; subst. exists []. symmetry. apply app_nil_r.
Qed.

End JobOrder.

(** X13: the jobs the entry point starts are the in-range identifiers of the
    job list, in the order of the list and each as often as it is
    listed, up to the point where the run ends; the warnings are the
    out-of-range identifiers, in the same way. When the entry point
    returns, every in-range job was started and every out-of-range one
    warned about, and the final marker is the last record; when it
    raises, the final marker is not logged. *)
Theorem jobs_started_in_list_order :
  forall (W Builder : Type) (int : string -> outcome Z)
         (process_job : Builder -> Z -> W -> outcome unit * W)
         (modellist : list Builder) (joblist : list string) (w : W),
    let result := main W Builder int process_job modellist joblist
                    {| m_world := w; m_log := [] |} in
    let log := m_log (snd result) in
    exists later_valid later_invalid,
      valid_ids Builder int modellist joblist
      = (started_ids log ++ later_valid)%list
      /\ invalid_ids Builder int modellist joblist
         = (warned_ids log ++ later_invalid)%list
      /\ (fst result = Ret tt ->
          later_valid = [] /\ later_invalid = []
          /\ filter is_done log = [LogDone]
          /\ last log LogStart = LogDone)
      /\ (fst result <> Ret tt -> filter is_done log = []).
Proof.
  intros W Builder int process_job modellist joblist w result log.
  destruct (job_loop W Builder int process_job modellist joblist
              {| m_world := w; m_log := [LogStart] |}) as [r s'] eqn:Hrun.
  destruct (job_loop_in_order W Builder int process_job modellist
              joblist _ _ _ Hrun) as (lv & li & Hv & Hi & _ & _ & Hr).
  pose proof (job_loop_never_done W Builder int process_job modellist
                joblist {| m_world := w; m_log := [LogStart] |}) as Hd.
  rewrite Hrun in Hd. simpl in Hv, Hi, Hd.
  assert (Hres : result
                 = match r with
                   | Ret _ => (Ret tt,
                               {| m_world := m_world s';
                                  m_log := (m_log s' ++ [LogDone])%list |})
                   | Raise e => (Raise e, s')
                   end).
  { unfold result, main, bind, main_log, modify. simpl. rewrite Hrun.
    destruct r as [[] | e]; reflexivity. }
  exists lv, li. unfold log. rewrite Hres.
  destruct r as [[] | e]; simpl.
  - rewrite started_ids_app, warned_ids_app, filter_app, Hd. simpl.
    rewrite !app_nil_r, last_last.
    destruct (Hr eq_refl) as [-> ->].
    repeat split; try assumption; try reflexivity.
    intros Hne. exfalso. apply Hne. reflexivity.
  - repeat split; try assumption; try discriminate.
    intros _. exact Hd.
Qed.

(** X14: a job list whose processing raises ends in the same way with any
    further jobs appended: the jobs after a failing one are never
    reached, and the final marker is not logged. *)
Theorem failing_job_ends_the_run :
  forall (W Builder : Type) (int : string -> outcome Z)
         (process_job : Builder -> Z -> W -> outcome unit * W)
         (modellist : list Builder) (joblist rest : list string)
         (s s' : main_state W) (e : exn),
    main W Builder int process_job modellist joblist s = (Raise e, s') ->
    main W Builder int process_job modellist (joblist ++ rest)%list s
    = (Raise e, s')
    /\ filter is_done (m_log s') = filter is_done (m_log s).
Proof.
  intros W Builder int process_job modellist joblist rest s s' e H.
  unfold main, bind, main_log, modify in H |- *. simpl in H |- *.
  set (s0 := {| m_world := m_world s;
                m_log := (m_log s ++ [LogStart])%list |}) in *.
  pose proof (job_loop_never_done W Builder int process_job modellist
                joblist s0) as Hd.
  destruct (job_loop W Builder int process_job modellist joblist s0)
    as [[[] | x] s1] eqn:Hrun; [discriminate |].
  inversion H; subst x s1.
  rewrite (job_loop_raise_is_final W Builder int process_job modellist
             joblist s0 s' e rest Hrun).
  split; [reflexivity |].
  simpl in Hd. rewrite Hd. unfold s0. simpl.
  rewrite filter_app. simpl. apply app_nil_r.
Qed.

Section ScriptJobFacts.

Variable W : Type.
Variable Builder : Type.
Variable Hyper : Type.
Variable Net : Type.
Variable load_config : W -> outcome Hyper * W.
Variable compile : Builder -> Hyper -> W -> outcome Net * W.
Variable job_info : string -> W -> W.
Variable solver_body : Net -> Z -> W -> outcome unit * W.
Variable int : string -> outcome Z.
Variable modellist : list Builder.

Local Abbreviation the_job :=
  (script_job W Builder Hyper Net load_config compile job_info solver_body).

Lemma script_job_raises get_model model_id w :
  exists e, fst (the_job get_model model_id w) = Raise e.
Proof.
  unfold script_job, bind, modify, raise.
  destruct (load_config w) as [[h | e] w1]; [| exists e; reflexivity].
  destruct (compile get_model h (job_info "Building graph." w1))
    as [[net | e] w2]; [| exists e; reflexivity].
  exists Exception. reflexivity.
Qed.

Lemma script_job_loop joblist :
  forall (s s' : main_state W) r,
    job_loop W Builder int the_job modellist joblist s = (r, s') ->
    (length (started_ids (m_log s'))
     <= length (started_ids (m_log s)) + 1)%nat
    /\ (r = Ret tt ->
        valid_ids Builder int modellist joblist = []
        /\ Forall (fun word => exists n, int word = Ret n) joblist)
    /\ (valid_ids Builder int modellist joblist = [] ->
        Forall (fun word => exists n, int word = Ret n) joblist ->
        r = Ret tt).
Proof.
  induction joblist as [| word rest IH]; intros s s' r H.
  - inversion H; subst. repeat split; try constructor. lia.
  - simpl valid_ids.
    destruct (int word) as [n | x] eqn:Hint.
    + destruct (invalid_id Builder modellist (n - 1)) eqn:Hinv.
      * rewrite (job_loop_skip W Builder int the_job modellist
                   word rest n s Hint Hinv) in H.
        destruct (IH _ _ _ H) as (Hlen & Hret & Hconv).
        simpl in Hlen. rewrite started_ids_app in Hlen. simpl in Hlen.
        rewrite app_nil_r in Hlen.
        split; [exact Hlen |]. split.
        -- intros Hr. destruct (Hret Hr) as [Hv Hp].
           split; [exact Hv |]. constructor; [exists n; exact Hint | exact Hp].
        -- intros Hv Hp. apply Hconv; [exact Hv |].
           inversion Hp; assumption.
      * destruct (valid_id_has_builder Builder modellist (n - 1) Hinv)
          as [get_model Hnth].
        rewrite (job_loop_process W Builder int the_job modellist
                   word rest n get_model s Hint Hinv Hnth) in H.
        destruct (script_job_raises get_model (n - 1) (m_world s))
          as [e He].
        destruct (the_job get_model (n - 1) (m_world s)) as [r0 w0].
        simpl in He. subst r0. inversion H; subst. simpl.
        rewrite started_ids_app, length_app. simpl.
        split; [lia |]. split; discriminate.
    + rewrite (job_loop_bad_word W Builder int the_job modellist
                 word rest x s Hint) in H.
      inversion H; subst.
      split; [lia |]. split; [discriminate |].
      intros _ Hp. inversion Hp as [| ? ? [n Hn] ?]. congruence.
Qed.

End ScriptJobFacts.

(** X15: the call of the solver in line 201 gives [timestamp] twice, by
    position and by keyword, so that no job of the script ever returns:
    whatever the hyperparameter file and the model builders do, the
    script starts at most one job, and it returns exactly when every
    word of the job list is a number and none of them is in range. *)
Theorem script_stops_at_first_valid_job :
  forall (W Builder Hyper Net : Type)
         (load_config : W -> outcome Hyper * W)
         (compile : Builder -> Hyper -> W -> outcome Net * W)
         (job_info : string -> W -> W)
         (solver_body : Net -> Z -> W -> outcome unit * W)
         (int : string -> outcome Z) (modellist : list Builder)
         (joblist : list string) (w : W),
    let result :=
      main W Builder int
        (script_job W Builder Hyper Net load_config compile job_info
           solver_body)
        modellist joblist {| m_world := w; m_log := [] |} in
    bind_arguments run_solver_signature 4
      ["timestamp"; "dataset"; "dir_prefix"] = Raise Exception
    /\ (length (started_ids (m_log (snd result))) <= 1)%nat
    /\ (fst result = Ret tt <->
        valid_ids Builder int modellist joblist = []
        /\ Forall (fun word => exists n, int word = Ret n) joblist).
Proof.
  intros W Builder Hyper Net load_config compile job_info solver_body int
         modellist joblist w result.
  split; [reflexivity |].
  destruct (job_loop W Builder int
              (script_job W Builder Hyper Net load_config compile job_info
                 solver_body)
              modellist joblist {| m_world := w; m_log := [LogStart] |})
    as [r s'] eqn:Hrun.
  destruct (script_job_loop W Builder Hyper Net load_config compile job_info
              solver_body int modellist joblist _ _ _ Hrun)
    as (Hlen & Hret & Hconv).
  simpl in Hlen.
  assert (Hres : result
                 = match r with
                   | Ret _ => (Ret tt,
                               {| m_world := m_world s';
                                  m_log := (m_log s' ++ [LogDone])%list |})
                   | Raise e => (Raise e, s')
                   end).
  { unfold result, main, bind, main_log, modify. simpl. rewrite Hrun.
    destruct r as [[] | e]; reflexivity. }
  rewrite Hres. destruct r as [[] | e]; simpl.
  - rewrite started_ids_app. simpl. rewrite app_nil_r.
    split; [exact Hlen |]. split; [intros _; apply Hret; reflexivity |].
    reflexivity.
  - split; [exact Hlen |]. split; [discriminate |].
    intros [Hv Hp]. apply Hconv; assumption.
Qed.

(** C9, the code on the job list [99 1 2] with the two registered
    models, whatever the hyperparameter file and the builders do: the
    identifier 99 is skipped with a warning and job [1] is started, but
    the call of the solver in line 201 raises, so that the script ends
    there: job [2] is never started and the final marker is not
    logged. *)
Theorem valid_job_after_invalid_not_processed :
  forall (W Hyper Net : Type)
         (load_config : W -> outcome Hyper * W)
         (compile : string -> Hyper -> W -> outcome Net * W)
         (job_info : string -> W -> W)
         (solver_body : Net -> Z -> W -> outcome unit * W) (w : W),
    let result :=
      main W string Jobs.int
        (script_job W string Hyper Net load_config compile job_info
           solver_body)
        Jobs.modellist ["99"; "1"; "2"] {| m_world := w; m_log := [] |} in
    (exists e, fst result = Raise e)
    /\ m_log (snd result)
       = [LogStart; LogInvalidModelId 98; LogStartProcessing 0].
Proof.
  intros W Hyper Net load_config compile job_info solver_body w result.
  set (job := script_job W string Hyper Net load_config compile job_info
                solver_body) in *.
  assert (Hloop :
            exists e w0,
              job_loop W string Jobs.int job Jobs.modellist ["99"; "1"; "2"]
                {| m_world := w; m_log := [LogStart] |}
              = (Raise e,
                 {| m_world := w0;
                    m_log := [LogStart; LogInvalidModelId 98;
                              LogStartProcessing 0] |})).
  { rewrite (job_loop_skip W string Jobs.int job Jobs.modellist "99"
               ["1"; "2"] 99 _ eq_refl eq_refl).
    rewrite (job_loop_process W string Jobs.int job Jobs.modellist "1"
               ["2"] 1 "build_baseline1_small" _ eq_refl eq_refl eq_refl).
    destruct (script_job_raises W string Hyper Net load_config compile
                job_info solver_body "build_baseline1_small" (1 - 1) w)
      as [e He].
    fold job in He. cbn [warned m_world m_log] .
    destruct (job "build_baseline1_small" (1 - 1) w) as [r w0].
    simpl in He. subst r. exists e, w0. reflexivity. }
  destruct Hloop as (e & w0 & Hloop).
  unfold result, main, bind, main_log, modify. cbn -[job_loop].
  rewrite Hloop. split; [exists e; reflexivity | reflexivity].
Qed.

(* ===================================================================== *)
(** ** Further theorems at concrete inputs *)
(* ===================================================================== *)

(** A dataset that cannot be loaded. *)
Lemma setup_failure_propagates_witness :
  fst (run_solver NoDataset.collaborators cfg0
         (init_state NoDataset.collaborators 0%nat)) = Raise Exception.
Proof.
  destruct (setup_failure_propagates NoDataset.collaborators cfg0 0%nat
              Exception
              (snd (setup NoDataset.collaborators cfg0
                      (init_state NoDataset.collaborators 0%nat))))
    as [H _].
  - vm_compute. reflexivity.
  - rewrite H. reflexivity.
Defined.

(** The instantaneous world without any training batch. *)
Lemma empty_training_set_run_witness :
  exists s,
    run_solver (Instant.collaborators 0) cfg0
      (init_state (Instant.collaborators 0) 0%nat) = (Ret tt, s)
    /\ trainings (trace s) = 0%nat
    /\ length (checkpoints (trace s)) = 1%nat.
Proof.
  destruct (empty_training_set_run (Instant.collaborators 0) cfg0 0%nat
              "run_HoEoTo_1000"
              (snd (setup (Instant.collaborators 0) cfg0
                      (init_state (Instant.collaborators 0) 0%nat))))
    as (s & weights & Hrun & Ht & _ & _ & Hc & _).
  - intros w. exists w. reflexivity.
  - constructor.
    + intros w. eexists. eexists. reflexivity.
    + intros p d w. eexists. eexists. reflexivity.
  - vm_compute. reflexivity.
  - exists s. split; [exact Hrun |]. split; [exact Ht |].
    rewrite Hc. reflexivity.
Defined.

(** Three batches per epoch and [save_batch_freq=0]. *)
Lemma zero_batch_frequency_run_witness :
  exists s,
    run_solver (Instant.collaborators 3) cfg_zero_freq
      (init_state (Instant.collaborators 3) 0%nat) = (Ret tt, s)
    /\ trainings (trace s) = 1%nat
    /\ losses s = [].
Proof.
  destruct (zero_batch_frequency_run (Instant.collaborators 3) cfg_zero_freq
              0%nat "run_HoEoTo_1000"
              (snd (setup (Instant.collaborators 3) cfg_zero_freq
                      (init_state (Instant.collaborators 3) 0%nat))))
    as (s & loss & reg & weights & Hrun & _ & Ht & Hl & _).
  - reflexivity.
  - intros w. exists 2%nat, w. reflexivity.
  - intros i w. eexists. eexists. reflexivity.
  - intros a b w. eexists. eexists. reflexivity.
  - constructor.
    + intros w. eexists. eexists. reflexivity.
    + intros p d w. eexists. eexists. reflexivity.
  - vm_compute. reflexivity.
  - exists s. split; [exact Hrun |]. split; [exact Ht | exact Hl].
Defined.

(** A validation set of 1000 batches at 10 ticks per prediction. *)
Lemma one_prediction_per_validation_pass_witness :
  (count is_pred (trace (snd (Script.run long_validation cfg0)))
   <= count (is_log LogStartValidation)
        (trace (snd (Script.run long_validation cfg0))))%nat.
Proof.
  apply (one_prediction_per_validation_pass
           (Script.collaborators long_validation) cfg0 Script.start).
  - constructor.
    + intros w. simpl. lia.
    + intros k w. simpl. lia.
    + intros a b w. cbn. lia.
    + intros p a w. cbn. lia.
  - vm_compute. discriminate.
Defined.

(** The job list [99 1] and a further job [2]: the call of the solver
    for job [1] raises. *)
Lemma failing_job_ends_the_run_witness :
  fst (JobRun.run ["99"; "1"; "2"]) = Raise Exception.
Proof.
  destruct (failing_job_ends_the_run JobRun.world string Jobs.int
              (script_job JobRun.world string unit unit JobRun.load_config
                 JobRun.compile JobRun.job_info JobRun.solver_body)
              Jobs.modellist ["99"; "1"] ["2"] JobRun.start
              (snd (JobRun.run ["99"; "1"]))
              Exception) as [H _].
  - vm_compute. reflexivity.
  - simpl app in H. unfold JobRun.run. rewrite H. reflexivity.
Defined.

(* ===================================================================== *)
(** ** File names *)
(* ===================================================================== *)

Lemma has_char_app c a b :
  has_char c (a ++ b) = has_char c a || has_char c b.
Proof.
  induction a as [| d a IH]; simpl; [reflexivity |].
  rewrite IH. apply orb_assoc.
Qed.

Lemma string_of_uint_chars c u :
  has_char c (NilEmpty.string_of_uint u) = true -> digit_or_minus c = true.
Proof.
  induction u as [| u IH | u IH | u IH | u IH | u IH | u IH | u IH | u IH
                  | u IH | u IH]; cbn [has_char NilEmpty.string_of_uint];
    [discriminate | ..];
    (intros H; apply orb_true_iff in H; destruct H as [H | H];
     [apply Ascii.eqb_eq in H; subst c; reflexivity | exact (IH H)]).
Qed.

Lemma str_chars c n :
  has_char c (PyStr.str n) = true -> digit_or_minus c = true.
Proof.
  unfold PyStr.str, NilZero.string_of_int, NilZero.string_of_uint.
  destruct (Z.to_int n) as [u | u].
  - destruct u; try apply string_of_uint_chars.
    cbn [has_char]. intros H. rewrite orb_false_r in H.
    apply Ascii.eqb_eq in H. subst c. reflexivity.
  - cbn [has_char]. intros H. apply orb_true_iff in H.
    destruct H as [H | H].
    + apply Ascii.eqb_eq in H. subst c. reflexivity.
    + destruct u; try exact (string_of_uint_chars c _ H).
      cbn [has_char] in H. rewrite orb_false_r in H.
      apply Ascii.eqb_eq in H. subst c. reflexivity.
Qed.

Lemma str_without c n :
  digit_or_minus c = false -> has_char c (PyStr.str n) = false.
Proof.
  intros Hc. destruct (has_char c (PyStr.str n)) eqn:H; [| reflexivity].
  apply str_chars in H. congruence.
Qed.

Lemma to_int_nonnil n :
  Z.to_int n <> Decimal.Pos Decimal.Nil
  /\ Z.to_int n <> Decimal.Neg Decimal.Nil.
Proof.
  destruct n as [| p | p]; simpl; split; try discriminate;
    intros [= H]; exact (Unsigned.to_uint_nonnil p H).
Qed.

Lemma str_injective a b : PyStr.str a = PyStr.str b -> a = b.
Proof.
  unfold PyStr.str. intros H.
  apply (f_equal NilZero.int_of_string) in H.
  destruct (to_int_nonnil a) as [Ha1 Ha2].
  destruct (to_int_nonnil b) as [Hb1 Hb2].
  rewrite !NilZero.isi in H by assumption.
  injection H as H. apply (f_equal Z.of_int) in H.
  rewrite !DecimalZ.of_to in H. exact H.
Qed.

(** A string is cut at the first occurrence of a delimiter in one way
    only. *)
Lemma split_unique d x :
  forall x' r r',
    has_char d x = false -> has_char d x' = false ->
    x ++ String d r = x' ++ String d r' -> x = x' /\ r = r'.
Proof.
  induction x as [| c x IH]; intros [| c' x'] r r' Hx Hx' H; simpl in *.
  - injection H as H. split; [reflexivity | exact H].
  - injection H as Hc H. subst c'. rewrite Ascii.eqb_refl in Hx'.
    discriminate.
  - injection H as Hc H. subst c. rewrite Ascii.eqb_refl in Hx.
    discriminate.
  - injection H as Hc H. subst c'.
    apply orb_false_iff in Hx. apply orb_false_iff in Hx'.
    destruct (IH x' r r' (proj2 Hx) (proj2 Hx') H) as [-> ->].
    split; reflexivity.
Qed.

Lemma path_join_injective a b b' :
  PyStr.starts_with_slash b = false ->
  PyStr.starts_with_slash b' = false ->
  PyStr.path_join a b = PyStr.path_join a b' -> b = b'.
Proof.
  unfold PyStr.path_join. intros -> ->.
  destruct a as [| c a]; [auto |].
  destruct (PyStr.ends_with_slash (String c a)); intros H;
    apply append_cancel_l in H; [exact H |].
  injection H as H. exact H.
Qed.

(** The counters of a file name can be read off it. *)
Lemma counters_injective e b e' b' tail :
  PyStr.str e ++ "_b" ++ PyStr.str b ++ "." ++ tail
  = PyStr.str e' ++ "_b" ++ PyStr.str b' ++ "." ++ tail ->
  e = e' /\ b = b'.
Proof.
  intros H.
  apply split_unique in H; try (apply str_without; reflexivity).
  destruct H as [He H]. injection H as H.
  apply split_unique in H; try (apply str_without; reflexivity).
  destruct H as [Hb _].
  split; apply str_injective; assumption.
Qed.

Lemma key_path_injective cfg savedir k k' :
  key_path cfg savedir k = key_path cfg savedir k' -> k = k'.
Proof.
  destruct k as [[v e] b]. destruct k' as [[v' e'] b'].
  unfold key_path, val_model_png, model_png.
  destruct v, v'; intros H;
    apply path_join_injective in H; try reflexivity;
    try discriminate.
  - simpl in H. injection H as H. apply append_cancel_l in H.
    injection H as H. apply counters_injective in H.
    destruct H as [-> ->]. reflexivity.
  - simpl in H. injection H as H. apply append_cancel_l in H.
    injection H as H. apply counters_injective in H.
    destruct H as [-> ->]. reflexivity.
Qed.

Lemma key_path_not_checkpoint cfg savedir k :
  key_path cfg savedir k <> checkpoint_npz cfg savedir.
Proof.
  destruct k as [[v e] b].
  unfold key_path, val_model_png, model_png, checkpoint_npz.
  assert (Hstart : PyStr.starts_with_slash
                     (PyStr.str (experiment_id cfg) ++ ".npz") = false).
  { pose proof (str_without "/" (experiment_id cfg) eq_refl) as H.
    destruct (PyStr.str (experiment_id cfg)) as [| c r]; [reflexivity |].
    simpl in H |- *. apply orb_false_iff in H. exact (proj1 H). }
  assert (Hm : has_char "m" (PyStr.str (experiment_id cfg) ++ ".npz")
               = false).
  { rewrite has_char_app, (str_without "m" _ eq_refl). reflexivity. }
  destruct v; intros H; apply path_join_injective in H;
    try reflexivity; try exact Hstart;
    rewrite <- H in Hm; discriminate.
Qed.

Lemma model_png_without_v cfg savedir epoch b :
  has_char "v" savedir = false ->
  has_char "v" (model_png cfg savedir epoch b) = false.
Proof.
  intros Hs. unfold model_png.
  set (name := "model" ++ PyStr.str (experiment_id cfg) ++ "_ep"
               ++ PyStr.str epoch ++ "_b" ++ PyStr.str b ++ ".png").
  assert (Hn : has_char "v" name = false).
  { unfold name.
    rewrite !has_char_app, !(str_without "v") by reflexivity.
    reflexivity. }
  unfold PyStr.path_join.
  destruct (PyStr.starts_with_slash name); [exact Hn |].
  destruct savedir as [| c rest]; [exact Hn |].
  destruct (PyStr.ends_with_slash (String c rest));
    rewrite !has_char_app, Hs, Hn; reflexivity.
Qed.

(** Two batches per epoch, and a disk that takes the training snapshots
    and refuses every validation image: each of the 40 validation
    passes fails in its first image write. *)
Lemma full_run_trains_every_batch_witness :
  exists s,
    run_solver (Disk.collaborators 2 Disk.no_validation_images true) cfg0
      (init_state (Disk.collaborators 2 Disk.no_validation_images true)
         0%nat)
    = (Ret tt, s)
    /\ trainings (trace s) = 40%nat
    /\ length (losses s) = 40%nat
    /\ count (is_log LogValidationError) (trace s) = 40%nat.
Proof.
  destruct (full_run_trains_every_batch
              (Disk.collaborators 2 Disk.no_validation_images true) cfg0
              0%nat "run_HoEoTo_1000"
              (snd (setup
                      (Disk.collaborators 2 Disk.no_validation_images true)
                      cfg0
                      (init_state
                         (Disk.collaborators 2 Disk.no_validation_images
                            true) 0%nat)))
              2)
    as (s & Hrun & Ht & Hl).
  - constructor.
    + intros i w. eexists. eexists. reflexivity.
    + intros a b w. eexists. eexists. reflexivity.
    + intros epoch b a w. exists tt, (S w).
      unfold imsave, Disk.collaborators, Disk.no_validation_images.
      rewrite model_png_without_v by reflexivity. reflexivity.
    + intros w. eexists. eexists. reflexivity.
  - constructor.
    + intros w. eexists. eexists. reflexivity.
    + intros p d w. eexists. eexists. reflexivity.
  - intros w. exists w. reflexivity.
  - vm_compute. discriminate.
  - vm_compute. reflexivity.
  - exists s. split; [exact Hrun |]. split; [exact Ht |].
    split; [exact Hl |].
    replace s
      with (snd (run_solver
                   (Disk.collaborators 2 Disk.no_validation_images true)
                   cfg0
                   (init_state
                      (Disk.collaborators 2 Disk.no_validation_images true)
                      0%nat)))
      by (rewrite Hrun; reflexivity).
    vm_compute. reflexivity.
Defined.

(* ===================================================================== *)
(** ** The image files of a run *)
(* ===================================================================== *)

Lemma NoDup_snoc {A} (l : list A) (a : A) :
  NoDup l -> ~ In a l -> NoDup (l ++ [a]).
Proof.
  induction l as [| b l IH]; simpl; intros Hl Ha.
  - constructor; [auto | constructor].
  - inversion Hl as [| ? ? Hb Hl']; subst. constructor.
    + intros Hin. apply in_app_or in Hin.
      destruct Hin as [Hin | [-> | []]]; [contradiction |].
      apply Ha. left. reflexivity.
    + apply IH; [exact Hl' |]. intros Hin. apply Ha. right. exact Hin.
Qed.

Section ImageNames.

Variable E : Collaborators.
Variable cfg : config.
Variable savedir : string.

Local Abbreviation within := (@images_within E cfg savedir).
Local Abbreviation before_epoch := (@images_before E cfg savedir).
Local Abbreviation keyed := (@images_keyed E cfg savedir).

Lemma within_same epoch strict (s s' : state E) :
  images (trace s') = images (trace s) ->
  batch s' = batch s -> val_batch s' = val_batch s ->
  within epoch strict s -> within epoch strict s'.
Proof.
  intros Hi Hb Hv (keys & H1 & H2 & H3). exists keys.
  rewrite Hi, Hb, Hv. auto.
Qed.

Lemma within_strict_weaken epoch (s : state E) :
  within epoch true s -> within epoch false s.
Proof.
  intros (keys & H1 & H2 & H3). exists keys.
  split; [exact H1 |]. split; [exact H2 |].
  eapply Forall_impl; [| exact H3].
  intros [[v e] i] [H | [He H]]; [left; exact H | right].
  split; [exact He |]. destruct v; [exact H | lia].
Qed.

Lemma within_counted epoch (s s' : state E) :
  images (trace s') = images (trace s) ->
  batch s' = batch s + 1 -> val_batch s' = val_batch s ->
  within epoch false s -> within epoch true s'.
Proof.
  intros Hi Hb Hv (keys & H1 & H2 & H3). exists keys.
  rewrite Hi, Hb, Hv.
  split; [exact H1 |]. split; [exact H2 |].
  eapply Forall_impl; [| exact H3].
  intros [[v e] i] [H | [He H]]; [left; exact H | right].
  split; [exact He |]. destruct v; [exact H | lia].
Qed.

Lemma within_add_model epoch (s s' : state E) :
  images (trace s')
  = (images (trace s) ++ [model_png cfg savedir epoch (batch s)])%list ->
  batch s' = batch s -> val_batch s' = val_batch s ->
  within epoch true s -> within epoch false s'.
Proof.
  intros Hi Hb Hv (keys & H1 & H2 & H3).
  exists (keys ++ [(false, epoch, batch s)])%list.
  rewrite Hi, Hb, Hv, map_app, H1.
  split; [reflexivity |]. split.
  - apply NoDup_snoc; [exact H2 |]. intros Hin.
    rewrite Forall_forall in H3. specialize (H3 _ Hin). simpl in H3. lia.
  - apply Forall_app. split.
    + eapply Forall_impl; [| exact H3].
      intros [[v e] i] [H | [He H]]; [left; exact H | right].
      split; [exact He |]. destruct v; [exact H | lia].
    + constructor; [| constructor]. right. split; [reflexivity | lia].
Qed.

Lemma within_add_val epoch (s s' : state E) :
  images (trace s')
  = (images (trace s)
     ++ [val_model_png cfg savedir epoch (val_batch s)])%list ->
  batch s' = batch s -> val_batch s' = val_batch s + 1 ->
  within epoch false s -> within epoch false s'.
Proof.
  intros Hi Hb Hv (keys & H1 & H2 & H3).
  exists (keys ++ [(true, epoch, val_batch s)])%list.
  rewrite Hi, Hb, Hv, map_app, H1.
  split; [reflexivity |]. split.
  - apply NoDup_snoc; [exact H2 |]. intros Hin.
    rewrite Forall_forall in H3. specialize (H3 _ Hin). simpl in H3. lia.
  - apply Forall_app. split.
    + eapply Forall_impl; [| exact H3].
      intros [[v e] i] [H | [He H]]; [left; exact H | right].
      split; [exact He |]. destruct v; [lia | exact H].
    + constructor; [| constructor]. right. split; [reflexivity | lia].
Qed.

Lemma before_within epoch strict (s s' : state E) :
  images (trace s') = images (trace s) ->
  before_epoch epoch s -> within epoch strict s'.
Proof.
  intros Hi (keys & H1 & H2 & H3). exists keys. rewrite Hi.
  split; [exact H1 |]. split; [exact H2 |].
  eapply Forall_impl; [| exact H3].
  intros [[v e] i] H. left. exact H.
Qed.

Lemma within_before epoch strict (s : state E) :
  within epoch strict s -> before_epoch (epoch + 1) s.
Proof.
  intros (keys & H1 & H2 & H3). exists keys.
  split; [exact H1 |]. split; [exact H2 |].
  eapply Forall_impl; [| exact H3].
  intros [[v e] i] [H | [He H]]; simpl; lia.
Qed.

Lemma before_same epoch (s s' : state E) :
  images (trace s') = images (trace s) ->
  before_epoch epoch s -> before_epoch epoch s'.
Proof.
  intros Hi (keys & H1 & H2 & H3). exists keys. rewrite Hi. auto.
Qed.

Lemma before_keyed epoch (s : state E) : before_epoch epoch s -> keyed s.
Proof. intros (keys & H1 & H2 & _). exists keys. auto. Qed.

Lemma keyed_same (s s' : state E) :
  images (trace s') = images (trace s) -> keyed s -> keyed s'.
Proof. intros Hi (keys & H1 & H2). exists keys. rewrite Hi. auto. Qed.

Lemma images_other e (s : state E) :
  is_imsave e = false ->
  images (trace (add_event E e s)) = images (trace s).
Proof.
  intros He. simpl. rewrite images_app.
  destruct e; try discriminate; apply app_nil_r.
Qed.

Lemma call_within {A} epoch strict (f : World E -> outcome A * World E) :
  stable (within epoch strict) (call E f).
Proof.
  intros s Hs. unfold call.
  destruct (f (world s)) as [[a | e] w];
    apply (within_same epoch strict s); auto.
Qed.

Lemma log_within epoch strict m :
  stable (within epoch strict) (log E m).
Proof.
  apply stable_modify. intros s Hs.
  apply (within_same epoch strict s); auto. apply images_other. reflexivity.
Qed.

Lemma snapshot_due_state (s : state E) :
  snd (snapshot_due E cfg s) = s.
Proof.
  unfold snapshot_due, bind, gets, py_mod, now.
  destruct (save_batch_freq cfg =? 0); simpl; [reflexivity |].
  destruct (batch s mod save_batch_freq cfg =? 0); reflexivity.
Qed.

Lemma training_step_within epoch inputs targets :
  triple (within epoch false) (training_step E inputs targets)
    (fun _ => within epoch true) (fun _ => within epoch false).
Proof.
  intros s Hs. unfold training_step, bind, call, emit, modify, gets.
  destruct (train_fn E inputs (crop E targets) (world s)) as [[r | e] w];
    simpl.
  - apply (within_counted epoch s); auto.
    simpl. rewrite images_app. apply app_nil_r.
  - apply (within_same epoch false s); auto.
Qed.

Lemma training_output_within epoch inputs targets pred :
  triple (within epoch true)
    (training_output E cfg savedir epoch inputs targets pred)
    (fun _ => within epoch false) (fun _ => within epoch false).
Proof.
  intros s Hs. unfold training_output. unfold bind at 1.
  pose proof (snapshot_due_state s) as Hdue.
  destruct (snapshot_due E cfg s) as [[due | e] s0]; simpl in Hdue;
    subst s0; [| apply within_strict_weaken; exact Hs].
  destruct due; [| apply within_strict_weaken; exact Hs].
  unfold netdump, bind, log, emit, modify, gets, call, now. simpl.
  destruct (imsave E (model_png cfg savedir epoch (batch s))
              (composite E (crop E inputs) pred (crop E targets)) (world s))
    as [[[] | e] w1]; simpl.
  - destruct (layers_dump E w1) as [[[] | e] w2]; simpl;
      apply (within_add_model epoch s); auto; simpl;
      rewrite !images_app; simpl; rewrite ?app_nil_r; reflexivity.
  - apply within_strict_weaken. apply (within_same epoch true s); auto.
    simpl. rewrite images_app. apply app_nil_r.
Qed.

Lemma record_metrics_within epoch loss :
  stable (within epoch false) (record_metrics E loss).
Proof.
  intros s Hs. unfold record_metrics, bind, log, emit, modify, gets. simpl.
  apply (within_same epoch false s); auto.
  simpl. rewrite images_app. apply app_nil_r.
Qed.

Lemma validation_loop_within epoch todo :
  forall i, stable (within epoch false)
              (validation_loop E cfg savedir epoch todo i).
Proof.
  induction todo as [| todo IH]; intros i s Hs; simpl.
  - exact Hs.
  - unfold bind, call, emit, log, modify, gets, now. simpl.
    destruct (next_batch E ValSet i (world s)) as [[[inputs targets] | e] w1];
      [| apply (within_same epoch false s); auto].
    simpl.
    destruct (pred_fn E inputs (crop E targets) w1)
      as [[[loss pred] | e] w2];
      [| apply (within_same epoch false s); auto].
    simpl.
    destruct (imsave E _ _ w2) as [[[] | e] w3]; simpl.
    + match goal with
      | |- context [if ?c then _ else _] => destruct c
      end.
      * apply (within_add_val epoch s); auto. simpl.
        rewrite !images_app. simpl. rewrite !app_nil_r. reflexivity.
      * apply IH. apply (within_add_val epoch s); auto. simpl.
        rewrite !images_app. simpl. rewrite !app_nil_r. reflexivity.
    + apply (within_same epoch false s); auto. simpl.
      rewrite !images_app. simpl. rewrite !app_nil_r. reflexivity.
Qed.

Lemma validation_output_within epoch :
  stable (within epoch false) (validation_output E cfg savedir epoch).
Proof.
  unfold validation_output.
  apply stable_bind; [apply stable_gets | intros t].
  apply stable_bind; [apply stable_gets | intros vs].
  apply stable_if; [| apply stable_ret].
  apply stable_bind; [apply log_within | intros u].
  apply stable_bind.
  - unfold validation_try. apply stable_try; [| intros e; apply log_within].
    unfold validation_pass.
    apply stable_bind; [apply call_within | intros n].
    apply stable_bind; [apply validation_loop_within | intros x].
    apply log_within.
  - intros u'. apply stable_bind; [apply stable_gets | intros t'].
    apply stable_modify. intros s Hs.
    apply (within_same epoch false s); auto.
Qed.

Lemma batch_body_within epoch inputs targets :
  stable (within epoch false)
    (batch_body E cfg savedir epoch inputs targets).
Proof.
  unfold batch_body, train_and_record.
  apply stable_bind; [| intros u; apply validation_output_within].
  eapply triple_bind; [apply training_step_within |].
  intros [[[error loss] reg] pred].
  eapply triple_bind; [apply training_output_within |].
  intros u. apply record_metrics_within.
Qed.

Lemma train_loop_within epoch todo :
  forall i, stable (within epoch false)
              (train_loop E cfg savedir epoch todo i).
Proof.
  induction todo as [| todo IH]; intros i; simpl.
  - apply stable_ret.
  - apply stable_bind; [apply call_within |].
    intros [inputs targets].
    apply stable_bind; [apply batch_body_within |].
    intros u. apply IH.
Qed.

Lemma epoch_body_images epoch :
  triple (before_epoch epoch) (epoch_body E cfg savedir epoch)
    (fun _ => before_epoch (epoch + 1))
    (fun _ => before_epoch (epoch + 1)).
Proof.
  unfold epoch_body.
  eapply triple_weaken with (P' := before_epoch epoch)
                            (Q' := fun _ => within epoch false)
                            (R' := fun _ => within epoch false);
    [| auto | intros a s; apply within_before
     | intros e s; apply within_before].
  eapply triple_bind with (Q' := fun _ => before_epoch epoch).
  - intros s Hs. simpl. apply (before_same epoch s); auto.
  - intros u.
    eapply triple_bind with (Q' := fun _ => within epoch false).
    + intros s Hs. simpl. apply (before_within epoch false s); auto.
    + intros u'.
      apply stable_bind; [apply call_within | intros n].
      apply train_loop_within.
Qed.

Lemma epochs_images todo :
  forall epoch,
    triple (before_epoch epoch) (epochs E cfg savedir todo epoch)
      (fun _ => keyed) (fun _ => keyed).
Proof.
  induction todo as [| todo IH]; intros epoch; simpl.
  - apply triple_ret. intros s. apply before_keyed.
  - eapply triple_bind with (Q' := fun _ => before_epoch (epoch + 1)).
    + eapply triple_weaken; [apply epoch_body_images | auto | auto |].
      intros e s. apply before_keyed.
    + intros u. apply IH.
Qed.

Lemma training_images :
  triple (before_epoch 0) (training E cfg savedir)
    (fun _ => keyed) (fun _ => keyed).
Proof.
  intros s Hs.
  change (training E cfg savedir s)
    with (epochs E cfg savedir 20 0
            (set_val_snap E (time_time E (world s))
               (set_snap E (time_time E (world s)) s))).
  apply epochs_images. apply (before_same 0 s); auto.
Qed.

Lemma run_loop_images (s : state E) :
  images (trace s) = [] -> keyed (snd (run_loop E cfg savedir s)).
Proof.
  intros Hs.
  assert (H0 : before_epoch 0 s).
  { exists []. rewrite Hs. repeat constructor. }
  unfold run_loop, bind, guarded_training, try_except.
  pose proof (training_images s H0) as Ht.
  assert (Hfin : stable keyed (finalization E cfg savedir)).
  { apply finalization_stable; intros; (eapply keyed_same; [| eassumption]);
      simpl; rewrite ?images_app; simpl; rewrite ?app_nil_r; reflexivity. }
  destruct (training E cfg savedir s) as [[[] | e] s1].
  - apply (stable_run keyed); [exact Hfin | exact Ht].
  - destruct e; cbn -[finalization]; try exact Ht;
      (apply (stable_run keyed); [exact Hfin |]);
      (apply (keyed_same s1); [| exact Ht]);
      simpl; rewrite !images_app; simpl; rewrite !app_nil_r; reflexivity.
Qed.

End ImageNames.

Lemma run_solver_images (E : Collaborators) (cfg : config) (w : World E) :
  let s := snd (run_solver E cfg (init_state E w)) in
  exists savedir,
    images_keyed cfg savedir s
    /\ forall p ck,
        In (p, ck) (checkpoints (trace s)) -> p = checkpoint_npz cfg savedir.
Proof.
  unfold run_solver, bind.
  pose proof (setup_only_logged E cfg w) as H0.
  pose proof (stable_run _ _ (init_state E w) (setup_no_checkpoint E cfg)
                eq_refl) as Hc0.
  destruct (setup E cfg (init_state E w)) as [[savedir | e] s1];
    simpl in H0, Hc0 |- *.
  - destruct H0 as (_ & _ & Hi & _).
    exists savedir. split; [apply run_loop_images; exact Hi |].
    intros p ck Hin.
    destruct (run_loop_checkpoints E cfg savedir s1 Hc0)
      as [H | [weights H]]; rewrite H in Hin; simpl in Hin.
    + contradiction.
    + destruct Hin as [[= <- _] | []]. reflexivity.
  - destruct H0 as (_ & _ & Hi & Hc & _).
    exists EmptyString. split.
    + exists []. rewrite Hi. split; [reflexivity | constructor].
    + intros p ck Hin. rewrite Hc in Hin. contradiction.
Qed.

(** X16: no run writes two images under the same path, and no image has the
    path of the checkpoint: a snapshot is never overwritten, neither by
    a later snapshot nor by the checkpoint. *)
Theorem images_never_overwritten :
  forall (E : Collaborators) (cfg : config) (w : World E),
    let s := snd (run_solver E cfg (init_state E w)) in
    NoDup (images (trace s))
    /\ forall p ck,
        In (p, ck) (checkpoints (trace s)) -> ~ In p (images (trace s)).
Proof.
  intros E cfg w s.
  destruct (run_solver_images E cfg w) as (savedir & (keys & Hi & Hk) & Hc).
  fold s in Hi, Hc. rewrite Hi. split.
  - apply NoDup_map_NoDup_ForallPairs; [| exact Hk].
    intros k k' _ _. apply key_path_injective.
  - intros p ck Hin Himg. apply Hc in Hin. subst p.
    apply in_map_iff in Himg. destruct Himg as (k & Hk' & _).
    exact (key_path_not_checkpoint cfg savedir k Hk').
Qed.

(* ===================================================================== *)
(** ** How a run ends, and how long it goes on *)
(* ===================================================================== *)

(** How the finalization ends, from a state without a checkpoint. *)
Lemma finalization_outcome (E : Collaborators) (cfg : config)
      (savedir : string) (s : state E) :
  checkpoints (trace s) = [] ->
  let result := finalization E cfg savedir s in
  (fst result = Ret tt
   /\ length (checkpoints (trace (snd result))) = 1%nat
   /\ exists t, trace (snd result) = (t ++ [EvLog LogSavedWeights])%list)
  \/ (exists e,
         fst result = Raise e
         /\ checkpoints (trace (snd result)) = []
         /\ ((exists w0 w1, get_all_param_values E w0 = (Raise e, w1))
             \/ (exists p d w0 w1, pickle_dump E p d w0 = (Raise e, w1)))).
Proof.
  intros Hs result. unfold result. rewrite finalization_cases.
  destruct (get_all_param_values E (world s)) as [[weights | e] w1] eqn:Hread.
  - destruct (pickle_dump E (checkpoint_npz cfg savedir)
                (final_checkpoint E cfg weights s) w1)
      as [[[] | e] w2] eqn:Hdump.
    + left. cbn -[checkpoints]. rewrite !checkpoints_app, Hs. simpl.
      split; [reflexivity |]. split; [reflexivity |].
      eexists. reflexivity.
    + right. exists e. cbn -[checkpoints]. rewrite checkpoints_app, Hs.
      split; [reflexivity |]. split; [reflexivity |].
      right. eexists. eexists. eexists. eexists. exact Hdump.
  - right. exists e. cbn -[checkpoints]. rewrite checkpoints_app, Hs.
    split; [reflexivity |]. split; [reflexivity |].
    left. eexists. eexists. exact Hread.
Qed.

(** How a run ends once the set-up has returned. *)
Lemma run_loop_outcome (E : Collaborators) (cfg : config)
      (savedir : string) (s1 : state E) :
  checkpoints (trace s1) = [] ->
  let result := run_loop E cfg savedir s1 in
  (fst result = Ret tt
   /\ length (checkpoints (trace (snd result))) = 1%nat
   /\ exists t, trace (snd result) = (t ++ [EvLog LogSavedWeights])%list)
  \/ (exists e,
         fst result = Raise e
         /\ checkpoints (trace (snd result)) = []
         /\ ((e = SystemExit
              /\ fst (training E cfg savedir s1) = Raise SystemExit)
             \/ (exists w0 w1, get_all_param_values E w0 = (Raise e, w1))
             \/ (exists p d w0 w1,
                    pickle_dump E p d w0 = (Raise e, w1)))).
Proof.
  intros H1 result. unfold result, run_loop, bind, guarded_training,
    try_except.
  pose proof (stable_run _ _ s1 (training_no_checkpoint E cfg savedir) H1)
    as H2.
  unfold no_checkpoint in H2.
  assert (Hfin : forall (r : outcome unit) (s0 : state E),
             checkpoints (trace s0) = [] ->
             let result := finalization E cfg savedir s0 in
             (fst result = Ret tt
              /\ length (checkpoints (trace (snd result))) = 1%nat
              /\ exists t,
                  trace (snd result) = (t ++ [EvLog LogSavedWeights])%list)
             \/ (exists e,
                    fst result = Raise e
                    /\ checkpoints (trace (snd result)) = []
                    /\ ((e = SystemExit /\ r = Raise SystemExit)
                        \/ (exists w0 w1,
                               get_all_param_values E w0 = (Raise e, w1))
                        \/ (exists p d w0 w1,
                               pickle_dump E p d w0 = (Raise e, w1))))).
  { intros r s0 H0 res.
    destruct (finalization_outcome E cfg savedir s0 H0)
      as [H | (e & Hr & Hc & Hcall)]; [left; exact H |].
    right. exists e. split; [exact Hr |]. split; [exact Hc |].
    right. exact Hcall. }
  destruct (training E cfg savedir s1) as [[[] | e] s2]; simpl in H2.
  - apply Hfin. exact H2.
  - destruct e; cbn -[finalization checkpoints].
    + apply Hfin. cbn -[checkpoints]. rewrite checkpoints_app, H2.
      reflexivity.
    + apply Hfin. cbn -[checkpoints]. rewrite checkpoints_app, H2.
      reflexivity.
    + right. exists SystemExit. split; [reflexivity |].
      split; [exact H2 |]. left. split; reflexivity.
Qed.

(** X17: [run_solver] returns exactly when it has written its checkpoint,
    and then the final log record is its last event.  It raises only
    what its set-up raises, from the loop the exception classes that
    are no [Exception] and no [KeyboardInterrupt], and what the
    parameter read-out or the file write of the checkpoint raises,
    which are outside every [try]; then no checkpoint is written. *)
Theorem run_solver_outcome :
  forall (E : Collaborators) (cfg : config) (w : World E),
    let start := init_state E w in
    let s := snd (run_solver E cfg start) in
    (fst (run_solver E cfg start) = Ret tt
     /\ length (checkpoints (trace s)) = 1%nat
     /\ exists t, trace s = (t ++ [EvLog LogSavedWeights])%list)
    \/ (exists e,
           fst (run_solver E cfg start) = Raise e
           /\ checkpoints (trace s) = []
           /\ (fst (setup E cfg start) = Raise e
               \/ (e = SystemExit
                   /\ exists savedir s1,
                       setup E cfg start = (Ret savedir, s1)
                       /\ fst (training E cfg savedir s1)
                          = Raise SystemExit)
               \/ (exists savedir,
                      fst (setup E cfg start) = Ret savedir)
                   /\ ((exists w0 w1,
                          get_all_param_values E w0 = (Raise e, w1))
                       \/ (exists p d w0 w1,
                              pickle_dump E p d w0 = (Raise e, w1))))).
Proof.
  intros E cfg w start s. unfold s, run_solver, bind.
  pose proof (stable_run _ _ start (setup_no_checkpoint E cfg) eq_refl)
    as H1.
  destruct (setup E cfg start) as [[savedir | e] s1]; simpl in H1.
  - destruct (run_loop_outcome E cfg savedir s1 H1)
      as [H | (e & Hr & Hc & Hwhy)]; [left; exact H |].
    right. exists e. split; [exact Hr |]. split; [exact Hc |].
    right. destruct Hwhy as [[-> Ht] | Hcall].
    + left. split; [reflexivity |]. exists savedir, s1.
      split; [reflexivity | exact Ht].
    + right. split; [exists savedir; reflexivity | exact Hcall].
  - right. exists e. simpl. split; [reflexivity |].
    split; [exact H1 |]. left. reflexivity.
Qed.

Section Bound.

Variable E : Collaborators.
Variable cfg : config.
Variable n : nat.

Hypothesis passes_bounded : training_batches_at_most E n.

Lemma trained_at_most_other k e (s : state E) :
  is_train e = false ->
  trained_at_most k s -> trained_at_most k (add_event E e s).
Proof.
  unfold trained_at_most. intros He Hs.
  rewrite trainings_other by exact He. exact Hs.
Qed.

Lemma trained_at_most_le k k' (s : state E) :
  (k <= k')%nat -> trained_at_most k s -> trained_at_most k' s.
Proof. unfold trained_at_most. lia. Qed.

Lemma batch_body_bound savedir epoch inputs targets k :
  triple (trained_at_most k)
    (batch_body E cfg savedir epoch inputs targets)
    (fun _ => trained_at_most (S k)) (fun _ => trained_at_most (S k)).
Proof.
  unfold batch_body, train_and_record.
  eapply triple_bind with (Q' := fun _ => trained_at_most (S k)).
  - eapply triple_bind with (Q' := fun _ => trained_at_most (S k)).
    + intros s Hs.
      pose proof (training_step_metrics E inputs targets s
                    (snd (training_step E inputs targets s))
                    (fst (training_step E inputs targets s))
                    (surjective_pairing _)) as [Hn _].
      unfold trained_at_most in *.
      destruct (training_step E inputs targets s) as [[r | e] s1];
        simpl in Hn |- *; lia.
    + intros [[[error loss] reg] pred].
      apply stable_bind.
      * apply training_output_stable; intros; try assumption;
          apply trained_at_most_other; auto.
      * intros u. apply record_metrics_stable; intros; try assumption;
          apply trained_at_most_other; auto.
  - intros u. apply validation_output_stable; intros; try assumption;
      apply trained_at_most_other; auto.
Qed.

Lemma train_loop_bound savedir epoch todo :
  forall i k,
    triple (trained_at_most k) (train_loop E cfg savedir epoch todo i)
      (fun _ => trained_at_most (k + todo))
      (fun _ => trained_at_most (k + todo)).
Proof.
  induction todo as [| todo IH]; intros i k; simpl.
  - apply triple_ret. intros s. apply trained_at_most_le. lia.
  - eapply triple_bind with (Q' := fun _ => trained_at_most k).
    + intros s Hs. unfold call.
      destruct (next_batch E TrainSet i (world s)) as [[a | e] w1];
        [exact Hs | unfold trained_at_most in *; simpl; lia].
    + intros [inputs targets].
      eapply triple_bind with (Q' := fun _ => trained_at_most (S k)).
      * eapply triple_weaken; [apply (batch_body_bound _ _ _ _ k) | auto | auto |].
        intros e s. apply trained_at_most_le. lia.
      * intros u. replace (k + S todo)%nat with (S k + todo)%nat by lia.
        apply IH.
Qed.

Lemma epoch_body_bound savedir epoch k :
  triple (trained_at_most k) (epoch_body E cfg savedir epoch)
    (fun _ => trained_at_most (k + n)) (fun _ => trained_at_most (k + n)).
Proof.
  intros s Hs. unfold epoch_body, bind, modify. simpl.
  unfold call at 1. simpl.
  destruct (iterate E TrainSet (world s)) as [[m | e] w1] eqn:Hit.
  - pose proof (passes_bounded _ _ _ Hit) as Hm.
    pose proof (train_loop_bound savedir epoch m 0 k
                  (set_world E w1 (set_val_batch E 0 (set_batch E 0 s))) Hs)
      as Hl.
    destruct (train_loop E cfg savedir epoch m 0
                (set_world E w1 (set_val_batch E 0 (set_batch E 0 s))))
      as [[[] | e] s2]; revert Hl; apply trained_at_most_le; lia.
  - unfold trained_at_most in *. simpl. lia.
Qed.

Lemma epochs_bound savedir todo :
  forall epoch k,
    triple (trained_at_most k) (epochs E cfg savedir todo epoch)
      (fun _ => trained_at_most (k + todo * n))
      (fun _ => trained_at_most (k + todo * n)).
Proof.
  induction todo as [| todo IH]; intros epoch k; simpl.
  - apply triple_ret. intros s. apply trained_at_most_le. lia.
  - eapply triple_bind with (Q' := fun _ => trained_at_most (k + n)).
    + eapply triple_weaken; [apply (epoch_body_bound _ _ k) | auto | auto |].
      intros e s. apply trained_at_most_le. lia.
    + intros u.
      replace (k + (n + todo * n))%nat with (k + n + todo * n)%nat by lia.
      apply IH.
Qed.

Lemma run_solver_bound (w : World E) :
  trained_at_most (20 * n) (snd (run_solver E cfg (init_state E w))).
Proof.
  unfold run_solver, bind.
  pose proof (setup_only_logged E cfg w) as H0.
  destruct (setup E cfg (init_state E w)) as [[savedir | e] s1];
    simpl in H0 |- *; destruct H0 as (H0 & _);
    [| unfold trained_at_most; lia].
  unfold run_loop, bind, guarded_training, try_except.
  assert (Ht : trained_at_most (20 * n) (snd (training E cfg savedir s1))).
  { change (training E cfg savedir s1)
      with (epochs E cfg savedir 20 0
              (set_val_snap E (time_time E (world s1))
                 (set_snap E (time_time E (world s1)) s1))).
    pose proof (epochs_bound savedir 20 0 0
                  (set_val_snap E (time_time E (world s1))
                     (set_snap E (time_time E (world s1)) s1))) as Hb.
    unfold trained_at_most at 1 in Hb. simpl trace in Hb.
    specialize (Hb ltac:(lia)).
    destruct (epochs E cfg savedir 20 0 _) as [[[] | e] s2]; exact Hb. }
  assert (Hfin : stable (trained_at_most (20 * n))
                   (finalization E cfg savedir)).
  { apply finalization_stable; intros; try assumption;
      apply trained_at_most_other; auto. }
  destruct (training E cfg savedir s1) as [[[] | e] s2]; simpl in Ht.
  - apply (stable_run (trained_at_most (20 * n))); [exact Hfin | exact Ht].
  - destruct e; cbn -[finalization]; try exact Ht;
      (apply (stable_run (trained_at_most (20 * n))
                (finalization E cfg savedir)); [exact Hfin |]);
      (apply trained_at_most_other; [reflexivity | exact Ht]).
Qed.

End Bound.

(** X18: when no pass over the training set has more than [n] batches, no
    run makes more than [20 * n] training calls that return, and its
    losses list is no longer than that, however the run ends. *)
Theorem at_most_twenty_epochs :
  forall (E : Collaborators) (cfg : config) (n : nat) (w : World E),
    training_batches_at_most E n ->
    let s := snd (run_solver E cfg (init_state E w)) in
    (trainings (trace s) <= 20 * n)%nat
    /\ (length (losses s) <= 20 * n)%nat.
Proof.
  intros E cfg n w Hn s.
  pose proof (run_solver_bound E cfg n Hn w) as Hb.
  fold s in Hb. unfold trained_at_most in Hb.
  split; [exact Hb |].
  pose proof (losses_recorded_run E cfg w) as Hl. fold s in Hl.
  assert (Hall : forall t : list (event (Scalar E) (Params E)),
             length (train_losses t) = trainings t).
  { unfold trainings. induction t as [| e t IH]; simpl; [reflexivity |].
    destruct e; simpl; rewrite ?IH; reflexivity. }
  pose proof (Hall (trace s)) as Hlen.
  destruct Hl as [Hl | [x Hl]].
  - unfold losses_recorded in Hl. rewrite Hl, length_map, Hlen. exact Hb.
  - unfold loss_pending in Hl.
    apply (f_equal (@length _)) in Hl.
    rewrite length_app, length_map, Hlen in Hl. simpl in Hl. lia.
Qed.

(** Five batches per epoch and a user interrupt in the third call. *)
Lemma at_most_twenty_epochs_witness :
  (trainings (trace (snd (Script.run interrupted_run cfg0))) <= 100)%nat.
Proof.
  apply (at_most_twenty_epochs (Script.collaborators interrupted_run) cfg0
           5 Script.start).
  intros w m w' H. injection H as H _. subst m. apply le_n.
Defined.

(* ===================================================================== *)
(** ** The network dump *)
(* ===================================================================== *)

Lemma spaces_length k :
  String.length (Netdump.spaces k) = Z.to_nat k.
Proof.
  unfold Netdump.spaces. induction (Z.to_nat k) as [| n IH]; simpl;
    [reflexivity | rewrite IH; reflexivity].
Qed.

Lemma string_length_app (a b : string) :
  String.length (a ++ b) = (String.length a + String.length b)%nat.
Proof.
  induction a as [| c a IH]; simpl; [reflexivity | rewrite IH; reflexivity].
Qed.

Lemma string_app_assoc (a b c : string) : (a ++ b) ++ c = a ++ b ++ c.
Proof.
  induction a as [| d a IH]; simpl; [reflexivity | rewrite IH; reflexivity].
Qed.

Lemma substring_whole (b : string) : substring 0 (String.length b) b = b.
Proof.
  induction b as [| c b IH]; simpl; [reflexivity | rewrite IH; reflexivity].
Qed.

Lemma substring_after (a b : string) :
  substring (String.length a) (String.length b) (a ++ b) = b.
Proof.
  induction a as [| c a IH]; simpl; [apply substring_whole | exact IH].
Qed.

Lemma substring_prefix (b c : string) :
  substring 0 (String.length b) (b ++ c) = b.
Proof.
  induction b as [| d b IH]; simpl.
  - destruct c; reflexivity.
  - rewrite IH. reflexivity.
Qed.

Lemma substring_middle (a b c : string) :
  substring (String.length a) (String.length b) (a ++ b ++ c) = b.
Proof.
  induction a as [| d a IH]; simpl; [apply substring_prefix | exact IH].
Qed.

Lemma padded_length (key : string) (width : Z) :
  0 <= width ->
  String.length (key ++ Netdump.spaces (width - Netdump.len key))
  = Nat.max (Z.to_nat width) (String.length key).
Proof.
  intros Hw. rewrite string_length_app, spaces_length.
  unfold Netdump.len. lia.
Qed.

Section NetdumpFacts.

Variables Layer Param Value : Type.
Variable get_output_shape : Layer -> outcome string.
Variable params : Layer -> list Param.
Variable str_param : Param -> string.
Variable get_value : Param -> outcome Value.
Variable stats : Value -> outcome (string * string * string * string).

Local Abbreviation dump_params :=
  (Netdump.dump_params Param Value str_param get_value stats).
Local Abbreviation dump_layers :=
  (Netdump.dump_layers Layer Param Value get_output_shape params str_param
     get_value stats).
Local Abbreviation dump_size := (Netdump.dump_size Layer Param params).

Lemma dump_params_records ps :
  forall log,
    exists lines,
      snd (dump_params ps log) = (log ++ lines)%list
      /\ match fst (dump_params ps log) with
         | Ret _ => length lines = length ps
         | Raise _ => (length lines < length ps)%nat
         end.
Proof.
  induction ps as [| param rest IH]; intros log.
  - exists []. simpl. rewrite app_nil_r. split; reflexivity.
  - simpl. unfold bind, Netdump.eval, Netdump.info, modify.
    destruct (get_value param) as [p | e];
      [| exists []; simpl; rewrite app_nil_r; split; [reflexivity | lia]].
    destruct (stats p) as [st | e];
      [| exists []; simpl; rewrite app_nil_r; split; [reflexivity | lia]].
    destruct (IH (log ++ [Netdump.param_line (str_param param) st])%list)
      as (lines & Hl & Hn).
    exists (Netdump.param_line (str_param param) st :: lines).
    destruct (dump_params rest _) as [[[] | e] log1]; simpl in *;
      rewrite Hl, <- app_assoc; (split; [reflexivity | lia]).
Qed.

Lemma dump_layers_step key layer rest log :
  dump_layers ((key, layer) :: rest) log
  = match get_output_shape layer with
    | Raise e => (Raise e, log)
    | Ret shape =>
        match dump_params (params layer)
                (log ++ [Netdump.layer_line key shape])%list with
        | (Ret _, log1) => dump_layers rest log1
        | (Raise e, log1) => (Raise e, log1)
        end
    end.
Proof.
  simpl. unfold bind, Netdump.eval, Netdump.info, modify.
  destruct (get_output_shape layer) as [shape | e]; [| reflexivity].
  simpl.
  destruct (dump_params (params layer) _) as [[[] | e] log1]; reflexivity.
Qed.

Lemma dump_layers_records layers :
  forall log,
    exists lines,
      snd (dump_layers layers log) = (log ++ lines)%list
      /\ match fst (dump_layers layers log) with
         | Ret _ => length lines = dump_size layers
         | Raise _ => (length lines < dump_size layers)%nat
         end.
Proof.
  induction layers as [| [key layer] rest IH]; intros log.
  - exists []. simpl. rewrite app_nil_r. split; reflexivity.
  - rewrite dump_layers_step. cbn [Netdump.dump_size].
    destruct (get_output_shape layer) as [shape | e];
      [| exists []; simpl; rewrite app_nil_r; split; [reflexivity | lia]].
    destruct (dump_params_records (params layer)
                (log ++ [Netdump.layer_line key shape])%list)
      as (plines & Hp & Hpn).
    destruct (dump_params (params layer) _) as [[[] | e] log1];
      simpl in Hp, Hpn; subst log1.
    + destruct (IH ((log ++ [Netdump.layer_line key shape]) ++ plines)%list)
        as (lines & Hl & Hn).
      exists (Netdump.layer_line key shape :: plines ++ lines)%list.
      destruct (dump_layers rest
                  ((log ++ [Netdump.layer_line key shape]) ++ plines)%list)
        as [[[] | e] log2]; simpl in Hl, Hn |- *; subst log2;
        rewrite <- !app_assoc; simpl; rewrite length_app;
        (split; [reflexivity | lia]).
    + exists (Netdump.layer_line key shape :: plines). simpl.
      rewrite <- app_assoc. split; [reflexivity | lia].
Qed.

End NetdumpFacts.

(** X19: a dump logs its heading and then one record per layer and one per
    parameter, so [1 + dump_size layers] records when it returns; when
    a read fails it has logged the heading and fewer records than that,
    and the records logged before stay as they are. *)
Theorem netdump_records :
  forall (Layer Param Value : Type)
         (get_output_shape : Layer -> outcome string)
         (params : Layer -> list Param) (str_param : Param -> string)
         (get_value : Param -> outcome Value)
         (stats : Value -> outcome (string * string * string * string))
         (layers : list (string * Layer)) (log : list string),
    let result :=
      Netdump.netdump Layer Param Value get_output_shape params str_param
        get_value stats layers log in
    exists lines,
      snd result = (log ++ "Network Dump" :: lines)%list
      /\ match fst result with
         | Ret _ => length lines = Netdump.dump_size Layer Param params layers
         | Raise _ =>
             (length lines < Netdump.dump_size Layer Param params layers)%nat
         end.
Proof.
  intros Layer Param Value get_output_shape params str_param get_value
         stats layers log result.
  destruct (dump_layers_records Layer Param Value get_output_shape params
              str_param get_value stats layers
              (log ++ ["Network Dump"])%list) as (lines & Hl & Hn).
  exists lines. unfold result, Netdump.netdump, bind, Netdump.info, modify.
  simpl. rewrite Hl, <- app_assoc. split; [reflexivity | exact Hn].
Qed.

(** X20: the columns of a dump: the shape of a layer starts at column 20
    when the layer's key has at most 20 characters and right after the
    key otherwise; the name of a parameter starts at column 30 and its
    numbers at column 40 when the name has at most 10 characters, right
    after the name otherwise. *)
Theorem netdump_columns :
  forall (key shape name : string)
         (st : string * string * string * string),
    substring (Nat.max 20 (String.length key)) (String.length shape)
      (Netdump.layer_line key shape) = shape
    /\ substring 30 (String.length name) (Netdump.param_line name st)
       = name
    /\ let '(p_min, p_mean, p_max, p_sumsq) := st in
       let numbers :=
         p_min ++ " " ++ p_mean ++ " " ++ p_max ++ " " ++ p_sumsq in
       substring (30 + Nat.max 10 (String.length name))
         (String.length numbers) (Netdump.param_line name st) = numbers.
Proof.
  intros key shape name [[[p_min p_mean] p_max] p_sumsq].
  split; [| split].
  - unfold Netdump.layer_line. rewrite <- string_app_assoc.
    replace (Nat.max 20 (String.length key))
      with (String.length (key ++ Netdump.spaces (20 - Netdump.len key)))
      by (rewrite padded_length by lia; reflexivity).
    apply substring_after.
  - unfold Netdump.param_line.
    change 30%nat with (String.length (Netdump.spaces 30)).
    apply substring_middle.
  - unfold Netdump.param_line.
    set (numbers := p_min ++ " " ++ p_mean ++ " " ++ p_max ++ " "
                    ++ p_sumsq).
    replace (Nat.max 10 (String.length name))
      with (String.length (name ++ Netdump.spaces (10 - Netdump.len name)))
      by (rewrite padded_length by lia; reflexivity).
    rewrite <- (string_app_assoc name).
    generalize (name ++ Netdump.spaces (10 - Netdump.len name)).
    intros head.
    change (30 + String.length head)%nat
      with (String.length (Netdump.spaces 30) + String.length head)%nat.
    rewrite <- string_length_app, <- string_app_assoc.
    apply substring_after.
Qed.
